(** * lib.md: the Markdown document model, its serializers and its renderer

    A shallow embedding of [src/md/markdown.mjs] and [src/md/renderer.mjs].

    Conventions of the embedding.
    - A JavaScript string is a [string]: a sequence of UTF-16 code units,
      restricted to the code units below 256.  Lone surrogates, on which
      [encodeURI] raises a [URIError], are therefore outside the model.
    - A JavaScript number is a [number]: an integer, or one of the values
      that string conversion and [JSON.stringify] treat apart ([NaN], the
      infinities, negative zero).  Fractions are outside the model.
    - A JavaScript computation that may throw is a value of [outcome]:
      [Ok v] when it returns [v], [Throw e] when it throws [e], and
      [Diverge] when it never returns.
    - The class hierarchy [Node > Text > ...] and [Node > Element > ...] is
      one inductive type [md.node]; [instanceof] tests are boolean
      functions on it.  JavaScript containers hold any node, so the
      children of every element are a [list node]. *)

From Stdlib Require Import String Ascii List ZArith Lia Bool DecimalString.
Import ListNotations.
Open Scope string_scope.

Set Warnings "-register-all".

Scheme All for list.

(** ** JavaScript strings and exceptions *)

Module js.

(** A thrown value: the constructor name of the error and its [message]. *)
Inductive exn := Exn (kind : string) (message : string).

Definition message (e : exn) : string :=
  match e with Exn _ m => m end.

Definition TypeError (m : string) : exn := Exn "TypeError" m.
Definition Error (m : string) : exn := Exn "Error" m.

Inductive outcome (A : Type) : Type :=
| Ok (a : A)
| Throw (e : exn)
| Diverge.

Arguments Ok {A} a.
Arguments Throw {A} e.
Arguments Diverge {A}.

Definition bind {A B} (m : outcome A) (k : A -> outcome B) : outcome B :=
  match m with
  | Ok a => k a
  | Throw e => Throw e
  | Diverge => Diverge
  end.

Definition fmap {A B} (f : A -> B) (m : outcome A) : outcome B :=
  bind m (fun a => Ok (f a)).

(** [array.map(f)] for a callback that may throw: elements are visited from
    left to right and the first exception aborts the traversal. *)
Definition mapM {A B} (f : A -> outcome B) : list A -> outcome (list B) :=
  fix go (l : list A) : outcome (list B) :=
    match l with
    | [] => Ok []
    | x :: r => bind (f x) (fun y => bind (go r) (fun ys => Ok (y :: ys)))
    end.

Definition is_ok {A} (m : outcome A) : bool :=
  match m with Ok _ => true | _ => false end.

(** [array.filter(p)] for a predicate that may throw. *)
Definition filterM {A} (p : A -> outcome bool) : list A -> outcome (list A) :=
  fix go (l : list A) : outcome (list A) :=
    match l with
    | [] => Ok []
    | x :: r =>
        bind (p x) (fun keep => bind (go r) (fun kept => Ok (if keep then x :: kept else kept)))
    end.

(** The characters ["\n"] and the double quote. *)
Definition LF : string := String "010"%char EmptyString.
Definition DQUOTE : string := String "034"%char EmptyString.

(** [array.join(sep)] on an array of strings. *)
Definition join (sep : string) (l : list string) : string := String.concat sep l.

(** [s.startsWith(pat)] *)
Fixpoint startsWith (pat s : string) : bool :=
  match pat with
  | EmptyString => true
  | String a pat' =>
      match s with
      | EmptyString => false
      | String b s' => Ascii.eqb a b && startsWith pat' s'
      end
  end.

(** [s.includes(sub)] *)
Fixpoint includes (sub s : string) : bool :=
  if startsWith sub s then true
  else match s with
       | EmptyString => false
       | String _ r => includes sub r
       end.

(** [s.split(sep)] for a one-character separator. *)
Fixpoint split (sep : ascii) (s : string) : list string :=
  match s with
  | EmptyString => [EmptyString]
  | String c r =>
      if Ascii.eqb c sep then EmptyString :: split sep r
      else match split sep r with
           | [] => [String c EmptyString]
           | x :: xs => String c x :: xs
           end
  end.

(** [s.repeat(n)] *)
Fixpoint repeat_string (s : string) (n : nat) : string :=
  match n with
  | O => EmptyString
  | S k => s ++ repeat_string s k
  end.

(** The numbers of the model. *)
Inductive number :=
| Int (z : Z)
| NegativeZero
| NaN
| Infinity
| NegativeInfinity.

(** [String(n)] *)
Definition number_to_string (n : number) : string :=
  match n with
  | Int z => NilZero.string_of_int (Z.to_int z)
  | NegativeZero => "0"
  | NaN => "NaN"
  | Infinity => "Infinity"
  | NegativeInfinity => "-Infinity"
  end.

(** [a + b] on numbers. *)
Definition plus (a b : number) : number :=
  match a, b with
  | NaN, _ | _, NaN => NaN
  | Infinity, NegativeInfinity | NegativeInfinity, Infinity => NaN
  | Infinity, _ | _, Infinity => Infinity
  | NegativeInfinity, _ | _, NegativeInfinity => NegativeInfinity
  | NegativeZero, NegativeZero => NegativeZero
  | NegativeZero, other | other, NegativeZero => other
  | Int x, Int y => Int (x + y)
  end.

(** [n === 1] *)
Definition is_one (n : number) : bool :=
  match n with Int z => (z =? 1)%Z | _ => false end.

(** [s.replace(/pat/g, rep)] for a literal, non-empty pattern: matches are
    found from left to right and do not overlap.  [skip] counts the
    characters of the current match still to be consumed. *)
Fixpoint replace_all_from (pat rep : string) (skip : nat) (s : string) : string :=
  match s with
  | EmptyString => EmptyString
  | String c r =>
      match skip with
      | S k => replace_all_from pat rep k r
      | O => if startsWith pat s
             then rep ++ replace_all_from pat rep (String.length pat - 1) r
             else String c (replace_all_from pat rep 0 r)
      end
  end.

Definition replace_all (pat rep s : string) : string :=
  replace_all_from pat rep 0 s.

(** [toLowerCase] on one code unit below 256: [A-Z] and the Latin-1 capitals
    (0xC0-0xDE without the multiplication sign 0xD7) move up by 32. *)
Definition lower_char (c : ascii) : ascii :=
  let n := nat_of_ascii c in
  if ((65 <=? n) && (n <=? 90) || (192 <=? n) && (n <=? 222) && negb (n =? 215))%nat
  then ascii_of_nat (n + 32) else c.

Fixpoint toLowerCase (s : string) : string :=
  match s with
  | EmptyString => EmptyString
  | String c r => String (lower_char c) (toLowerCase r)
  end.

(** [toLocaleLowerCase] in a locale without special casing rules. *)
Definition toLocaleLowerCase (s : string) : string := toLowerCase s.

Definition hex_digit (n : nat) : ascii :=
  if (n <? 10)%nat then ascii_of_nat (48 + n) else ascii_of_nat (55 + n).

(** [%XX] for one byte. *)
Definition percent_byte (n : nat) : string :=
  String "%"%char (String (hex_digit (n / 16)) (String (hex_digit (n mod 16)) EmptyString)).

(** The characters [encodeURI] leaves alone: letters, digits, the reserved
    characters [; / ? : @ & = + $ ,], the marks [- _ . ! ~ * ' ( )] and [#]. *)
Definition uri_unescaped (c : ascii) : bool :=
  let n := nat_of_ascii c in
  ((65 <=? n) && (n <=? 90) || (97 <=? n) && (n <=? 122) || (48 <=? n) && (n <=? 57)
   || existsb (Ascii.eqb c) (list_ascii_of_string ";/?:@&=+$,#-_.!~*'()"))%nat.

(** [encodeURI] on one code unit: kept when unescaped, else the bytes of its
    UTF-8 encoding, each as [%XX]. *)
Definition encodeURI_char (c : ascii) : string :=
  let n := nat_of_ascii c in
  if uri_unescaped c then String c EmptyString
  else if (n <? 128)%nat then percent_byte n
  else percent_byte (192 + n / 64) ++ percent_byte (128 + n mod 64).

Fixpoint encodeURI (s : string) : string :=
  match s with
  | EmptyString => EmptyString
  | String c r => encodeURI_char c ++ encodeURI r
  end.

End js.

Import js.

Notation "x <- m ;; k" := (bind m (fun x => k))
  (at level 61, m at next level, right associativity).

(** ** The HTML tree the renderer builds

    [src/html.mjs] is not among the sources.  The renderer only builds trees
    with it; the builders below are written from section 3.1 and 4.1 of the
    specification and from the way [renderer.mjs] calls them.  The parser,
    the sanitizer and the serializer of that file stay parameters of the
    renderer. *)

Module html.

Inductive TextMode := NORMAL | RAW | CODE.

(** The value of an attribute: none ([attr(name)] alone, or a value that is
    [undefined]), a string, a number, a list of tokens, or a style map. *)
Inductive attr_value :=
| NoValue
| StringValue (s : string)
| NumberValue (n : js.number)
| TokenList (tokens : list string)
| StyleMap (styles : list (string * string)).

(** Modelled from the spec: a node is an [Element], a [Text] or a [Comment].
    An element has a tag name, attributes with unique names, and children;
    [properties] keeps the plain JavaScript properties the renderer assigns
    on an element object ([className]). *)
Inductive node :=
| Element (tag : string) (attributes : list (string * attr_value))
          (children : list node) (properties : list (string * string))
| Text (content : string) (mode : TextMode)
| Comment (content : string).

(** [Comment] extends [Text] in [html.mjs]: the renderer tests
    [x instanceof html.Text && !(x instanceof html.Comment)]. *)
Definition instanceof_Text (n : node) : bool :=
  match n with Text _ _ | Comment _ => true | Element _ _ _ _ => false end.

Definition instanceof_Comment (n : node) : bool :=
  match n with Comment _ => true | _ => false end.

Definition instanceof_Element (n : node) : bool :=
  match n with Element _ _ _ _ => true | _ => false end.

(** Modelled from the spec: [create_element(tag)] *)
Definition create_element (tag : string) : node := Element tag [] [] [].

(** What [append_child] accepts: a node, or a string that becomes a
    [Text] in normal mode. *)
Inductive item := Str (s : string) | Obj (n : node).

Definition to_node (i : item) : node :=
  match i with Str s => Text s NORMAL | Obj n => n end.

(** Modelled from the spec: [element.append_child(child)] and
    [with_child]. *)
Definition append_child (element : node) (child : item) : node :=
  match element with
  | Element tag attrs children props => Element tag attrs (children ++ [to_node child]) props
  | other => other
  end.

Definition append_children (element : node) (l : list item) : node :=
  fold_left append_child l element.

(** [element.children = l] *)
Definition set_children (element : node) (l : list node) : node :=
  match element with
  | Element tag attrs _ props => Element tag attrs l props
  | other => other
  end.

Definition children_of (element : node) : list node :=
  match element with Element _ _ c _ => c | _ => [] end.

Fixpoint set_assoc {V} (key : string) (v : V) (l : list (string * V)) : list (string * V) :=
  match l with
  | [] => [(key, v)]
  | (k, w) :: r => if String.eqb k key then (k, v) :: r else (k, w) :: set_assoc key v r
  end.

Fixpoint get_assoc {V} (key : string) (l : list (string * V)) : option V :=
  match l with
  | [] => None
  | (k, w) :: r => if String.eqb k key then Some w else get_assoc key r
  end.

(** Modelled from the spec: [element.attr(name, value)] and [with_attr];
    attribute names stay unique. *)
Definition attr (element : node) (name : string) (value : attr_value) : node :=
  match element with
  | Element tag attrs children props => Element tag (set_assoc name value attrs) children props
  | other => other
  end.

Definition get_attr (element : node) (name : string) : option attr_value :=
  match element with
  | Element _ attrs _ _ => get_assoc name attrs
  | _ => None
  end.

(** Modelled from the spec: [element.style(key, value)] sets one key of the
    style map. *)
Definition style (element : node) (key value : string) : node :=
  let styles := match get_attr element "style" with
                | Some (StyleMap m) => m
                | _ => []
                end in
  attr element "style" (StyleMap (set_assoc key value styles)).

(** Modelled from the spec: [element.attr("class").add(token)] appends a
    token that is not yet in the list. *)
Definition add_class (element : node) (token : string) : node :=
  let tokens := match get_attr element "class" with
                | Some (TokenList l) => l
                | Some (StringValue s) => if String.eqb s "" then [] else [s]
                | _ => []
                end in
  attr element "class"
       (TokenList (if existsb (String.eqb token) tokens then tokens else tokens ++ [token])).

(** [element.prop = value] for a property that is not an attribute. *)
Definition set_property (element : node) (name value : string) : node :=
  match element with
  | Element tag attrs children props => Element tag attrs children (set_assoc name value props)
  | other => other
  end.

(** A string attribute whose value may be [undefined]. *)
Definition optional_string (o : option string) : attr_value :=
  match o with Some s => StringValue s | None => NoValue end.

End html.

(** ** src/md/markdown.mjs *)

Module md.

(** [class Reference] : [url] and [tooltip] may be [undefined]. *)
Record Reference := { url : option string; tooltip : option string }.

(** [class TableAlignment] and the frozen [TableAlignments] table. *)
Inductive TableAlignment := NONE | LEFT | CENTER | RIGHT.

Definition name (a : TableAlignment) : string :=
  match a with NONE => "none" | LEFT => "left" | CENTER => "center" | RIGHT => "right" end.
Definition left (a : TableAlignment) : string :=
  match a with NONE => "-" | LEFT => ":" | CENTER => ":" | RIGHT => "-" end.
Definition right (a : TableAlignment) : string :=
  match a with NONE => "-" | LEFT => "-" | CENTER => ":" | RIGHT => ":" end.

(** [TableRow.table], the first argument of [new TableRow(table, columns)]:
    the object the row asks for the alignment of its cells when it is
    rendered.  [Holder] is the [Table] whose [nodes] hold the row, as for
    every row a [Table] makes itself; [OtherTable alignments] is any other
    [Table], of which [get_alignment] reads the [alignments]; [NoTable] is
    [undefined]. *)
Inductive table_pointer :=
| Holder
| OtherTable (alignments : list TableAlignment)
| NoTable.

(** Every class of the file.  [Emoji], [InlineCode] and [InlineLink] extend
    [Text]; [HORIZONTAL_RULE] is a frozen object outside the hierarchy; all
    others extend [Element] and start with its [nodes].  [level] is whatever
    value was stored in the heading; [skin_tone] is a number or [null];
    [checked] is a boolean or [null]; [language] may be [undefined].
    [TableEntry.row] is written by the constructor and never read, and is
    left out. *)
Inductive node :=
| Text (content : string)
| Emoji (content : string) (skin_tone : option number)
| InlineCode (content : string)
| InlineLink (content : string)
| Comment (nodes : list node)
| Italic (nodes : list node)
| Bold (nodes : list node)
| Underline (nodes : list node)
| Strikethrough (nodes : list node)
| Highlight (nodes : list node)
| Spoiler (nodes : list node)
| Link (nodes : list node) (ref : Reference) (ref_name : string)
| Image (nodes : list node) (ref : Reference) (ref_name : string)
| Heading (nodes : list node) (level : string)
| Paragraph (nodes : list node)
| BlockCode (code : string) (language : option string)
| BlockQuote (nodes : list node)
| HORIZONTAL_RULE
| List (nodes : list node) (ordered : bool) (ordered_start : number)
| ListEntry (nodes : list node) (sublists : list node) (checked : option bool)
| InlineHTML (nodes : list node)
| InlineLatex (nodes : list node) (raw : string) (display_mode : bool)
| Table (nodes : list node) (alignments : list TableAlignment)
| TableRow (nodes : list node) (table : table_pointer)
| TableEntry (nodes : list node)
| TableOfContents (nodes : list node).

(** [class MDDocument]: [references] is an array of [{name, ref}]. *)
Record MDDocument := { blocks : list node; references : list (string * Reference) }.

(** *** instanceof *)

Definition instanceof_Text (n : node) : bool :=
  match n with
  | Text _ | Emoji _ _ | InlineCode _ | InlineLink _ => true
  | _ => false
  end.

Definition instanceof_Element (n : node) : bool :=
  match n with
  | Text _ | Emoji _ _ | InlineCode _ | InlineLink _ | HORIZONTAL_RULE => false
  | _ => true
  end.

Definition instanceof_Link (n : node) : bool :=
  match n with Link _ _ _ | Image _ _ _ => true | _ => false end.

Definition instanceof_Heading (n : node) : bool :=
  match n with Heading _ _ => true | _ => false end.

Definition instanceof_List (n : node) : bool :=
  match n with List _ _ _ => true | _ => false end.

Definition instanceof_ListEntry (n : node) : bool :=
  match n with ListEntry _ _ _ => true | _ => false end.

(** [node.nodes]: [undefined] on an object that is not an [Element]. *)
Definition get_nodes (n : node) : option (list node) :=
  match n with
  | Text _ | Emoji _ _ | InlineCode _ | InlineLink _ | HORIZONTAL_RULE => None
  | BlockCode _ _ => Some []
  | Comment l | Italic l | Bold l | Underline l | Strikethrough l | Highlight l
  | Spoiler l | Link l _ _ | Image l _ _ | Heading l _ | Paragraph l | BlockQuote l
  | List l _ _ | ListEntry l _ _ | InlineHTML l | InlineLatex l _ _ | Table l _
  | TableRow l _ | TableEntry l | TableOfContents l => Some l
  end.

(** *** Text *)

(** [Text.is_linebreak], overridden to [false] in the subclasses of [Text] *)
Definition is_linebreak (n : node) : bool :=
  match n with
  | Text c => String.eqb c ("  " ++ LF)
  | _ => false
  end.

Definition LINEBREAK : node := Text ("  " ++ LF).

(** [node instanceof Text && node.is_linebreak()] *)
Definition is_linebreak_text (n : node) : bool :=
  instanceof_Text n && is_linebreak n.

(** [purge_linebreaks(nodes)] *)
Definition purge_linebreaks (nodes : list node) : list node :=
  filter (fun n => negb (is_linebreak_text n)) nodes.

(** *** Reference *)

Definition has_tooltip (r : Reference) : bool :=
  match tooltip r with
  | Some t => negb (String.eqb t "")
  | None => false
  end.

(** String concatenation with a value that may be [undefined]. *)
Definition string_of_optional (o : option string) : string :=
  match o with Some s => s | None => "undefined" end.

Definition Reference_toString (r : Reference) : string :=
  string_of_optional (url r)
  ++ (if has_tooltip r then " " ++ DQUOTE ++ string_of_optional (tooltip r) ++ DQUOTE else "").

(** *** toString *)

(** [TableAlignment.to_pretty_string(column_length)] *)
Definition to_pretty_string (a : TableAlignment) (column_length : nat) : string :=
  let column_length := if (column_length <? 5)%nat then 5%nat else column_length in
  left a ++ repeat_string "-" (column_length - 2) ++ right a.

(** The [switch] of [Heading.toString]. *)
Definition heading_prefix (level : string) : outcome string :=
  if String.eqb level "h1" then Ok "# "
  else if String.eqb level "h2" then Ok "## "
  else if String.eqb level "h3" then Ok "### "
  else if String.eqb level "h4" then Ok "#### "
  else if String.eqb level "h5" then Ok "##### "
  else if String.eqb level "h6" then Ok "###### "
  else Throw (Error ("lib.md ;; Heading#toString(): invalid heading " ++ DQUOTE ++ level ++ DQUOTE ++ ".")).

(** The suffix [to_string_with_linebreaks] adds after the node at [index]. *)
Fixpoint with_linebreaks (nodes : list node) (strs : list string) : list string :=
  match nodes, strs with
  | n :: ((_ :: _) as nodes'), s :: strs' =>
      (s ++ (if negb (is_linebreak_text n) then " " else "")) :: with_linebreaks nodes' strs'
  | _, _ => strs
  end.

(** The second [map] of [List.toString], from [index] on: the bullet, or
    the number [index + this.ordered_start]. *)
Fixpoint number_entries (ordered : bool) (ordered_start : number) (index : Z)
    (entries : list string) : list string :=
  match entries with
  | [] => []
  | e :: r =>
      (if ordered then number_to_string (plus (Int index) ordered_start) ++ ". " ++ e
       else "- " ++ e)
      :: number_entries ordered ordered_start (index + 1) r
  end.

(** Indent every line but the first by two spaces. *)
Definition indent_tail (s : string) : string :=
  match split "010"%char s with
  | [] => ""
  | first :: rest => join LF (first :: map (fun l => "  " ++ l) rest)
  end.

Definition indent_all (s : string) : string :=
  join LF (map (fun line => "  " ++ line) (split "010"%char s)).

(** The alignment row of [Table.toString]. *)
Fixpoint alignment_row (als : list TableAlignment) (head_columns : list string) : list string :=
  match als with
  | [] => []
  | a :: r =>
      to_pretty_string a
        (match head_columns with
         | h :: _ => if String.eqb h "" then 5%nat else (String.length h + 2)%nat
         | [] => 5%nat
         end)
      :: alignment_row r (tl head_columns)
  end.

(** [toString] of every class; [Element.toString] is
    [get_nodes_as_string], the concatenation of the children. *)
Fixpoint toString (n : node) : outcome string :=
  match n with
  | Text c => Ok c
  | Emoji c None => Ok (":" ++ c ++ ":")
  | Emoji c (Some tone) => Ok (":" ++ c ++ "::skin-tone-" ++ number_to_string tone ++ ":")
  | InlineCode c =>
      if includes "`" c then Ok ("```" ++ c ++ "```") else Ok ("`" ++ c ++ "`")
  | InlineLink c => Ok c
  | Comment l | Paragraph l | InlineHTML l | TableEntry l =>
      fmap (join "") (mapM toString l)
  | Italic l =>
      content <- fmap (join "") (mapM toString l) ;;
      if includes "*" content then Ok ("_" ++ content ++ "_") else Ok ("*" ++ content ++ "*")
  | Bold l => content <- fmap (join "") (mapM toString l) ;; Ok ("**" ++ content ++ "**")
  | Underline l => content <- fmap (join "") (mapM toString l) ;; Ok ("__" ++ content ++ "__")
  | Strikethrough l => content <- fmap (join "") (mapM toString l) ;; Ok ("~~" ++ content ++ "~~")
  | Highlight l => content <- fmap (join "") (mapM toString l) ;; Ok ("==" ++ content ++ "==")
  | Spoiler l => content <- fmap (join "") (mapM toString l) ;; Ok ("||" ++ content ++ "||")
  | Link l r rn =>
      title <- fmap (join "") (mapM toString l) ;;
      if negb (String.eqb rn "") then
        if String.eqb rn title then Ok ("[" ++ title ++ "]")
        else Ok ("[" ++ title ++ "][" ++ rn ++ "]")
      else Ok ("[" ++ title ++ "](" ++ Reference_toString r ++ ")")
  | Image l r rn =>
      title <- fmap (join "") (mapM toString l) ;;
      if negb (String.eqb rn "") then
        if String.eqb rn title then Ok ("!" ++ "[" ++ title ++ "]")
        else Ok ("!" ++ "[" ++ title ++ "][" ++ rn ++ "]")
      else Ok ("!" ++ "[" ++ title ++ "](" ++ Reference_toString r ++ ")")
  | Heading l level =>
      content <- fmap (join " ") (mapM toString l) ;;
      prefix <- heading_prefix level ;;
      Ok (prefix ++ content)
  | BlockCode code language =>
      Ok ("```"
          ++ (match language with
              | Some lang => if negb (String.eqb lang "") then lang ++ LF else LF
              | None => LF
              end)
          ++ code ++ LF ++ "```")
  | BlockQuote l =>
      strs <- mapM toString l ;;
      Ok (join LF (map (fun quote => "> " ++ quote)
                       (split "010"%char (join "" (with_linebreaks l strs)))))
  | HORIZONTAL_RULE => Ok "---"
  | List l ordered ordered_start =>
      strs <- mapM toString l ;;
      Ok (join LF (map indent_tail (number_entries ordered ordered_start 0 strs)))
  | ListEntry l sublists checked =>
      content <- fmap (join LF) (mapM toString l) ;;
      let content :=
        match checked with
        | Some true => "[x] " ++ content
        | Some false => "[ ] " ++ content
        | None => content
        end in
      match sublists with
      | [] => Ok content
      | _ :: _ =>
          subs <- mapM toString sublists ;;
          Ok (content ++ LF ++ join LF (map indent_all subs))
      end
  | InlineLatex _ raw display_mode =>
      if display_mode then Ok ("$$" ++ LF ++ raw ++ LF ++ "$$") else Ok ("$" ++ raw ++ "$")
  | Table l als =>
      match l with
      | [] => Throw (TypeError "Cannot read properties of undefined (reading 'nodes')")
      | head :: body =>
          head_columns <-
            match head with
            | Text _ | Emoji _ _ | InlineCode _ | InlineLink _ | HORIZONTAL_RULE =>
                Throw (TypeError "Cannot read properties of undefined (reading 'map')")
            | BlockCode _ _ => Ok []
            | Comment c | Italic c | Bold c | Underline c | Strikethrough c | Highlight c
            | Spoiler c | Link c _ _ | Image c _ _ | Heading c _ | Paragraph c | BlockQuote c
            | List c _ _ | ListEntry c _ _ | InlineHTML c | InlineLatex c _ _ | Table c _
            | TableRow c _ | TableEntry c | TableOfContents c => mapM toString c
            end ;;
          rows <- mapM toString body ;;
          Ok ("| " ++ join " | " head_columns ++ " |" ++ LF
              ++ "|" ++ join "|" (alignment_row als head_columns) ++ "|"
              ++ LF ++ join LF rows)
      end
  | TableRow l _ =>
      cols <- mapM toString l ;;
      Ok ("| " ++ join " | " cols ++ " |")
  | TableOfContents _ => Ok "[[ToC]]"
  end.

(** [Element.get_nodes_as_string] *)
Definition get_nodes_as_string (nodes : list node) : outcome string :=
  fmap (join "") (mapM toString nodes).

(** *** References and the document serializer *)

(** What [get_references] returns: [undefined], one [{name, ref}] object, or
    an array of them. *)
Inductive found_references :=
| NoReference
| OneReference (name : string) (ref : Reference)
| ManyReferences (refs : list (string * Reference)).

(** [.filter(node => node !== undefined).flat()] *)
Fixpoint flat_references (l : list found_references) : list (string * Reference) :=
  match l with
  | [] => []
  | NoReference :: r => flat_references r
  | OneReference nm rf :: r => (nm, rf) :: flat_references r
  | ManyReferences refs :: r => refs ++ flat_references r
  end.

Fixpoint get_references (element : node) : found_references :=
  match element with
  | Link _ r rn | Image _ r rn =>
      if negb (String.eqb rn "") then OneReference rn r else NoReference
  | Text _ | Emoji _ _ | InlineCode _ | InlineLink _ | HORIZONTAL_RULE => NoReference
  | BlockCode _ _ => ManyReferences []
  | Comment l | Italic l | Bold l | Underline l | Strikethrough l | Highlight l
  | Spoiler l | Heading l _ | Paragraph l | BlockQuote l
  | List l _ _ | ListEntry l _ _ | InlineHTML l | InlineLatex l _ _ | Table l _
  | TableRow l _ | TableEntry l | TableOfContents l =>
      ManyReferences (flat_references (map get_references l))
  end.

(** [references.concat(x)]: an array argument is spread, any other value,
    [undefined] included, is appended as one element. *)
Definition concat_references (acc : list (option (string * Reference))) (x : found_references)
  : list (option (string * Reference)) :=
  match x with
  | NoReference => acc ++ [None]
  | OneReference nm rf => acc ++ [Some (nm, rf)]
  | ManyReferences refs => acc ++ map Some refs
  end.

(** [.filter((v, i, arr) => arr.indexOf(v) === i)]: first occurrences only. *)
Fixpoint unique_from (seen : list string) (l : list string) : list string :=
  match l with
  | [] => []
  | x :: r =>
      if existsb (String.eqb x) seen then unique_from seen r
      else x :: unique_from (x :: seen) r
  end.

(** [.filter(ref => ref.ref.url !== undefined)]: reading [ref.ref] throws on
    an element that is [undefined]. *)
Fixpoint with_url (l : list (option (string * Reference))) : outcome (list (string * Reference)) :=
  match l with
  | [] => Ok []
  | None :: _ => Throw (TypeError "Cannot read properties of undefined (reading 'ref')")
  | Some (nm, rf) :: r =>
      rest <- with_url r ;;
      Ok (match url rf with Some _ => (nm, rf) :: rest | None => rest end)
  end.

(** [MDDocument.toString] *)
Definition MDDocument_toString (d : MDDocument) : outcome string :=
  let refs := fold_left concat_references (map get_references (blocks d))
                        (map Some (references d)) in
  strs <- mapM (fun block => fmap (fun s => s ++ LF) (toString block)) (blocks d) ;;
  match refs with
  | [] => Ok (join LF strs)
  | _ :: _ =>
      kept <- with_url refs ;;
      Ok (join LF strs ++ LF
          ++ join LF (unique_from []
                        (map (fun r => "[" ++ fst r ++ "]: " ++ Reference_toString (snd r)) kept))
          ++ LF)
  end.

(** *** Plain text and heading identifiers *)

(** [Element.as_plain_text]; objects that are not elements have no such
    method. *)
Fixpoint as_plain_text (n : node) : outcome string :=
  match n with
  | Text _ | Emoji _ _ | InlineCode _ | InlineLink _ | HORIZONTAL_RULE =>
      Throw (TypeError "node.as_plain_text is not a function")
  | BlockCode _ _ => Ok ""
  | Comment l | Italic l | Bold l | Underline l | Strikethrough l | Highlight l
  | Spoiler l | Link l _ _ | Image l _ _ | Heading l _ | Paragraph l | BlockQuote l
  | List l _ _ | ListEntry l _ _ | InlineHTML l | InlineLatex l _ _ | Table l _
  | TableRow l _ | TableEntry l | TableOfContents l =>
      fmap (join "")
           (mapM (fun node =>
                    match node with
                    | Text c | Emoji c _ | InlineCode c | InlineLink c => Ok c
                    | _ => as_plain_text node
                    end) l)
  end.

(** The string transformation of [Heading.get_id]. *)
Definition id_of_text (text : string) : string :=
  toLocaleLowerCase (replace_all "%20" "-" (encodeURI text)).

(** [Heading.get_id] *)
Definition get_id (heading : node) : outcome string :=
  match heading with
  | Heading _ _ => text <- as_plain_text heading ;; Ok (id_of_text text)
  | _ => Throw (TypeError "heading.get_id is not a function")
  end.

(** *** Constructors *)

(** An element of a [(Node|string)[]] argument. *)
Inductive item := Str (s : string) | Obj (n : node).

(** A [string|Node|(Node|string)[]] argument, or [undefined]. *)
Inductive arg :=
| Undefined
| OneString (s : string)
| OneNode (n : node)
| Array (l : list item).

Definition to_node (i : item) : node :=
  match i with Str s => Text s | Obj n => n end.

(** [Element.constructor]: the value of [this.nodes] it leaves.  A lone
    argument is wrapped in an array when it is a string or an [Element];
    any other value reaches [nodes.map]. *)
Definition Element_constructor (nodes : arg) (allow_linebreaks : bool) : outcome (list node) :=
  nodes <- match nodes with
           | Undefined => Ok []
           | OneString s => Ok [Str s]
           | OneNode n =>
               if instanceof_Element n then Ok [Obj n]
               else Throw (TypeError "nodes.map is not a function")
           | Array l => Ok l
           end ;;
  let nodes := map to_node nodes in
  Ok (if allow_linebreaks then nodes else purge_linebreaks nodes).

Definition new_Comment (comment : arg) : outcome node :=
  fmap Comment (Element_constructor comment true).
Definition new_Italic (content : arg) : outcome node :=
  fmap Italic (Element_constructor content true).
Definition new_Bold (content : arg) : outcome node :=
  fmap Bold (Element_constructor content true).
Definition new_Underline (content : arg) : outcome node :=
  fmap Underline (Element_constructor content true).
Definition new_Strikethrough (content : arg) : outcome node :=
  fmap Strikethrough (Element_constructor content false).
Definition new_Highlight (content : arg) : outcome node :=
  fmap Highlight (Element_constructor content false).
Definition new_Spoiler (content : arg) : outcome node :=
  fmap Spoiler (Element_constructor content false).

(** The body of [Link.constructor] up to the class of the result. *)
Definition Link_constructor (url : string) (title : arg) (tooltip reference : option string)
  : outcome (list node * Reference * string) :=
  let title :=
    match title with
    | Undefined => OneNode (Text url)
    | OneString s => if String.eqb s "" then OneNode (Text url) else title
    | _ => title
    end in
  let reference := match reference with Some r => r | None => "" end in
  nodes <- Element_constructor title false ;;
  Ok (nodes, {| url := Some url; tooltip := tooltip |}, toLowerCase reference).

Definition new_Link (url : string) (title : arg) (tooltip reference : option string) : outcome node :=
  fmap (fun '(nodes, r, rn) => Link nodes r rn) (Link_constructor url title tooltip reference).
Definition new_Image (url : string) (alt : arg) (tooltip reference : option string) : outcome node :=
  fmap (fun '(nodes, r, rn) => Image nodes r rn) (Link_constructor url alt tooltip reference).

Definition new_Heading (nodes : arg) (level : string) : outcome node :=
  fmap (fun l => Heading l level) (Element_constructor nodes false).
Definition new_Paragraph (nodes : arg) : outcome node :=
  fmap Paragraph (Element_constructor nodes true).
Definition new_BlockQuote (nodes : arg) : outcome node :=
  fmap BlockQuote (Element_constructor nodes true).
Definition new_InlineHTML (nodes : arg) : outcome node :=
  fmap InlineHTML (Element_constructor nodes true).
Definition new_InlineLatex (raw : string) (display_mode : bool) : outcome node :=
  fmap (fun l => InlineLatex l raw display_mode) (Element_constructor (Array []) true).
Definition new_TableOfContents : outcome node :=
  fmap TableOfContents (Element_constructor (Array []) true).
Definition new_TableRow (table : table_pointer) (columns : arg) : outcome node :=
  fmap (fun cells => TableRow cells table) (Element_constructor columns true).
Definition new_TableEntry (nodes : arg) : outcome node :=
  fmap TableEntry (Element_constructor nodes true).

(** [Table.constructor]: a missing head row is created, for this table. *)
Definition new_Table (nodes : arg) (alignments : list TableAlignment) : outcome node :=
  rows <- Element_constructor nodes true ;;
  match rows with
  | [] => head <- new_TableRow Holder (Array []) ;; Ok (Table [head] alignments)
  | _ :: _ => Ok (Table rows alignments)
  end.

(** [ListEntry.constructor]: [sublists] defaults to [[]], also when [null]. *)
Definition new_ListEntry (nodes : arg) (sublists : option (list node)) (checked : option bool)
  : outcome node :=
  l <- Element_constructor nodes false ;;
  Ok (ListEntry l (match sublists with Some s => s | None => [] end) checked).

(** [List.constructor] *)
Definition new_List (entries : list item) (ordered : bool) (ordered_start : number)
  : outcome node :=
  wrapped <- mapM (fun entry =>
                     match entry with
                     | Obj (ListEntry _ _ _) => Ok entry
                     | _ => fmap Obj (new_ListEntry (Array [entry]) None None)
                     end)
                  entries ;;
  l <- Element_constructor (Array wrapped) true ;;
  Ok (List l ordered ordered_start).

(** *** push *)

(** [this.nodes = l] on an element. *)
Definition set_nodes (n : node) (l : list node) : node :=
  match n with
  | Comment _ => Comment l
  | Italic _ => Italic l
  | Bold _ => Bold l
  | Underline _ => Underline l
  | Strikethrough _ => Strikethrough l
  | Highlight _ => Highlight l
  | Spoiler _ => Spoiler l
  | Link _ r rn => Link l r rn
  | Image _ r rn => Image l r rn
  | Heading _ level => Heading l level
  | Paragraph _ => Paragraph l
  | BlockQuote _ => BlockQuote l
  | List _ o s => List l o s
  | ListEntry _ s c => ListEntry l s c
  | InlineHTML _ => InlineHTML l
  | InlineLatex _ raw d => InlineLatex l raw d
  | Table _ a => Table l a
  | TableRow _ table => TableRow l table
  | TableEntry _ => TableEntry l
  | TableOfContents _ => TableOfContents l
  | other => other
  end.

(** [Element.push]: a string becomes a [Text]; the node is appended. *)
Definition Element_push (this : node) (nodes : list node) (n : item) : node :=
  set_nodes this (nodes ++ [to_node n]).

(** [x.push(node)] with the method the class of [x] resolves to:
    [List.push], [BlockCode.push], else [Element.push]. *)
Definition push (this : node) (n : item) : outcome node :=
  match this with
  | Text _ | Emoji _ _ | InlineCode _ | InlineLink _ | HORIZONTAL_RULE =>
      Throw (TypeError "this.push is not a function")
  | BlockCode code language =>
      added <- match n with Str s => Ok s | Obj o => toString o end ;;
      Ok (BlockCode (code ++ added) language)
  | List l _ _ =>
      entry <- match n with
               | Obj (ListEntry _ _ _) => Ok n
               | Obj (List _ _ _ as sub) => fmap Obj (new_ListEntry (OneString "") (Some [sub]) None)
               | _ => fmap Obj (new_ListEntry (Array [n]) None None)
               end ;;
      Ok (Element_push this l entry)
  | Comment l | Italic l | Bold l | Underline l | Strikethrough l | Highlight l
  | Spoiler l | Link l _ _ | Image l _ _ | Heading l _ | Paragraph l | BlockQuote l
  | ListEntry l _ _ | InlineHTML l | InlineLatex l _ _ | Table l _
  | TableRow l _ | TableEntry l | TableOfContents l =>
      Ok (Element_push this l n)
  end.

(** [this.push(a).push(b)...]: [push] returns [this]. *)
Fixpoint push_all (this : node) (pushed : list item) : outcome node :=
  match pushed with
  | [] => Ok this
  | n :: rest => this <- push this n ;; push_all this rest
  end.

(** [List.get_last]: [undefined] on an empty list. *)
Definition get_last (this : node) : option node :=
  match get_nodes this with
  | Some l => last (map Some l) None
  | None => None
  end.

(** *** toJSON *)

(** A JSON document, as [JSON.stringify] writes it: a property whose value is
    [undefined] is left out, and a number that is not finite is written
    [null]. *)
Inductive json :=
| JNull
| JBool (b : bool)
| JNumber (z : Z)
| JString (s : string)
| JArray (l : list json)
| JObject (fields : list (string * json)).

(** A property that is left out when its value is [undefined]. *)
Definition optional_field (key : string) (v : option string) : list (string * json) :=
  match v with Some s => [(key, JString s)] | None => [] end.

(** A number: [null] for [NaN] and the infinities, [0] for negative zero. *)
Definition number_json (n : number) : json :=
  match n with
  | Int z => JNumber z
  | NegativeZero => JNumber 0
  | NaN | Infinity | NegativeInfinity => JNull
  end.

Definition Reference_json (r : Reference) : json :=
  JObject (optional_field "url" (url r) ++ optional_field "tooltip" (tooltip r)).

(** The JSON text of a node.  [JSON.stringify] calls [toJSON] where the
    object has one and otherwise writes the own properties of the object;
    [Comment] is the one class without a [toJSON].  The methods of [Table],
    [TableRow] and [TableEntry] call [toJSON] on their children themselves,
    which throws on a child that has none. *)
Fixpoint stringify (n : node) : outcome json :=
  let call_toJSON (child : node) : outcome json :=
    match child with
    | Comment _ => Throw (TypeError "node.toJSON is not a function")
    | _ => stringify child
    end in
  let tagged (type : string) (key : string) (l : list node) (rest : list (string * json)) :=
    children <- mapM stringify l ;;
    Ok (JObject ([("type", JString type); (key, JArray children)] ++ rest)) in
  match n with
  | Text c => if is_linebreak n then Ok (JObject [("type", JString "linebreak")]) else Ok (JString c)
  | Emoji c tone =>
      Ok (JObject ([("type", JString "emoji"); ("content", JString c)]
                   ++ match tone with Some t => [("skin_tone", number_json t)] | None => [] end))
  | InlineCode c => Ok (JObject [("type", JString "inline_code"); ("content", JString c)])
  | InlineLink c => Ok (JObject [("type", JString "inline_link"); ("content", JString c)])
  | Comment l => children <- mapM stringify l ;; Ok (JObject [("nodes", JArray children)])
  | Italic l => tagged "italic" "nodes" l []
  | Bold l => tagged "bold" "nodes" l []
  | Underline l => tagged "underline" "nodes" l []
  | Strikethrough l => tagged "strikethrough" "nodes" l []
  | Highlight l => tagged "highlight" "nodes" l []
  | Spoiler l => tagged "spoiler" "nodes" l []
  | Link l r rn =>
      children <- mapM stringify l ;;
      Ok (JObject ([("type", JString "link")] ++ optional_field "url" (url r)
                   ++ [("title", JArray children)] ++ optional_field "tooltip" (tooltip r)
                   ++ [("ref_name", JString rn)]))
  | Image l r rn =>
      children <- mapM stringify l ;;
      Ok (JObject ([("type", JString "image")] ++ optional_field "url" (url r)
                   ++ [("alt", JArray children)] ++ optional_field "tooltip" (tooltip r)
                   ++ [("ref_name", JString rn)]))
  | Heading l level =>
      children <- mapM stringify l ;;
      Ok (JObject [("type", JString "heading"); ("level", JString level); ("nodes", JArray children)])
  | Paragraph l => tagged "paragraph" "nodes" l []
  | BlockCode code language =>
      Ok (JObject ([("type", JString "block_code"); ("code", JString code)]
                   ++ optional_field "language" language))
  | BlockQuote l => tagged "quote" "nodes" l []
  | HORIZONTAL_RULE => Ok (JObject [("type", JString "horizontal_rule")])
  | List l ordered ordered_start =>
      tagged "list" "entries" l
             [("ordered", JBool ordered); ("ordered_start", number_json ordered_start)]
  | ListEntry l sublists checked =>
      children <- mapM stringify l ;;
      subs <- mapM stringify sublists ;;
      Ok (JObject [("type", JString "list_entry"); ("nodes", JArray children);
                   ("sublists", JArray subs);
                   ("checked", match checked with Some b => JBool b | None => JNull end)])
  | InlineHTML l => tagged "inline_html" "content" l []
  | InlineLatex _ raw display_mode =>
      Ok (JObject [("type", JString "inline_latex"); ("raw", JString raw);
                   ("display_mode", JBool display_mode)])
  | Table l als =>
      rows <- mapM call_toJSON l ;;
      Ok (JObject [("type", JString "table"); ("rows", JArray rows);
                   ("alignments", JArray (map (fun a => JString (name a)) als))])
  | TableRow l _ =>
      columns <- mapM call_toJSON l ;;
      Ok (JObject [("type", JString "table_row"); ("columns", JArray columns)])
  | TableEntry l =>
      children <- mapM call_toJSON l ;;
      Ok (JObject [("type", JString "table_entry"); ("nodes", JArray children)])
  | TableOfContents _ => Ok (JObject [("type", JString "table_of_contents")])
  end.

(** [node.toJSON()] called as a method. *)
Definition toJSON (n : node) : outcome json :=
  match n with
  | Comment _ => Throw (TypeError "node.toJSON is not a function")
  | _ => stringify n
  end.

(** [MDDocument.toJSON], written out by [JSON.stringify]. *)
Definition MDDocument_toJSON (d : MDDocument) : outcome json :=
  bs <- mapM toJSON (blocks d) ;;
  Ok (JObject [("blocks", JArray bs);
               ("references",
                JArray (map (fun r => JObject [("name", JString (fst r)); ("ref", Reference_json (snd r))])
                            (references d)))]).

(** *** TableOfContents.as_list

    [as_list] builds the list in place: [current] holds references to the
    root list and to entries already linked into it, and [push] on a
    referenced list or on the [sublists] of a referenced entry is seen
    through every reference.  The objects it allocates live in a store and
    are designated by their address; the finished graph is read back as a
    [node] when [as_list] returns. *)

Definition address := nat.

(** The two kinds of objects [as_list] creates: [new List([], true)], whose
    [nodes] are references to entries, and [new ListEntry([paragraph])],
    whose [sublists] are references to lists. *)
Inductive object :=
| ListObject (nodes : list address)
| EntryObject (nodes : list node) (sublists : list address).

Definition store := list object.

Definition alloc (s : store) (o : object) : store * address := ((s ++ [o])%list, length s).

Fixpoint update (s : store) (a : address) (o : object) : store :=
  match s, a with
  | [], _ => []
  | _ :: r, O => o :: r
  | x :: r, S a' => x :: update r a' o
  end.

(** [array[i]] for a number [i]: [undefined] outside the array. *)
Definition index {A} (l : list A) (i : Z) : option A :=
  if (i <? 0)%Z then None else nth_error l (Z.to_nat i).

(** [array[i] = x] for [0 <= i <= array.length]: the element is replaced, or
    appended when [i] is the length. *)
Definition assign {A} (l : list A) (i : Z) (x : A) : list A :=
  (firstn (Z.to_nat i) l ++ [x] ++ skipn (S (Z.to_nat i)) l)%list.

(** [parseInt(c)] for a one-character string: [None] is [NaN]. *)
Definition digit_value (c : ascii) : option Z :=
  let n := nat_of_ascii c in
  if ((48 <=? n) && (n <=? 57))%nat then Some (Z.of_nat (n - 48)) else None.

(** [parseInt(heading.level[1])]: [level[1]] is [undefined] on a string
    shorter than two characters, and [parseInt(undefined)] is [NaN]. *)
Definition parse_level (level : string) : option Z :=
  match level with
  | String _ (String d _) => digit_value d
  | _ => None
  end.

(** [while (!current[level - 1]) level--;]
    [fuel] is the number of indices from [level - 1] down to [0]; below [0]
    every slot is [undefined] and the loop never exits. *)
Fixpoint settle (current : list address) (fuel : nat) (level : Z) : outcome Z :=
  match fuel with
  | O => Diverge
  | S f =>
      match index current (level - 1) with
      | Some _ => Ok level
      | None => settle current f (level - 1)
      end
  end.

(** [push_heading(list, heading)]: the entry is allocated and its reference
    appended to the [nodes] of the list at address [lst]. *)
Definition push_heading (s : store) (lst : address) (heading : node) : outcome store :=
  id <- get_id heading ;;
  link <- new_Link ("#" ++ id)
            (match get_nodes heading with Some l => Array (map Obj l) | None => Undefined end)
            None None ;;
  paragraph <- new_Paragraph (Array [Obj link]) ;;
  entry <- new_ListEntry (Array [Obj paragraph]) None None ;;
  match get_nodes entry, nth_error s lst with
  | Some content, Some (ListObject nodes) =>
      let '(s, e) := alloc s (EntryObject content []) in
      Ok (update s lst (ListObject (nodes ++ [e])))
  | _, _ => Throw (TypeError "list.push is not a function")
  end.

(** [list.get_last()] on the list at address [lst]. *)
Definition last_entry (s : store) (lst : address) : outcome address :=
  match nth_error s lst with
  | Some (ListObject nodes) =>
      match last (map Some nodes) None with
      | Some e => Ok e
      | None => Throw (TypeError "Cannot read properties of undefined")
      end
  | _ => Throw (TypeError "list.get_last is not a function")
  end.

(** [if (parent.sublists.length === 0) parent.sublists.push(new List([], true));]
    on the entry at address [parent], whose fields are [content] and
    [sublists]: the store and the sublists of the entry afterwards. *)
Definition ensure_sublist (s : store) (parent : address) (content : list node)
    (sublists : list address) : store * list address :=
  match sublists with
  | [] =>
      let '(s, l) := alloc s (ListObject []) in
      (update s parent (EntryObject content [l]), [l])
  | _ :: _ => (s, sublists)
  end.

(** The body of [headings.forEach] for one heading; [lst] is the root list. *)
Definition as_list_step (allow_h1 : bool) (lst : address)
    (st : store * list address) (heading : node) : outcome (store * list address) :=
  let '(s, current) := st in
  match heading with
  | Heading _ heading_level =>
      match parse_level heading_level with
      | None => Diverge
      | Some level =>
          let level := if allow_h1 then level else (level - 1)%Z in
          level <- (if negb (level =? 1)%Z then settle current (Z.to_nat level) level
                    else Ok level) ;;
          if (level =? 1)%Z then
            s <- push_heading s lst heading ;;
            e <- last_entry s lst ;;
            Ok (s, [lst; e])
          else
            let current :=
              if (Z.of_nat (length current) >? level + 1)%Z
              then firstn (Z.to_nat level) current else current in
            match index current (level - 1) with
            | None => Throw (TypeError "Cannot read properties of undefined (reading 'sublists')")
            | Some parent =>
                match nth_error s parent with
                | Some (EntryObject content sublists) =>
                    let '(s, sublists) := ensure_sublist s parent content sublists in
                    match last (map Some sublists) None with
                    | None => Throw (TypeError "Cannot read properties of undefined")
                    | Some parent_list =>
                        s <- push_heading s parent_list heading ;;
                        e <- last_entry s parent_list ;;
                        Ok (s, assign current level e)
                    end
                | _ => Throw (TypeError "Cannot read properties of undefined (reading 'length')")
                end
            end
      end
  | _ => Throw (TypeError "Cannot read properties of undefined (reading '1')")
  end.

(** [headings.forEach(...)] *)
Fixpoint as_list_loop (allow_h1 : bool) (lst : address)
    (st : store * list address) (headings : list node) : outcome (store * list address) :=
  match headings with
  | [] => Ok st
  | heading :: rest =>
      st <- as_list_step allow_h1 lst st heading ;;
      as_list_loop allow_h1 lst st rest
  end.

(** [l.map(f)] when every [f x] is defined. *)
Definition all_some {A B} (f : A -> option B) : list A -> option (list B) :=
  fix go (l : list A) : option (list B) :=
    match l with
    | [] => Some []
    | x :: r =>
        match f x, go r with
        | Some y, Some ys => Some (y :: ys)
        | _, _ => None
        end
    end.

(** The object graph below an address, read as a [node]; [fuel] bounds the
    depth.  Lists made by [as_list] are ordered and start at 1; its entries
    have no checkbox. *)
Fixpoint reify (fuel : nat) (s : store) (a : address) : option node :=
  match fuel with
  | O => None
  | S f =>
      match nth_error s a with
      | Some (ListObject nodes) =>
          option_map (fun es => List es true (Int 1)) (all_some (reify f s) nodes)
      | Some (EntryObject content sublists) =>
          option_map (fun subs => ListEntry content subs None) (all_some (reify f s) sublists)
      | None => None
      end
  end.

Definition is_h1 (block : node) : bool :=
  match block with Heading _ level => String.eqb level "h1" | _ => false end.

(** The headings [as_list] walks over and whether H1 headings take part. *)
Definition toc_allow_h1 (doc : MDDocument) : bool :=
  (1 <? length (filter is_h1 (filter instanceof_Heading (blocks doc))))%nat.

Definition toc_headings (doc : MDDocument) : list node :=
  let headings := filter instanceof_Heading (blocks doc) in
  if toc_allow_h1 doc then headings else filter (fun block => negb (is_h1 block)) headings.

(** [TableOfContents.as_list(doc)] *)
Definition as_list (doc : MDDocument) : outcome node :=
  let '(s, lst) := alloc [] (ListObject []) in
  st <- as_list_loop (toc_allow_h1 doc) lst (s, [lst]) (toc_headings doc) ;;
  match reify (S (length (fst st))) (fst st) lst with
  | Some n => Ok n
  | None => Diverge
  end.

(** [node.raw] and [node.display_mode] *)
Definition get_raw (n : node) : option string :=
  match n with InlineLatex _ raw _ => Some raw | _ => None end.

Definition get_display_mode (n : node) : option bool :=
  match n with InlineLatex _ _ d => Some d | _ => None end.

(** *** as_html *)

(** [node.as_html]: defined by [InlineCode], [InlineLink], [Comment] and
    [HORIZONTAL_RULE]; [None] where the property is [undefined]. *)
Definition as_html (n : node) : option (outcome html.node) :=
  match n with
  | InlineCode c =>
      Some (Ok (html.append_child (html.create_element "code")
                                  (html.Obj (html.Text c html.CODE))))
  | InlineLink c =>
      Some (Ok (html.append_child
                  (html.attr (html.create_element "a") "href" (html.StringValue c))
                  (html.Str c)))
  | Comment _ => Some (fmap html.Comment (toString n))
  | HORIZONTAL_RULE => Some (Ok (html.create_element "hr"))
  | _ => None
  end.

End md.

(** ** src/md/renderer.mjs *)

Module renderer.

(** What a callback hands back for one node and what [flatMap] collects:
    strings and HTML nodes; [null] and [undefined] are the empty list. *)
Definition rendered := list html.item.

(** [options.parent]: absent ([null], [undefined]), an [html.Element], some
    other object such as a DOM element, or a primitive value. *)
Inductive parent_value :=
| NoParent
| HtmlParent (element : html.node)
| ObjectParent (innerHTML : string)
| PrimitiveParent (truthy : bool).

(** The options after [merge_default_options], without the scratch flags
    [should_escape] and [paragraph_as_text], which the functions below take
    as arguments.  A callback is a function that returns or throws; the
    highlighter returns the children it left in the element it was given and
    [table.process] the table element as it left it. *)
Record options := {
  block_code_class_name : string;
  block_code_highlighter : option (string -> string -> outcome (list html.node));
  checkbox_enable : bool;
  checkbox_disabled_property : bool;
  code_process : md.node -> outcome rendered;
  emoji : option (md.node -> outcome rendered);
  highlight_enable : bool;
  inline_html_enable : bool;
  inline_html_disallowed_tags : list string;
  image_class_name : string;
  latex_render : option (md.node -> outcome (string + html.node));
  latex_error_classes : list string;
  strikethrough_class_name : string;
  table_process : html.node -> outcome html.node;
  underline_enable : bool;
  underline_class_name : string;
  spoiler_enable : bool;
  spoiler_class_name : string;
  spoiler_image_class_name : string;
  spoiler_hidden_class_name : string;
  parent : parent_value
}.

(** The options a caller passes: every leaf is given or left out.
    [inline_html] may also be a bare boolean and [latex.katex] an object
    whose [renderToString(raw, {displayMode})] is called. *)
Record user_options := {
  u_block_code_class_name : option string;
  u_block_code_highlighter : option (string -> string -> outcome (list html.node));
  u_checkbox_enable : option bool;
  u_checkbox_disabled_property : option bool;
  u_code_process : option (md.node -> outcome rendered);
  u_emoji : option (md.node -> outcome rendered);
  u_highlight_enable : option bool;
  u_inline_html : option bool;
  u_inline_html_enable : option bool;
  u_inline_html_disallowed_tags : option (list string);
  u_image_class_name : option string;
  u_latex_render : option (md.node -> outcome (string + html.node));
  u_latex_katex : option (option string -> option bool -> outcome string);
  u_latex_error_classes : option (list string);
  u_strikethrough_class_name : option string;
  u_table_process : option (html.node -> outcome html.node);
  u_underline_enable : option bool;
  u_underline_class_name : option string;
  u_spoiler_enable : option bool;
  u_spoiler_class_name : option string;
  u_spoiler_image_class_name : option string;
  u_spoiler_hidden_class_name : option string;
  u_parent : parent_value
}.

(** [render_to_html(markdown)] with [options = {}] *)
Definition no_options : user_options := {|
  u_block_code_class_name := None; u_block_code_highlighter := None;
  u_checkbox_enable := None; u_checkbox_disabled_property := None;
  u_code_process := None; u_emoji := None; u_highlight_enable := None;
  u_inline_html := None; u_inline_html_enable := None;
  u_inline_html_disallowed_tags := None; u_image_class_name := None;
  u_latex_render := None; u_latex_katex := None; u_latex_error_classes := None;
  u_strikethrough_class_name := None; u_table_process := None;
  u_underline_enable := None; u_underline_class_name := None;
  u_spoiler_enable := None; u_spoiler_class_name := None;
  u_spoiler_image_class_name := None; u_spoiler_hidden_class_name := None;
  u_parent := NoParent |}.

(** [{...options, emoji}], [{...options, parent}] and
    [{...options, latex: {render}}] *)
Definition with_emoji (u : user_options) (callback : md.node -> outcome rendered) : user_options := {|
  u_block_code_class_name := u_block_code_class_name u;
  u_block_code_highlighter := u_block_code_highlighter u;
  u_checkbox_enable := u_checkbox_enable u;
  u_checkbox_disabled_property := u_checkbox_disabled_property u;
  u_code_process := u_code_process u; u_emoji := Some callback;
  u_highlight_enable := u_highlight_enable u;
  u_inline_html := u_inline_html u; u_inline_html_enable := u_inline_html_enable u;
  u_inline_html_disallowed_tags := u_inline_html_disallowed_tags u;
  u_image_class_name := u_image_class_name u;
  u_latex_render := u_latex_render u; u_latex_katex := u_latex_katex u;
  u_latex_error_classes := u_latex_error_classes u;
  u_strikethrough_class_name := u_strikethrough_class_name u;
  u_table_process := u_table_process u;
  u_underline_enable := u_underline_enable u; u_underline_class_name := u_underline_class_name u;
  u_spoiler_enable := u_spoiler_enable u; u_spoiler_class_name := u_spoiler_class_name u;
  u_spoiler_image_class_name := u_spoiler_image_class_name u;
  u_spoiler_hidden_class_name := u_spoiler_hidden_class_name u;
  u_parent := u_parent u |}.

Definition with_parent (u : user_options) (p : parent_value) : user_options := {|
  u_block_code_class_name := u_block_code_class_name u;
  u_block_code_highlighter := u_block_code_highlighter u;
  u_checkbox_enable := u_checkbox_enable u;
  u_checkbox_disabled_property := u_checkbox_disabled_property u;
  u_code_process := u_code_process u; u_emoji := u_emoji u;
  u_highlight_enable := u_highlight_enable u;
  u_inline_html := u_inline_html u; u_inline_html_enable := u_inline_html_enable u;
  u_inline_html_disallowed_tags := u_inline_html_disallowed_tags u;
  u_image_class_name := u_image_class_name u;
  u_latex_render := u_latex_render u; u_latex_katex := u_latex_katex u;
  u_latex_error_classes := u_latex_error_classes u;
  u_strikethrough_class_name := u_strikethrough_class_name u;
  u_table_process := u_table_process u;
  u_underline_enable := u_underline_enable u; u_underline_class_name := u_underline_class_name u;
  u_spoiler_enable := u_spoiler_enable u; u_spoiler_class_name := u_spoiler_class_name u;
  u_spoiler_image_class_name := u_spoiler_image_class_name u;
  u_spoiler_hidden_class_name := u_spoiler_hidden_class_name u;
  u_parent := p |}.

Definition with_latex_render (u : user_options)
    (render : md.node -> outcome (string + html.node)) : user_options := {|
  u_block_code_class_name := u_block_code_class_name u;
  u_block_code_highlighter := u_block_code_highlighter u;
  u_checkbox_enable := u_checkbox_enable u;
  u_checkbox_disabled_property := u_checkbox_disabled_property u;
  u_code_process := u_code_process u; u_emoji := u_emoji u;
  u_highlight_enable := u_highlight_enable u;
  u_inline_html := u_inline_html u; u_inline_html_enable := u_inline_html_enable u;
  u_inline_html_disallowed_tags := u_inline_html_disallowed_tags u;
  u_image_class_name := u_image_class_name u;
  u_latex_render := Some render; u_latex_katex := u_latex_katex u;
  u_latex_error_classes := u_latex_error_classes u;
  u_strikethrough_class_name := u_strikethrough_class_name u;
  u_table_process := u_table_process u;
  u_underline_enable := u_underline_enable u; u_underline_class_name := u_underline_class_name u;
  u_spoiler_enable := u_spoiler_enable u; u_spoiler_class_name := u_spoiler_class_name u;
  u_spoiler_image_class_name := u_spoiler_image_class_name u;
  u_spoiler_hidden_class_name := u_spoiler_hidden_class_name u;
  u_parent := u_parent u |}.

Definition default {A} (d : A) (o : option A) : A :=
  match o with Some a => a | None => d end.

Definition DEFAULT_disallowed_tags : list string :=
  ["iframe"; "noembed"; "noframes"; "plaintext"; "script"; "style"; "svg"; "textarea"; "title"; "xmp"].

(** The value of [ATTRIBUTES_RULES[key]]: one of the three arrays of the
    object literal, a member inherited from [Object.prototype], which is
    truthy and no array, or [undefined]. *)
Inductive rule :=
| Allowed (names : list string)
| Inherited
| NoRule.

(** The property names every object inherits from [Object.prototype]. *)
Definition Object_prototype : list string :=
  ["constructor"; "hasOwnProperty"; "isPrototypeOf"; "propertyIsEnumerable";
   "toLocaleString"; "toString"; "valueOf"; "__proto__";
   "__defineGetter__"; "__defineSetter__"; "__lookupGetter__"; "__lookupSetter__"].

Definition includes_string (l : list string) (s : string) : bool := existsb (String.eqb s) l.

(** [ATTRIBUTES_RULES] *)
Definition ATTRIBUTES_RULES (key : string) : rule :=
  if String.eqb key "*"
  then Allowed ["align"; "aria-hidden"; "class"; "id"; "lang"; "style"; "title"]
  else if String.eqb key "img" then Allowed ["width"; "height"; "src"; "alt"]
  else if String.eqb key "a" then Allowed ["href"]
  else if includes_string Object_prototype key then Inherited
  else NoRule.

(** [rule.includes(name)], which only an array has. *)
Definition rule_includes (r : rule) (name : string) : outcome bool :=
  match r with
  | Allowed names => Ok (includes_string names name)
  | Inherited => Throw (TypeError "ATTRIBUTES_RULES[node.tag.name].includes is not a function")
  | NoRule => Throw (TypeError "Cannot read properties of undefined (reading 'includes')")
  end.

(** [sanitize_raw(node)]: the predicate of the [filter] looks an attribute
    up in the rules of every tag and, when it is not there and the tag has
    an entry in [ATTRIBUTES_RULES], in that entry. *)
Definition sanitize_raw (node : html.node) : outcome html.node :=
  match node with
  | html.Element tag attrs children props =>
      kept <- filterM (fun attribute =>
                         everywhere <- rule_includes (ATTRIBUTES_RULES "*") (fst attribute) ;;
                         if everywhere then Ok true
                         else match ATTRIBUTES_RULES tag with
                              | NoRule => Ok false
                              | found => rule_includes found (fst attribute)
                              end) attrs ;;
      Ok (html.Element tag kept children props)
  | other => Ok other
  end.

(** Modelled from the spec: [merge_objects(DEFAULT_OPTIONS, options)] of
    [utils.mjs], a deep merge in which every leaf is the caller's value when
    given and the default otherwise; followed by the two adjustments
    [render_to_html] makes to [inline_html] and [latex.render]. *)
Definition merge_default_options (u : user_options) : options := {|
  block_code_class_name := default "block_code" (u_block_code_class_name u);
  block_code_highlighter := u_block_code_highlighter u;
  checkbox_enable := default true (u_checkbox_enable u);
  checkbox_disabled_property := default true (u_checkbox_disabled_property u);
  code_process :=
    default (fun el => match md.as_html el with
                       | Some r => fmap (fun e => [html.Obj e]) r
                       | None => Throw (TypeError "el.as_html is not a function")
                       end) (u_code_process u);
  emoji := u_emoji u;
  highlight_enable := default true (u_highlight_enable u);
  inline_html_enable :=
    match u_inline_html u with
    | Some enable => enable
    | None => default true (u_inline_html_enable u)
    end;
  inline_html_disallowed_tags :=
    match u_inline_html u with
    | Some _ => DEFAULT_disallowed_tags
    | None => default DEFAULT_disallowed_tags (u_inline_html_disallowed_tags u)
    end;
  image_class_name := default "" (u_image_class_name u);
  latex_render :=
    match u_latex_render u with
    | Some render => Some render
    | None =>
        match u_latex_katex u with
        | Some renderToString =>
            Some (fun node => fmap inl (renderToString (md.get_raw node) (md.get_display_mode node)))
        | None => None
        end
    end;
  latex_error_classes := default ["error"] (u_latex_error_classes u);
  strikethrough_class_name := default "strikethrough" (u_strikethrough_class_name u);
  table_process := default (fun table => Ok table) (u_table_process u);
  underline_enable := default true (u_underline_enable u);
  underline_class_name := default "underline" (u_underline_class_name u);
  spoiler_enable := default false (u_spoiler_enable u);
  spoiler_class_name := default "spoiler" (u_spoiler_class_name u);
  spoiler_image_class_name := default "spoiler_img" (u_spoiler_image_class_name u);
  spoiler_hidden_class_name := default "spoiler_hidden" (u_spoiler_hidden_class_name u);
  parent := u_parent u
|}.

(** The functions of [html.mjs] the renderer calls on finished trees and on
    markup: [parse_nodes(text)], [sanitize_elements(nodes, disallowed_tags,
    callback)], [parse(value, template)] as the children it leaves in the
    template, [node.html()], [element.purge_empty_children()] as the element
    it leaves, and [element.inner_html()]; and whether an [html.Text]
    carries the DOM properties [nodeName], equal to ["#text"], and
    [textContent], equal to its content, which [render_inline] reads on what
    [render_latex] returns. *)
Record library := {
  parse_nodes : string -> list html.node;
  sanitize_elements :
    list html.node -> list string -> (html.node -> outcome html.node)
    -> outcome (list html.node);
  parse_into_template : string + html.node -> list html.node;
  node_html : html.node -> string;
  text_has_nodeName : bool;
  purge_empty_children : html.node -> html.node;
  inner_html : html.node -> string
}.

(** A stand-in for [html.mjs] on text without markup, used in examples: a
    text is one text node, nothing is purged, serialization keeps the text
    of text nodes. *)
Definition text_only : library := {|
  parse_nodes := fun text => [html.Text text html.NORMAL];
  sanitize_elements := fun nodes _ callback => mapM callback nodes;
  parse_into_template :=
    fun value => match value with inl text => [html.Text text html.NORMAL] | inr n => [n] end;
  node_html := fun n => match n with html.Text c _ => c | _ => "" end;
  text_has_nodeName := false;
  purge_empty_children := fun element => element;
  inner_html := fun _ => ""
|}.

Section Rendering.

Variable lib : library.

Section Document.

Variable markdown : md.MDDocument.
Variable o : options.

(** [markdown.references.find(ref => ref.name === name)] *)
Definition find_reference (name : string) : option (string * md.Reference) :=
  find (fun ref => String.eqb (fst ref) name) (md.references markdown).

(** The reference a link or an image resolves to. *)
Definition resolve (ref : md.Reference) (ref_name : string) : option md.Reference :=
  if negb (String.eqb ref_name "") then option_map snd (find_reference ref_name)
  else Some ref.

(** [if (ref) { element.<target>(ref.url); if (ref.has_tooltip()) element.title(ref.tooltip); }] *)
Definition with_reference (element : html.node) (target : string) (ref : option md.Reference)
  : html.node :=
  match ref with
  | Some r =>
      let element := html.attr element target (html.optional_string (md.url r)) in
      if md.has_tooltip r then html.attr element "title" (html.optional_string (md.tooltip r))
      else element
  | None => element
  end.

(** [render_latex(node, options)] *)
Definition render_latex (should_escape : bool) (node : md.node) : outcome html.item :=
  match latex_render o with
  | None => text <- md.toString node ;; Ok (html.Obj (html.Text text html.NORMAL))
  | Some render =>
      match render node with
      | Throw error =>
          Ok (html.Obj
                (html.append_child
                   (html.attr
                      (html.create_element
                         (if default false (md.get_display_mode node) then "div" else "span"))
                      "class" (html.TokenList (latex_error_classes o)))
                   (html.Str (message error))))
      | Diverge => Diverge
      | Ok latex =>
          match latex with
          | inl text =>
              if negb should_escape then Ok (html.Str text)
              else
                match parse_into_template lib latex with
                | [child] => Ok (html.Obj child)
                | children => Ok (html.Obj (html.set_children (html.create_element "div") children))
                end
          | inr element =>
              if html.instanceof_Element element then Ok (html.Obj element)
              else
                match parse_into_template lib latex with
                | [child] => Ok (html.Obj child)
                | children => Ok (html.Obj (html.set_children (html.create_element "div") children))
                end
          end
      end
  end.

(** The opening marker of a spoiler that is not enabled: prepended to the
    content of a leading text node, else added as a child of its own. *)
Definition open_spoiler (content : rendered) : rendered :=
  match content with
  | html.Obj (html.Text c mode) :: rest => html.Obj (html.Text ("||" ++ c) mode) :: rest
  | html.Obj (html.Comment c) :: rest => html.Obj (html.Comment ("||" ++ c)) :: rest
  | _ => html.Str "||" :: content
  end.

(** The callback of [nodes.flatMap] in [render_inline], for one node.
    [render_simple] is the helper of that name with [should_escape] set for
    the children. *)
Fixpoint render_inline_node (allow_linebreak should_escape : bool) (node : md.node)
  : outcome rendered :=
  let render_inline (allow : bool) (escape : bool) (nodes : list md.node) : outcome rendered :=
    fmap (@concat html.item) (mapM (render_inline_node allow escape) nodes) in
  let render_simple (nodes : list md.node) (el_name : string) (allow : bool) : outcome html.node :=
    fmap (html.append_children (html.create_element el_name)) (render_inline allow true nodes) in
  match node with
  | md.Emoji _ _ =>
      match emoji o with
      | None => text <- md.toString node ;; Ok [html.Str text]
      | Some callback => callback node
      end
  | md.Text content =>
      if md.is_linebreak node then
        if negb allow_linebreak then Ok [] else Ok [html.Obj (html.create_element "br")]
      else if negb should_escape then Ok [html.Str content]
      else if inline_html_enable o then
        elements <- sanitize_elements lib (parse_nodes lib content)
                                      (inline_html_disallowed_tags o) sanitize_raw ;;
        Ok (map html.Obj elements)
      else Ok [html.Obj (html.Text content html.NORMAL)]
  | md.InlineCode _ => code_process o node
  | md.Image nodes ref ref_name =>
      alt <- fmap (join "") (mapM md.toString nodes) ;;
      let element := html.attr (html.create_element "img") "alt" (html.StringValue alt) in
      let element := with_reference element "src" (resolve ref ref_name) in
      Ok [html.Obj (html.attr element "class" (html.StringValue (image_class_name o)))]
  | md.Link nodes ref ref_name =>
      let element := with_reference (html.create_element "a") "href" (resolve ref ref_name) in
      children <- render_inline false should_escape nodes ;;
      Ok [html.Obj (html.append_children element children)]
  | md.Bold nodes =>
      element <- render_simple nodes "b" allow_linebreak ;; Ok [html.Obj element]
  | md.Italic nodes =>
      element <- render_simple nodes "em" allow_linebreak ;; Ok [html.Obj element]
  | md.Strikethrough nodes =>
      element <- render_simple nodes "span" allow_linebreak ;;
      Ok [html.Obj (html.set_property element "className" (strikethrough_class_name o))]
  | md.Underline nodes =>
      if negb (underline_enable o) then
        element <- render_simple nodes "b" allow_linebreak ;; Ok [html.Obj element]
      else
        element <- render_simple nodes "span" allow_linebreak ;;
        Ok [html.Obj (html.attr element "class" (html.StringValue (underline_class_name o)))]
  | md.Highlight nodes =>
      if negb (highlight_enable o) then
        text <- md.toString node ;; Ok [html.Obj (html.Text text html.NORMAL)]
      else
        element <- render_simple nodes "mark" allow_linebreak ;; Ok [html.Obj element]
  | md.Spoiler nodes =>
      content <- render_inline false should_escape nodes ;;
      if negb (spoiler_enable o) then
        let container := html.create_element "span" in
        let container := html.append_children container (open_spoiler content) in
        Ok [html.Obj (html.append_child container (html.Str "||"))]
      else
        match nodes, content with
        | [md.Image _ _ _], image :: _ =>
            let image := html.add_class (html.to_node image) (spoiler_image_class_name o) in
            Ok [html.Obj
                  (html.append_child
                     (html.attr (html.create_element "div") "class"
                                (html.StringValue (spoiler_class_name o)))
                     (html.Obj
                        (html.append_child
                           (html.attr (html.create_element "div") "class"
                                      (html.StringValue (spoiler_image_class_name o ++ " "
                                                         ++ spoiler_hidden_class_name o)))
                           (html.Obj image))))]
        | [md.Image _ _ _], [] =>
            Throw (TypeError "Cannot read properties of undefined (reading 'attr')")
        | _, _ =>
            let content_element := html.append_children (html.create_element "span") content in
            Ok [html.Obj
                  (html.append_child
                     (html.attr (html.create_element "span") "class"
                                (html.StringValue (spoiler_class_name o ++ " "
                                                   ++ spoiler_hidden_class_name o)))
                     (html.Obj content_element))]
        end
  | md.InlineLatex _ _ _ =>
      element <- render_latex should_escape node ;;
      if negb should_escape then
        match element with
        | html.Obj (html.Text text _) =>
            if text_has_nodeName lib then Ok [html.Str text] else Ok [element]
        | _ => Ok [element]
        end
      else Ok [element]
  | _ =>
      match md.as_html node with
      | Some result => element <- result ;; Ok [html.Obj element]
      | None => Ok []
      end
  end.

(** [render_inline(markdown, nodes, options, allow_linebreak)] *)
Definition render_inline (nodes : list md.node) (should_escape allow_linebreak : bool)
  : outcome rendered :=
  fmap (@concat html.item) (mapM (render_inline_node allow_linebreak should_escape) nodes).

(** [TableAlignment.style_table_data(element)] *)
Definition style_table_data (a : md.TableAlignment) (element : html.node) : html.node :=
  match a with
  | md.NONE => element
  | md.LEFT => html.style element "text-align" "left"
  | md.CENTER => html.style element "text-align" "center"
  | md.RIGHT => html.style element "text-align" "right"
  end.

(** [Table.get_alignment(column)] *)
Definition get_alignment (alignments : list md.TableAlignment) (column : nat) : md.TableAlignment :=
  nth column alignments md.NONE.

(** [row.table] and the alignments [row.table.get_alignment] reads, for a
    row among the nodes of a table whose alignments are [holder]: only a
    [TableRow] has the property, and it throws when that is [undefined]. *)
Definition row_table (holder : list md.TableAlignment) (row : md.node)
  : outcome (list md.TableAlignment) :=
  match row with
  | md.TableRow _ md.Holder => Ok holder
  | md.TableRow _ (md.OtherTable alignments) => Ok alignments
  | _ => Throw (TypeError "Cannot read properties of undefined (reading 'get_alignment')")
  end.

(** The cells of [render_table_row], from column [index] on; [table] is
    [row.table], read for every cell. *)
Fixpoint render_table_cells (table : outcome (list md.TableAlignment)) (data_type : string)
    (index : nat) (entries : list md.node) : outcome (list html.item) :=
  match entries with
  | [] => Ok []
  | entry :: rest =>
      alignments <- table ;;
      let td := style_table_data (get_alignment alignments index) (html.create_element data_type) in
      match md.get_nodes entry with
      | None => Throw (TypeError "Cannot read properties of undefined (reading 'flatMap')")
      | Some nodes =>
          content <- render_inline nodes true false ;;
          cells <- render_table_cells table data_type (S index) rest ;;
          Ok (html.Obj (html.append_children td content) :: cells)
      end
  end.

(** [render_table_row(markdown, row, head, options)] for a row among the
    nodes of a table whose alignments are [holder]. *)
Definition render_table_row (holder : list md.TableAlignment) (row : md.node) (head : bool)
  : outcome html.node :=
  match md.get_nodes row with
  | None => Throw (TypeError "Cannot read properties of undefined (reading 'forEach')")
  | Some entries =>
      cells <- render_table_cells (row_table holder row) (if head then "th" else "td") 0
                                  entries ;;
      Ok (html.append_children (html.create_element "tr") cells)
  end.

(** [array.forEach] for a callback that throws and that reads and writes
    [options.paragraph_as_text], the state threaded through. *)
Definition forEachS {A B} (f : A -> bool -> outcome (B * bool))
  : list A -> bool -> outcome (list B * bool) :=
  fix go (l : list A) (st : bool) : outcome (list B * bool) :=
    match l with
    | [] => Ok ([], st)
    | x :: r =>
        y <- f x st ;;
        ys <- go r (snd y) ;;
        Ok (fst y :: fst ys, snd ys)
    end.

(** The checkbox of a list entry. *)
Definition checkbox (checked : bool) : html.node :=
  let box :=
    html.attr (html.attr (html.create_element "input") "type" (html.StringValue "checkbox"))
              "style" (html.StyleMap [("list-style-type", "none"); ("margin", "0 0.2em 0 -1.3em")]) in
  let box := if checked then html.attr box "checked" html.NoValue else box in
  if checkbox_disabled_property o then html.attr box "disabled" html.NoValue else box.

Definition is_ordered (lst : md.node) : bool :=
  match lst with md.List _ ordered _ => ordered | _ => false end.

Definition get_ordered_start (lst : md.node) : option number :=
  match lst with md.List _ _ start => Some start | _ => None end.

(** [html.create_element(list.ordered ? "ol" : "ul")] and its [start]. *)
Definition list_element (lst : md.node) : html.node :=
  let html_list := html.create_element (if is_ordered lst then "ol" else "ul") in
  match get_ordered_start lst with
  | Some start =>
      if is_ordered lst && negb (is_one start)
      then html.attr html_list "start" (html.NumberValue start)
      else html_list
  | None => html_list
  end.

(** The [li] of an entry before its blocks are rendered. *)
Definition entry_element (entry : md.node) : html.node :=
  let li := html.create_element "li" in
  match entry with
  | md.ListEntry _ _ (Some checked) =>
      if checkbox_enable o
      then html.append_child (html.style li "list-style-type" "none")
                             (html.Obj (checkbox checked))
      else li
  | _ => li
  end.

(** [child.is_block()] *)
Definition is_block (child : md.node) : bool :=
  match child with
  | md.InlineLatex _ _ display_mode => display_mode
  | md.Heading _ _ | md.Paragraph _ | md.BlockCode _ _ | md.BlockQuote _
  | md.HORIZONTAL_RULE | md.List _ _ _ | md.InlineHTML _ | md.Table _ _
  | md.TableRow _ _ | md.TableEntry _ | md.TableOfContents _ => true
  | _ => false
  end.

Section Blocks.

(** [render_list(markdown, block.as_list(markdown), options)], the rendering
    of the table of contents of [markdown], which is the same wherever the
    directive stands. *)
Variable render_toc : bool -> outcome (html.node * bool).

(** The callback of [blocks.forEach] in [render_blocks], for one block: the
    children it appends to [parent] and [options.paragraph_as_text] as it
    leaves it; together with [render_list(markdown, list, options, level)].
    [level] is capped at 3 and has no other use. *)
Fixpoint render_block (block : md.node) (paragraph_as_text : bool) {struct block}
  : outcome (list html.item * bool) :=
  match block with
  | md.Heading nodes level =>
      let heading := html.create_element level in
      id <- md.get_id block ;;
      let heading := html.attr heading "id" (html.StringValue id) in
      content <- render_inline nodes true false ;;
      Ok ([html.Obj (html.append_children heading content)], paragraph_as_text)
  | md.Paragraph nodes =>
      content <- render_inline nodes true true ;;
      if paragraph_as_text then Ok (content, paragraph_as_text)
      else Ok ([html.Obj (html.append_children (html.create_element "p") content)],
               paragraph_as_text)
  | md.BlockCode block_code language =>
      let code := html.create_element "code" in
      let plain := html.append_child code (html.Obj (html.Text block_code html.CODE)) in
      let has_language :=
        match language with Some l => negb (String.eqb l "") | None => false end in
      let language_class :=
        if has_language then html.StringValue ("language-" ++ default "" language)
        else html.NoValue in
      code <- (if has_language then
                 match block_code_highlighter o with
                 | Some highlighter =>
                     children <- highlighter block_code (default "" language) ;;
                     Ok (html.set_children code children)
                 | None => Ok plain
                 end
               else Ok plain) ;;
      let pre :=
        html.append_child (html.attr (html.create_element "pre") "class" language_class)
                          (html.Obj (html.attr code "class" language_class)) in
      if negb (String.eqb (block_code_class_name o) "") then
        Ok ([html.Obj
               (html.append_child
                  (html.attr (html.create_element "div") "class"
                             (html.StringValue (block_code_class_name o)))
                  (html.Obj pre))],
            paragraph_as_text)
      else Ok ([html.Obj pre], paragraph_as_text)
  | md.BlockQuote nodes =>
      children <-
        forEachS (fun child st =>
                    if is_block child then render_block child st
                    else r <- render_inline [child] true true ;; Ok (r, st))
                 nodes paragraph_as_text ;;
      Ok ([html.Obj (html.append_children (html.create_element "blockquote")
                                          (concat (fst children)))],
          snd children)
  | md.InlineHTML nodes =>
      if inline_html_enable o then
        content <- render_inline nodes false true ;;
        let markup :=
          join "" (map (fun node => match node with
                                    | html.Str text => text
                                    | html.Obj n => node_html lib n
                                    end) content) in
        elements <- mapM sanitize_raw (parse_nodes lib markup) ;;
        Ok (map html.Obj elements, paragraph_as_text)
      else
        text <- md.toString block ;;
        content <- render_inline [md.Text text] true true ;;
        Ok ([html.Obj (html.append_children (html.create_element "p") content)],
            paragraph_as_text)
  | md.InlineLatex _ _ _ =>
      element <- render_latex true block ;;
      match element with
      | html.Obj (html.Text _ _) =>
          if negb paragraph_as_text
          then Ok ([html.Obj (html.append_child (html.create_element "p") element)],
                   paragraph_as_text)
          else Ok ([element], paragraph_as_text)
      | _ => Ok ([element], paragraph_as_text)
      end
  | md.List entries _ _ =>
      lis <- forEachS (render_entry 0) entries paragraph_as_text ;;
      Ok ([html.Obj (html.append_children (list_element block) (fst lis))], snd lis)
  | md.Table rows alignments =>
      let table := html.attr (html.create_element "table") "role" (html.StringValue "table") in
      match rows with
      | [] => Throw (TypeError "Cannot read properties of undefined (reading 'nodes')")
      | head :: body =>
          tr <- render_table_row alignments head true ;;
          let thead := html.append_child (html.create_element "thead") (html.Obj tr) in
          trs <- mapM (fun row => render_table_row alignments row false) body ;;
          let tbody := html.append_children (html.create_element "tbody") (map html.Obj trs) in
          table <- table_process o
                     (html.append_child (html.append_child table (html.Obj thead))
                                        (html.Obj tbody)) ;;
          Ok ([html.Obj table], paragraph_as_text)
      end
  | md.TableOfContents _ =>
      html_list <- render_toc paragraph_as_text ;;
      Ok ([html.Obj (fst html_list)], snd html_list)
  | _ =>
      match md.as_html block with
      | Some result => element <- result ;; Ok ([html.Obj element], paragraph_as_text)
      | None => Ok ([], paragraph_as_text)
      end
  end

(** The callback of [list.nodes.forEach] in [render_list], for one entry of
    a list rendered at [level]. *)
with render_entry (level : nat) (entry : md.node) (paragraph_as_text : bool) {struct entry}
  : outcome (html.item * bool) :=
  let li := entry_element entry in
  match entry with
  | md.ListEntry blocks sublists _ =>
      children <- forEachS render_block blocks true ;;
      subs <- forEachS (fun sublist st => render_list sublist (S level) st) sublists false ;;
      Ok (html.Obj (html.append_children
                      (html.append_children li (concat (fst children)))
                      (map html.Obj (fst subs))),
          snd subs)
  | md.Text _ | md.Emoji _ _ | md.InlineCode _ | md.InlineLink _ | md.HORIZONTAL_RULE =>
      Throw (TypeError "Cannot read properties of undefined (reading 'forEach')")
  | md.BlockCode _ _ =>
      Throw (TypeError "Cannot read properties of undefined (reading 'map')")
  | md.Comment blocks | md.Italic blocks | md.Bold blocks | md.Underline blocks
  | md.Strikethrough blocks | md.Highlight blocks | md.Spoiler blocks | md.Link blocks _ _
  | md.Image blocks _ _ | md.Heading blocks _ | md.Paragraph blocks | md.BlockQuote blocks
  | md.List blocks _ _ | md.InlineHTML blocks | md.InlineLatex blocks _ _
  | md.Table blocks _ | md.TableRow blocks _ | md.TableEntry blocks
  | md.TableOfContents blocks =>
      _ <- forEachS render_block blocks true ;;
      Throw (TypeError "Cannot read properties of undefined (reading 'map')")
  end

(** [render_list(markdown, list, options, level)] *)
with render_list (lst : md.node) (level : nat) (paragraph_as_text : bool) {struct lst}
  : outcome (html.node * bool) :=
  let level := if (3 <? level)%nat then 3%nat else level in
  let html_list := list_element lst in
  match lst with
  | md.Text _ | md.Emoji _ _ | md.InlineCode _ | md.InlineLink _ | md.HORIZONTAL_RULE =>
      Throw (TypeError "Cannot read properties of undefined (reading 'forEach')")
  | md.BlockCode _ _ => Ok (html_list, paragraph_as_text)
  | md.Comment entries | md.Italic entries | md.Bold entries | md.Underline entries
  | md.Strikethrough entries | md.Highlight entries | md.Spoiler entries | md.Link entries _ _
  | md.Image entries _ _ | md.Heading entries _ | md.Paragraph entries | md.BlockQuote entries
  | md.List entries _ _ | md.ListEntry entries _ _ | md.InlineHTML entries
  | md.InlineLatex entries _ _ | md.Table entries _ | md.TableRow entries _
  | md.TableEntry entries | md.TableOfContents entries =>
      lis <- forEachS (render_entry level) entries paragraph_as_text ;;
      Ok (html.append_children html_list (fst lis), snd lis)
  end.

End Blocks.

(** The list [as_list] returns holds lists, entries, paragraphs and links
    only, so rendering it never comes back to a table of contents; the
    renderer handed down for that case stands for the endless regress. *)
Definition render_toc (paragraph_as_text : bool) : outcome (html.node * bool) :=
  toc <- md.as_list markdown ;;
  render_list (fun _ => Diverge) toc 0 paragraph_as_text.

(** [render_blocks(markdown, blocks, parent, options)]: the children appended
    to [parent]. *)
Definition render_blocks (blocks : list md.node) (paragraph_as_text : bool)
  : outcome (list html.item * bool) :=
  children <- forEachS (render_block render_toc) blocks paragraph_as_text ;;
  Ok (concat (fst children), snd children).

End Document.

(** [render_to_html(markdown, options)] *)
Definition render_to_html (markdown : md.MDDocument) (u : user_options) : outcome html.node :=
  let options := merge_default_options u in
  let parent :=
    match parent options with
    | HtmlParent (html.Element _ _ _ _ as element) => element
    | _ => html.create_element "div"
    end in
  children <- render_blocks markdown options (md.blocks markdown) false ;;
  Ok (purge_empty_children lib (html.append_children parent (fst children))).

(** What [render] returns: [doc_div], the parent given or a fresh DOM
    [div], with its [innerHTML] set. *)
Inductive render_target :=
| FreshDiv (innerHTML : string)
| GivenElement (element : html.node) (innerHTML : string)
| GivenObject (innerHTML : string).

(** [render(markdown, html_doc, options)].  The module is strict code:
    assigning a property on a primitive value throws. *)
Definition render (markdown : md.MDDocument) (u : user_options) : outcome render_target :=
  element <- render_to_html markdown u ;;
  match u_parent u with
  | NoParent | PrimitiveParent false => Ok (FreshDiv (inner_html lib element))
  | HtmlParent given =>
      Ok (GivenElement (if html.instanceof_Element given then element else given)
                       (inner_html lib element))
  | ObjectParent _ => Ok (GivenObject (inner_html lib element))
  | PrimitiveParent true =>
      Throw (TypeError "Cannot create property 'innerHTML' on a primitive value")
  end.

End Rendering.

End renderer.

(** * The table of contents as a function of the headings

    A description of what [as_list] builds that does not mention the store:
    the entries are inserted one after the other under the last entry of
    each level. *)

Module toc.

Import md.

(** The nodes of the entry [push_heading] makes for a heading. *)
Definition entry_content (id : string) (nodes : list node) : list node :=
  [Paragraph [Link (purge_linebreaks nodes) {| url := Some ("#" ++ id); tooltip := None |} ""]].

Fixpoint on_last {A} (f : A -> A) (l : list A) : list A :=
  match l with
  | [] => []
  | [x] => [f x]
  | x :: r => x :: on_last f r
  end.

(** A new entry at depth [d] below the last entry of every level above;
    depth [0] is the list itself. *)
Fixpoint insert_entry (d : nat) (content : list node) (entries : list node) : list node :=
  match d with
  | O => entries ++ [ListEntry content [] None]
  | S d' =>
      on_last (fun entry =>
                 match entry with
                 | ListEntry c sublists checked =>
                     ListEntry c
                       (match sublists with
                        | [] => [List (insert_entry d' content []) true (Int 1)]
                        | _ :: _ =>
                            on_last (fun sub =>
                                       match sub with
                                       | List es o st => List (insert_entry d' content es) o st
                                       | other => other
                                       end) sublists
                        end) checked
                 | other => other
                 end) entries
  end.

(** The depth at which a heading of level [level] goes when the previous
    entry went to depth [k - 1] ([k] is [0] before the first entry): its own
    level, but at most one level below the previous entry. *)
Definition depth_after (k level : nat) : nat := Nat.min level (S k) - 1.

(** The entries after a sequence of [(level, content)] items. *)
Fixpoint build (entries : list node) (k : nat) (items : list (nat * list node)) : list node :=
  match items with
  | [] => entries
  | (level, content) :: rest =>
      build (insert_entry (depth_after k level) content entries) (S (depth_after k level)) rest
  end.

(** The depths alone. *)
Fixpoint depths (k : nat) (items : list (nat * list node)) : list (nat * list node) :=
  match items with
  | [] => []
  | (level, content) :: rest =>
      (depth_after k level, content) :: depths (S (depth_after k level)) rest
  end.

(** The level of a heading in the table: the digit of [h1] to [h6], less
    one when H1 headings do not take part. *)
Definition heading_level (allow_h1 : bool) (heading : node) : nat :=
  match heading with
  | Heading _ level =>
      match parse_level level with
      | Some z => Z.to_nat (if allow_h1 then z else z - 1)
      | None => O
      end
  | _ => O
  end.

Definition heading_id (heading : node) : string :=
  match get_id heading with Ok id => id | _ => "" end.

Definition item (allow_h1 : bool) (heading : node) : nat * list node :=
  (heading_level allow_h1 heading,
   entry_content (heading_id heading)
                 (match get_nodes heading with Some l => l | None => [] end)).

Definition items (doc : MDDocument) : list (nat * list node) :=
  map (item (toc_allow_h1 doc)) (toc_headings doc).

(** The table of contents of a document. *)
Definition table (doc : MDDocument) : node := List (build [] 0 (items doc)) true (Int 1).

(** The entries of a list in document order, each with its depth. *)
Fixpoint outline (depth : nat) (n : node) : list (nat * list node) :=
  match n with
  | List entries _ _ => concat (map (outline depth) entries)
  | ListEntry content sublists _ => (depth, content) :: concat (map (outline (S depth)) sublists)
  | _ => []
  end.

(** A heading [as_list] can process: a level from [h1] to [h6] and an
    identifier. *)
Definition ready (heading : node) : bool :=
  match heading with
  | Heading _ level =>
      existsb (String.eqb level) ["h1"; "h2"; "h3"; "h4"; "h5"; "h6"] && is_ok (get_id heading)
  | _ => false
  end.

(** *** The store as a picture of the list

    [rep s t a hi]: the object at address [a] and the objects below it, all
    at addresses from [a] up to [hi], are the list or entry [t]. *)
Definition reps (R : node -> address -> address -> Prop)
  : address -> list node -> list address -> address -> Prop :=
  fix reps (lo : address) (ts : list node) (addrs : list address) (hi : address) : Prop :=
    match ts, addrs with
    | [], [] => lo <= hi
    | t :: ts', b :: bs => lo <= b /\ exists mid, R t b mid /\ reps mid ts' bs hi
    | _, _ => False
    end.

Fixpoint rep (s : store) (t : node) (a hi : address) {struct t} : Prop :=
  match t with
  | List entries ordered start =>
      ordered = true /\ start = Int 1 /\ a < hi
      /\ exists addrs,
          nth_error s a = Some (ListObject addrs)
          /\ reps (fun t b mid => instanceof_ListEntry t = true /\ rep s t b mid)
                  (S a) entries addrs hi
  | ListEntry content sublists checked =>
      checked = None /\ a < hi /\ length sublists <= 1
      /\ exists addrs,
          nth_error s a = Some (EntryObject content addrs)
          /\ reps (fun t b mid => instanceof_List t = true /\ rep s t b mid)
                  (S a) sublists addrs hi
  | _ => False
  end.

(** [spine s hi cur a entries]: the list at [a] is [entries], and [cur] are
    the addresses of its last entry, of the last entry of the sublist of
    that entry, and so on, for as many levels as [cur] is long. *)
Fixpoint spine (s : store) (hi : address) (cur : list address) (a : address)
    (entries : list node) {struct cur} : Prop :=
  match cur with
  | [] => rep s (List entries true (Int 1)) a hi
  | e :: cur' =>
      a < e /\ e < hi
      /\ exists addrs front content sublists,
          nth_error s a = Some (ListObject (addrs ++ [e]))
          /\ entries = (front ++ [ListEntry content sublists None])%list
          /\ reps (fun t b mid => instanceof_ListEntry t = true /\ rep s t b mid)
                  (S a) front addrs e
          /\ match cur' with
             | [] => rep s (ListEntry content sublists None) e hi
             | _ :: _ =>
                 exists l es,
                   nth_error s e = Some (EntryObject content [l]) /\ e < l
                   /\ sublists = [List es true (Int 1)] /\ spine s hi cur' l es
             end
  end.

(** *** Notions of the proofs *)

(** [s'] has the objects of [s] at the addresses from [lo] up to [hi]. *)
Definition agree (s s' : store) (lo hi : address) : Prop :=
  forall x, lo <= x -> x < hi -> nth_error s' x = nth_error s x.

(** [list.push(entry)] on the list at [a], whose nodes are [addrs]. *)
Definition push_entry (s : store) (a : address) (addrs : list address) (content : list node)
  : store :=
  update (s ++ [EntryObject content []])%list a (ListObject (addrs ++ [length s])%list).

(** A heading [as_list] can process, with the level it gets in the table. *)
Definition toc_ok (allow_h1 : bool) (heading : node) : Prop :=
  ready heading = true /\ 1 <= heading_level allow_h1 heading.

(** [deep d es]: below the list [es] there are at least [d] levels of last
    entries. *)
Fixpoint deep (d : nat) (es : list node) : Prop :=
  match d with
  | O => True
  | S d' =>
      exists front c subs ck,
        es = (front ++ [ListEntry c subs ck])%list
        /\ match subs with
           | [] => d' = 0
           | _ :: _ => exists sfront es' o st,
                         subs = (sfront ++ [List es' o st])%list /\ deep d' es'
           end
  end.

(** [block instanceof md.Paragraph] *)
Definition is_paragraph (n : node) : bool :=
  match n with Paragraph _ => true | _ => false end.

(** The lists [as_list] returns: entries whose blocks are paragraphs and
    whose sublists are such lists again. *)
Fixpoint shaped (entry : bool) (n : node) : bool :=
  match n, entry with
  | List entries _ _, false => forallb (shaped true) entries
  | ListEntry content sublists _, true =>
      forallb is_paragraph content && forallb (shaped false) sublists
  | _, _ => false
  end.

(** The document with the blocks [# A], [## B] and [[[ToC]]]. *)
Definition sample : MDDocument :=
  {| blocks := [Heading [Text "A"] "h1"; Heading [Text "B"] "h2"; TableOfContents []];
     references := [] |}.

End toc.

(** * Predicates of the statements *)

Module spec.

Import md.

(** The heading levels [Heading.toString] accepts. *)
Definition valid_level (level : string) : bool :=
  existsb (String.eqb level) ["h1"; "h2"; "h3"; "h4"; "h5"; "h6"].

(** Every heading below [n], [n] included, has a level from [h1] to [h6],
    and every table has a head row that is an element. *)
Fixpoint serializable (n : node) : bool :=
  match n with
  | Text _ | Emoji _ _ | InlineCode _ | InlineLink _ | HORIZONTAL_RULE | BlockCode _ _ => true
  | Heading l level => valid_level level && forallb serializable l
  | Table l _ =>
      match l with [] => false | head :: _ => instanceof_Element head end
      && forallb serializable l
  | ListEntry l sublists _ => forallb serializable l && forallb serializable sublists
  | Comment l | Italic l | Bold l | Underline l | Strikethrough l | Highlight l
  | Spoiler l | Link l _ _ | Image l _ _ | Paragraph l | BlockQuote l
  | List l _ _ | InlineHTML l | InlineLatex l _ _
  | TableRow l _ | TableEntry l | TableOfContents l => forallb serializable l
  end.

(** A string made of characters accepted by [plain] and of escapes [%xy]
    with two lowercase hexadecimal digits. *)
Definition lower_hex (c : ascii) : bool :=
  let n := nat_of_ascii c in
  ((48 <=? n) && (n <=? 57) || (97 <=? n) && (n <=? 102))%nat.

Fixpoint escaped_shape (plain : ascii -> bool) (s : string) : bool :=
  match s with
  | EmptyString => true
  | String c r =>
      if Ascii.eqb c "%"%char then
        match r with
        | String a (String b r') => lower_hex a && lower_hex b && escaped_shape plain r'
        | _ => false
        end
      else plain c && escaped_shape plain r
  end.

(** Lowercase letters, digits and the hyphen. *)
Definition lower_digit_hyphen (c : ascii) : bool :=
  let n := nat_of_ascii c in
  ((97 <=? n) && (n <=? 122) || (48 <=? n) && (n <=? 57) || (n =? 45))%nat.

(** The same, and the punctuation [encodeURI] does not escape. *)
Definition lower_digit_mark (c : ascii) : bool :=
  lower_digit_hyphen c
  || existsb (Ascii.eqb c) (list_ascii_of_string ";/?:@&=+$,#_.!~*'()").

(** [as_plain_text] is defined on everything below [n]: no horizontal rule
    among the nodes of an element. *)
Fixpoint plain (n : node) : bool :=
  match n with
  | HORIZONTAL_RULE => false
  | Text _ | Emoji _ _ | InlineCode _ | InlineLink _ | BlockCode _ _ => true
  | Comment l | Italic l | Bold l | Underline l | Strikethrough l | Highlight l
  | Spoiler l | Link l _ _ | Image l _ _ | Heading l _ | Paragraph l | BlockQuote l
  | List l _ _ | ListEntry l _ _ | InlineHTML l | InlineLatex l _ _ | Table l _
  | TableRow l _ | TableEntry l | TableOfContents l => forallb plain l
  end.

(** A row [render_table_row] can walk: a [TableRow] made for a table,
    whose cells are elements. *)
Definition table_row (row : node) : bool :=
  match row with
  | TableRow cells Holder | TableRow cells (OtherTable _) => forallb instanceof_Element cells
  | _ => false
  end.

(** The blocks [render_blocks] can walk: a heading has a plain text, a list
    holds entries and an entry lists, the rows of a table are rows made for
    a table and their cells are elements. *)
Fixpoint renderable (n : node) : bool :=
  match n with
  | Heading l _ => forallb plain l
  | BlockQuote l => forallb renderable l
  | List l _ _ => forallb (fun entry => instanceof_ListEntry entry && renderable entry) l
  | ListEntry l sublists _ =>
      forallb renderable l
      && forallb (fun sublist => instanceof_List sublist && renderable sublist) sublists
  | Table rows _ => forallb table_row rows
  | _ => true
  end.

(** An element [sanitize_raw] returns on: its tag does not have the name of
    a member of [Object.prototype], or its attributes are all among those
    allowed on every tag.  Text and comments are returned as they are. *)
Definition tame (n : html.node) : bool :=
  match n with
  | html.Element tag attrs _ _ =>
      negb (renderer.includes_string renderer.Object_prototype tag)
      || forallb (fun attribute =>
                    renderer.includes_string
                      ["align"; "aria-hidden"; "class"; "id"; "lang"; "style"; "title"]
                      (fst attribute)) attrs
  | _ => true
  end.

(** The markup the parser of [html.mjs] finds in a text holds tame nodes
    only, and [sanitize_elements] returns on it when its callback returns
    on the tame nodes. *)
Definition tame_markup (lib : renderer.library) : Prop :=
  (forall text, Forall (fun n => tame n = true) (renderer.parse_nodes lib text))
  /\ (forall text tags callback,
         (forall n, tame n = true -> exists r, callback n = Ok r) ->
         exists r, renderer.sanitize_elements lib (renderer.parse_nodes lib text) tags callback
                   = Ok r).

(** The callbacks other than [latex.render] return, and [latex.render]
    returns or throws. *)
Definition callbacks_return (o : renderer.options) : Prop :=
  (forall callback, renderer.emoji o = Some callback -> forall node, exists r, callback node = Ok r)
  /\ (forall content, exists r, renderer.code_process o (InlineCode content) = Ok r)
  /\ (forall highlighter, renderer.block_code_highlighter o = Some highlighter ->
                          forall code language, exists r, highlighter code language = Ok r)
  /\ (forall table, exists r, renderer.table_process o table = Ok r)
  /\ (forall render, renderer.latex_render o = Some render -> forall node, render node <> Diverge).

(** [text_only] with a parser that finds one element, [element], in every
    text. *)
Definition finding (element : html.node) : renderer.library := {|
  renderer.parse_nodes := fun _ => [element];
  renderer.sanitize_elements := renderer.sanitize_elements renderer.text_only;
  renderer.parse_into_template := renderer.parse_into_template renderer.text_only;
  renderer.node_html := renderer.node_html renderer.text_only;
  renderer.text_has_nodeName := renderer.text_has_nodeName renderer.text_only;
  renderer.purge_empty_children := renderer.purge_empty_children renderer.text_only;
  renderer.inner_html := renderer.inner_html renderer.text_only
|}.

(** A document with a block of every kind. *)
Definition article : MDDocument :=
  {| blocks :=
       [Heading [Text "Title"] "h1";
        Paragraph [Text "Some "; Bold [Text "bold"]; Text " text "; Emoji "smile" None;
                   InlineCode "x"];
        Heading [Text "Part"; Italic [Text " one"]] "h2";
        List [ListEntry [Paragraph [Text "first"]]
                        [List [ListEntry [Paragraph [Text "nested"]] [] (Some true)] false (Int 1)]
                        None] true (Int 1);
        Table [TableRow [TableEntry [Text "a"]] Holder;
               TableRow [TableEntry [Text "b"]] (OtherTable [RIGHT])] [LEFT];
        BlockQuote [Paragraph [Text "quoted"]; Text "inline"];
        BlockCode "code" (Some "js");
        HORIZONTAL_RULE;
        TableOfContents []];
     references := [] |}.

(** The wrapping of [List.constructor], entry by entry. *)
Definition wrap_entry (entry : item) : node :=
  match entry with
  | Obj (ListEntry _ _ _ as e) => e
  | _ => ListEntry (purge_linebreaks [to_node entry]) [] None
  end.

(** The entry [List.push] appends. *)
Definition pushed_entry (n : item) : node :=
  match n with
  | Obj (ListEntry _ _ _ as e) => e
  | Obj (List _ _ _ as sub) => ListEntry [Text ""] [sub] None
  | _ => ListEntry (purge_linebreaks [to_node n]) [] None
  end.

(** The identifier of a one-character text. *)
Definition id_of_char (c : ascii) : string :=
  toLowerCase (replace_all "%20" "-" (encodeURI_char c)).

(** A document with an emoji deep inside a quote. *)
Definition nested : MDDocument :=
  {| blocks :=
       [Paragraph [Text "before"];
        BlockQuote
          [List [ListEntry [Paragraph [Bold [Text "so "; Italic [Emoji "smile" None]]]] [] None]
                false (Int 1)]];
     references := [] |}.

(** *** A callback throws while the document is rendered

    [error] is raised at a node when a callback throws it there, or when it
    is raised at a node rendered inside, after the nodes rendered before
    that one have returned. *)

Section Raises.

Variable lib : renderer.library.
Variable markdown : MDDocument.
Variable o : renderer.options.
Variable error : exn.

(** The nodes rendered inside an inline node, with the flags
    [allow_linebreak] and [should_escape] they are rendered under; [None]
    when the renderer does not render the nodes of the node. *)
Definition rendered_inside (allow escape : bool) (n : node)
  : option (list node * bool * bool) :=
  match n with
  | Bold l | Italic l | Strikethrough l | Underline l => Some (l, allow, true)
  | Highlight l => if renderer.highlight_enable o then Some (l, allow, true) else None
  | Link l _ _ | Spoiler l => Some (l, false, escape)
  | _ => None
  end.

Inductive inline_raises : bool -> bool -> node -> Prop :=
| raises_emoji allow escape content skin_tone callback :
    renderer.emoji o = Some callback ->
    callback (Emoji content skin_tone) = Throw error ->
    inline_raises allow escape (Emoji content skin_tone)
| raises_code_process allow escape content :
    renderer.code_process o (InlineCode content) = Throw error ->
    inline_raises allow escape (InlineCode content)
| raises_inside allow escape n allow' escape' before child after rendered :
    rendered_inside allow escape n = Some ((before ++ child :: after)%list, allow', escape') ->
    mapM (renderer.render_inline_node lib markdown o allow' escape') before = Ok rendered ->
    inline_raises allow' escape' child ->
    inline_raises allow escape n.

(** [error] is raised at one of [nodes], rendered inline one after the
    other. *)
Definition inline_among (allow escape : bool) (nodes : list node) : Prop :=
  exists before child after rendered,
    nodes = (before ++ child :: after)%list
    /\ mapM (renderer.render_inline_node lib markdown o allow escape) before = Ok rendered
    /\ inline_raises allow escape child.

(** [error] is raised in a cell of [row], a row of a table whose alignments
    are [holder]. *)
Definition row_raises (holder : list TableAlignment) (head : bool) (row : node) : Prop :=
  exists alignments before cell after rendered nodes,
    renderer.row_table holder row = Ok alignments
    /\ get_nodes row = Some (before ++ cell :: after)%list
    /\ renderer.render_table_cells lib markdown o (Ok alignments)
                                   (if head then "th" else "td") 0 before = Ok rendered
    /\ get_nodes cell = Some nodes
    /\ inline_among false true nodes.

(** The element [table.process] is called with. *)
Definition table_element (tr : html.node) (trs : list html.node) : html.node :=
  html.append_child
    (html.append_child
       (html.attr (html.create_element "table") "role" (html.StringValue "table"))
       (html.Obj (html.append_child (html.create_element "thead") (html.Obj tr))))
    (html.Obj (html.append_children (html.create_element "tbody") (map html.Obj trs))).

(** The renderers of blocks, entries and lists of this document. *)
Definition block_renderer : node -> bool -> outcome (list html.item * bool) :=
  renderer.render_block lib markdown o (renderer.render_toc lib markdown o).

Definition entry_renderer : nat -> node -> bool -> outcome (html.item * bool) :=
  renderer.render_entry lib markdown o (renderer.render_toc lib markdown o).

Definition list_renderer : node -> nat -> bool -> outcome (html.node * bool) :=
  renderer.render_list lib markdown o (renderer.render_toc lib markdown o).

(** The callback of the loop over the children of a quote. *)
Definition quote_renderer (child : node) (st : bool) : outcome (list html.item * bool) :=
  if renderer.is_block child then block_renderer child st
  else r <- renderer.render_inline lib markdown o [child] true true ;; Ok (r, st).

(** [error] is raised at a block rendered with [paragraph_as_text] as given,
    at a list entry, or at a list. *)
Inductive block_raises : bool -> node -> Prop :=
| raises_heading st nodes level id :
    get_id (Heading nodes level) = Ok id ->
    inline_among false true nodes ->
    block_raises st (Heading nodes level)
| raises_paragraph st nodes :
    inline_among true true nodes ->
    block_raises st (Paragraph nodes)
| raises_highlighter st code language highlighter :
    renderer.block_code_highlighter o = Some highlighter ->
    language <> "" ->
    highlighter code language = Throw error ->
    block_raises st (BlockCode code (Some language))
| raises_quote_block st before child after rendered :
    renderer.forEachS quote_renderer before st = Ok rendered ->
    renderer.is_block child = true ->
    block_raises (snd rendered) child ->
    block_raises st (BlockQuote (before ++ child :: after))
| raises_quote_inline st before child after rendered :
    renderer.forEachS quote_renderer before st = Ok rendered ->
    renderer.is_block child = false ->
    inline_raises true true child ->
    block_raises st (BlockQuote (before ++ child :: after))
| raises_inline_html st nodes :
    renderer.inline_html_enable o = true ->
    inline_among true false nodes ->
    block_raises st (InlineHTML nodes)
| raises_list st before entry after ordered ordered_start rendered :
    renderer.forEachS (entry_renderer 0) before st = Ok rendered ->
    entry_raises 0 entry ->
    block_raises st (List (before ++ entry :: after) ordered ordered_start)
| raises_table_head st head body alignments :
    row_raises alignments true head ->
    block_raises st (Table (head :: body) alignments)
| raises_table_body st head before row after alignments tr trs :
    renderer.render_table_row lib markdown o alignments head true = Ok tr ->
    mapM (fun row => renderer.render_table_row lib markdown o alignments row false) before
    = Ok trs ->
    row_raises alignments false row ->
    block_raises st (Table (head :: before ++ row :: after) alignments)
| raises_table_process st head body alignments tr trs :
    renderer.render_table_row lib markdown o alignments head true = Ok tr ->
    mapM (fun row => renderer.render_table_row lib markdown o alignments row false) body
    = Ok trs ->
    renderer.table_process o (table_element tr trs) = Throw error ->
    block_raises st (Table (head :: body) alignments)
| raises_table_of_contents st nodes lst :
    as_list markdown = Ok lst ->
    toc.shaped false lst = true ->
    list_raises 0 st lst ->
    block_raises st (TableOfContents nodes)

with entry_raises : nat -> node -> Prop :=
| raises_entry_block level before child after sublists checked rendered :
    renderer.forEachS block_renderer before true = Ok rendered ->
    block_raises (snd rendered) child ->
    entry_raises level (ListEntry (before ++ child :: after) sublists checked)
| raises_entry_sublist level blocks before sublist after checked children rendered :
    renderer.forEachS block_renderer blocks true = Ok children ->
    renderer.forEachS (fun sublist st => list_renderer sublist (S level) st) before false
    = Ok rendered ->
    list_raises (S level) (snd rendered) sublist ->
    entry_raises level (ListEntry blocks (before ++ sublist :: after) checked)

with list_raises : nat -> bool -> node -> Prop :=
| raises_sublist level st before entry after ordered ordered_start rendered :
    renderer.forEachS (entry_renderer (if (3 <? level)%nat then 3%nat else level)) before st
    = Ok rendered ->
    entry_raises (if (3 <? level)%nat then 3%nat else level) entry ->
    list_raises level st (List (before ++ entry :: after) ordered ordered_start).

Scheme block_raises_mut := Minimality for block_raises Sort Prop
  with entry_raises_mut := Minimality for entry_raises Sort Prop
  with list_raises_mut := Minimality for list_raises Sort Prop.

Combined Scheme raises_mut from block_raises_mut, entry_raises_mut, list_raises_mut.

(** [error] is raised at a block of the document, after the blocks before
    it have been rendered. *)
Definition document_raises : Prop :=
  exists before block after rendered,
    blocks markdown = (before ++ block :: after)%list
    /\ renderer.forEachS block_renderer before false = Ok rendered
    /\ block_raises (snd rendered) block.

End Raises.

End spec.

(** * The document object *)

Module document.

Import md.

(** [new MDDocument(blocks)] *)
Definition new_MDDocument (blocks : option (list node)) : MDDocument :=
  {| blocks := match blocks with Some b => b | None => [] end; references := [] |}.

(** [MDDocument.push]: a string becomes a [Text], and a [Text] the only
    node of a new paragraph. *)
Definition push (d : MDDocument) (block : item) : MDDocument :=
  let block := to_node block in
  let block := if instanceof_Text block then Paragraph [block] else block in
  {| blocks := blocks d ++ [block]; references := references d |}.

(** [MDDocument.has_ref]: the entry found, or [undefined]. *)
Definition has_ref (d : MDDocument) (name : string) : option (string * Reference) :=
  find (fun ref => String.eqb (fst ref) (toLowerCase name)) (references d).

(** [MDDocument.ref] *)
Definition ref (d : MDDocument) (name : string) (reference : Reference) : MDDocument :=
  match has_ref d name with
  | Some _ => d
  | None => {| blocks := blocks d;
               references := references d ++ [(toLowerCase name, reference)] |}
  end.

(** [MDDocument.clear] *)
Definition clear (d : MDDocument) : MDDocument := {| blocks := []; references := [] |}.

End document.

(** * Tables *)

Module tables.

Import md.

(** [if (head)] on a [string|Node|(Node|string)[]] argument. *)
Definition truthy (a : arg) : bool :=
  match a with
  | Undefined => false
  | OneString s => negb (String.eqb s "")
  | OneNode _ | Array _ => true
  end.

(** The cell [TableRow.push_column(column)] appends: [column] itself when
    it is a [TableEntry], else [new TableEntry(this, column)]. *)
Definition entry_of (column : arg) : outcome node :=
  match column with
  | OneNode (TableEntry _ as entry) => Ok entry
  | _ => new_TableEntry column
  end.

(** The rows [Table.push_column] makes for the cells of [data] that have no
    row yet: [new TableRow(this, [])], then [push_column] of the cell. *)
Definition new_rows (data : list arg) : outcome (list node) :=
  mapM (fun column => entry <- entry_of column ;; Ok (TableRow [entry] Holder)) data.

(** [x.push_column(head, data, alignment)] with the method the class of [x]
    resolves to.  [TableRow.push_column(column)] appends the cell.
    [Table.push_column] hands [head] to the head row unless it is falsy,
    appends the alignment, and hands the cells of [data] to the rows below,
    one each, making the rows that are missing; on a table without a row at
    all, which the constructor never leaves, the first row made is the head
    row. *)
Fixpoint push_column (this : node) (head : arg) (data : list arg) (alignment : TableAlignment)
    {struct this} : outcome node :=
  match this with
  | TableRow cells table => entry <- entry_of head ;; Ok (TableRow (cells ++ [entry]) table)
  | Table rows alignments =>
      let fill :=
        fix fill (rows : list node) (data : list arg) {struct rows} : outcome (list node) :=
          match rows, data with
          | _, [] => Ok rows
          | [], _ :: _ => new_rows data
          | row :: rows', column :: data' =>
              row <- push_column row column [] NONE ;;
              rest <- fill rows' data' ;;
              Ok (row :: rest)
          end in
      match rows with
      | [] =>
          if truthy head
          then Throw (TypeError "Cannot read properties of undefined (reading 'push_column')")
          else
            match data with
            | [] => Ok (Table [] (alignments ++ [alignment]))
            | _ :: _ =>
                body <- new_rows data ;;
                Ok (Table (TableRow [] Holder :: body) (alignments ++ [alignment]))
            end
      | first :: body =>
          first <- (if truthy head then push_column first head [] NONE else Ok first) ;;
          body <- fill body data ;;
          Ok (Table (first :: body) (alignments ++ [alignment]))
      end
  | _ => Throw (TypeError "this.push_column is not a function")
  end.

(** The loop of [Table.push_column] over [data], on the rows below the head
    row. *)
Fixpoint fill (rows : list node) (data : list arg) {struct rows} : outcome (list node) :=
  match rows, data with
  | _, [] => Ok rows
  | [], _ :: _ => new_rows data
  | row :: rows', column :: data' =>
      row <- push_column row column [] NONE ;;
      rest <- fill rows' data' ;;
      Ok (row :: rest)
  end.

(** [Table.get_head] and [Table.get_body] *)
Definition get_head (table : node) : option node :=
  match get_nodes table with Some (head :: _) => Some head | _ => None end.

Definition get_body (table : node) : list node :=
  match get_nodes table with Some (_ :: body) => body | _ => [] end.

(** A table of [columns] columns: a head row and body rows that are
    [TableRow]s of [columns] cells each, all of them [TableEntry]s, and
    [columns] alignments. *)
Definition row_of (columns : nat) (row : node) : Prop :=
  match row with
  | TableRow cells _ =>
      length cells = columns
      /\ Forall (fun cell => match cell with TableEntry _ => True | _ => False end) cells
  | _ => False
  end.

Definition rectangular (columns : nat) (table : node) : Prop :=
  match table with
  | Table rows alignments =>
      rows <> [] /\ Forall (row_of columns) rows /\ length alignments = columns
  | _ => False
  end.

(** [row] with one more cell at its end. *)
Definition extended (row row' : node) : Prop :=
  exists cells entry table,
    row = TableRow cells table /\ row' = TableRow (cells ++ [entry]) table.

(** A cell [new TableEntry] accepts: not an object without [nodes.map]. *)
Definition cell_ok (column : arg) : bool :=
  match column with
  | OneNode n => instanceof_Element n
  | _ => true
  end.

End tables.

(** * The JSON encoding *)

Module encoding.

Import md.

(** A number [JSON.stringify] writes as that number. *)
Definition finite (n : number) : bool :=
  match n with Int _ => true | _ => false end.

(** [row.table] is the table that holds the row. *)
Definition held (table : table_pointer) : bool :=
  match table with Holder => true | _ => false end.

(** The nodes all of whose fields are in their JSON: an [InlineLatex] and a
    [TableOfContents] have no nodes of their own, as their constructors
    leave them; a table row was made for the table that holds it; a skin
    tone and the start of a list are numbers [JSON.stringify] writes as
    numbers. *)
Fixpoint canonical (n : node) : bool :=
  match n with
  | Text _ | InlineCode _ | InlineLink _ | HORIZONTAL_RULE | BlockCode _ _ => true
  | Emoji _ skin_tone => match skin_tone with Some tone => finite tone | None => true end
  | InlineLatex l _ _ | TableOfContents l => match l with [] => true | _ :: _ => false end
  | ListEntry l sublists _ => forallb canonical l && forallb canonical sublists
  | List l _ ordered_start => finite ordered_start && forallb canonical l
  | TableRow l table => held table && forallb canonical l
  | Comment l | Italic l | Bold l | Underline l | Strikethrough l | Highlight l
  | Spoiler l | Link l _ _ | Image l _ _ | Heading l _ | Paragraph l | BlockQuote l
  | InlineHTML l | Table l _ | TableEntry l => forallb canonical l
  end.

(** [node instanceof Comment] *)
Definition is_comment (n : node) : bool :=
  match n with Comment _ => true | _ => false end.

(** No [Comment] stands directly in a table, a row or a cell, at any depth
    that [toJSON] visits. *)
Fixpoint encodable (n : node) : bool :=
  match n with
  | Text _ | Emoji _ _ | InlineCode _ | InlineLink _ | HORIZONTAL_RULE | BlockCode _ _
  | InlineLatex _ _ _ | TableOfContents _ => true
  | Table l _ | TableRow l _ | TableEntry l =>
      forallb (fun child => negb (is_comment child) && encodable child) l
  | ListEntry l sublists _ => forallb encodable l && forallb encodable sublists
  | Comment l | Italic l | Bold l | Underline l | Strikethrough l | Highlight l
  | Spoiler l | Link l _ _ | Image l _ _ | Heading l _ | Paragraph l | BlockQuote l
  | List l _ _ | InlineHTML l => forallb encodable l
  end.

End encoding.

(** * Two renderers side by side *)

Module rendering.

Import renderer.

(** The options [o] and [o'] differ at most in [parent]. *)
Definition same_options (o o' : options) : Prop :=
  block_code_class_name o = block_code_class_name o'
  /\ block_code_highlighter o = block_code_highlighter o'
  /\ checkbox_enable o = checkbox_enable o'
  /\ checkbox_disabled_property o = checkbox_disabled_property o'
  /\ code_process o = code_process o'
  /\ emoji o = emoji o'
  /\ highlight_enable o = highlight_enable o'
  /\ inline_html_enable o = inline_html_enable o'
  /\ inline_html_disallowed_tags o = inline_html_disallowed_tags o'
  /\ image_class_name o = image_class_name o'
  /\ latex_render o = latex_render o'
  /\ latex_error_classes o = latex_error_classes o'
  /\ strikethrough_class_name o = strikethrough_class_name o'
  /\ table_process o = table_process o'
  /\ underline_enable o = underline_enable o'
  /\ underline_class_name o = underline_class_name o'
  /\ spoiler_enable o = spoiler_enable o'
  /\ spoiler_class_name o = spoiler_class_name o'
  /\ spoiler_image_class_name o = spoiler_image_class_name o'
  /\ spoiler_hidden_class_name o = spoiler_hidden_class_name o'.

(** The libraries [lib] and [lib'] differ at most in [parse_nodes] and
    [sanitize_elements], and in what they do to a finished tree: they agree
    on [html.parse], on [node.html()] and on the text properties. *)
Definition same_templates (lib lib' : library) : Prop :=
  parse_into_template lib = parse_into_template lib'
  /\ node_html lib = node_html lib'
  /\ text_has_nodeName lib = text_has_nodeName lib'.

(** ... and not even in that. *)
Definition same_parser (lib lib' : library) : Prop :=
  parse_nodes lib = parse_nodes lib' /\ sanitize_elements lib = sanitize_elements lib'.

(** [{...options, inline_html: enable}] *)
Definition with_inline_html (u : user_options) (enable : bool) : user_options := {|
  u_block_code_class_name := u_block_code_class_name u;
  u_block_code_highlighter := u_block_code_highlighter u;
  u_checkbox_enable := u_checkbox_enable u;
  u_checkbox_disabled_property := u_checkbox_disabled_property u;
  u_code_process := u_code_process u; u_emoji := u_emoji u;
  u_highlight_enable := u_highlight_enable u;
  u_inline_html := Some enable; u_inline_html_enable := u_inline_html_enable u;
  u_inline_html_disallowed_tags := u_inline_html_disallowed_tags u;
  u_image_class_name := u_image_class_name u;
  u_latex_render := u_latex_render u; u_latex_katex := u_latex_katex u;
  u_latex_error_classes := u_latex_error_classes u;
  u_strikethrough_class_name := u_strikethrough_class_name u;
  u_table_process := u_table_process u;
  u_underline_enable := u_underline_enable u; u_underline_class_name := u_underline_class_name u;
  u_spoiler_enable := u_spoiler_enable u; u_spoiler_class_name := u_spoiler_class_name u;
  u_spoiler_image_class_name := u_spoiler_image_class_name u;
  u_spoiler_hidden_class_name := u_spoiler_hidden_class_name u;
  u_parent := u_parent u |}.

(** [text_only] with a parser that finds nothing and a sanitizer that keeps
    nothing. *)
Definition blind : library := {|
  parse_nodes := fun _ => [];
  sanitize_elements := fun _ _ _ => Ok [];
  parse_into_template := parse_into_template text_only;
  node_html := node_html text_only;
  text_has_nodeName := text_has_nodeName text_only;
  purge_empty_children := purge_empty_children text_only;
  inner_html := inner_html text_only
|}.

End rendering.

(** * Notions of the further properties *)

Module notions.

Import md.

(** Depths that start at the top and go down by one level at a time at
    most: each is at most one more than the one before, the first at most
    [previous]. *)
Fixpoint gentle (previous : nat) (depths : list nat) : Prop :=
  match depths with
  | [] => True
  | d :: rest => d <= previous /\ gentle (S d) rest
  end.

(** The texts below a node, in document order: the content of every [Text],
    emoji names, inline code and inline links included; a [BlockCode] has
    none, and the sublists of a list entry are not looked at. *)
Fixpoint text_leaves (n : node) : list string :=
  match n with
  | Text c | Emoji c _ | InlineCode c | InlineLink c => [c]
  | HORIZONTAL_RULE | BlockCode _ _ => []
  | Comment l | Italic l | Bold l | Underline l | Strikethrough l | Highlight l
  | Spoiler l | Link l _ _ | Image l _ _ | Heading l _ | Paragraph l | BlockQuote l
  | List l _ _ | ListEntry l _ _ | InlineHTML l | InlineLatex l _ _ | Table l _
  | TableRow l _ | TableEntry l | TableOfContents l => flat_map text_leaves l
  end.

End notions.

(** * Properties *)

Import md.

(** ** Auxiliary facts *)

Lemma list_all_Forall {A} (P : A -> Prop) (l : list A) : list_all A P l -> Forall P l.
Proof. induction 1; constructor; assumption. Qed.

Ltac nested_induction n :=
  induction n using md.node_ind;
  repeat match goal with H : list_all _ _ _ |- _ => apply list_all_Forall in H end.

Lemma bind_Ok {A B} (m : outcome A) (k : A -> outcome B) (b : B) :
  bind m k = Ok b -> exists a, m = Ok a /\ k a = Ok b.
Proof. destruct m; simpl; intros H; try discriminate. eauto. Qed.

(** [mapM] succeeds when the callback succeeds on every element. *)
Lemma mapM_cons {A B} (f : A -> outcome B) (x : A) (l : list A) :
  mapM f (x :: l) = (y <- f x ;; ys <- mapM f l ;; Ok (y :: ys)).
Proof. reflexivity. Qed.

Lemma mapM_ok {A B} (f : A -> outcome B) (P : A -> Prop) (l : list A) :
  Forall (fun x => P x -> exists y, f x = Ok y) l ->
  Forall P l ->
  exists ys, mapM f l = Ok ys.
Proof.
  induction 1 as [|x l Hx _ IH]; intros Hl; [exists []; reflexivity|].
  inversion Hl as [|? ? Px Pl]; subst.
  destruct (Hx Px) as [y Ey]. destruct (IH Pl) as [ys Eys].
  exists (y :: ys). rewrite mapM_cons, Ey, Eys. reflexivity.
Qed.

Lemma forallb_Forall {A} (p : A -> bool) (l : list A) :
  forallb p l = true -> Forall (fun x => p x = true) l.
Proof. intros H. apply Forall_forall. apply forallb_forall. exact H. Qed.

(** ** Links without a title *)

(** C9: [new Link(url)] and [new Link(url, "")] are meant to show the URL as
    their title, but the replacement title is a bare [Text], which
    [Element.constructor] neither wraps in an array nor accepts: the
    constructor throws and no link is built.  The same holds for [Image]. *)
Theorem Link_without_title_throws (u : string) (tooltip reference : option string) :
  new_Link u Undefined tooltip reference = Throw (TypeError "nodes.map is not a function")
  /\ new_Link u (OneString "") tooltip reference = Throw (TypeError "nodes.map is not a function")
  /\ new_Image u Undefined tooltip reference = Throw (TypeError "nodes.map is not a function")
  /\ new_Image u (OneString "") tooltip reference = Throw (TypeError "nodes.map is not a function").
Proof. repeat split; reflexivity. Qed.

(** ** No-linebreak containers *)

Lemma purge_linebreaks_spec (l : list node) :
  forallb (fun n => negb (is_linebreak_text n)) (purge_linebreaks l) = true.
Proof.
  unfold purge_linebreaks. induction l as [|n l IH]; simpl; [reflexivity|].
  destruct (negb (is_linebreak_text n)) eqn:E; simpl; [rewrite E|]; exact IH.
Qed.

(** The constructor of a no-linebreak container leaves no linebreak. *)
Lemma Element_constructor_purges (a : arg) (l : list node) :
  Element_constructor a false = Ok l ->
  forallb (fun n => negb (is_linebreak_text n)) l = true.
Proof.
  intros H.
  assert (E : exists items, l = purge_linebreaks items).
  { unfold Element_constructor, bind in H.
    destruct a as [|s|n|items]; try destruct (instanceof_Element n);
      try discriminate; injection H as <-.
    - exists []. reflexivity.
    - exists [Text s]. reflexivity.
    - exists [n]. reflexivity.
    - exists (map to_node items). reflexivity. }
  destruct E as [items ->]. apply purge_linebreaks_spec.
Qed.

(** C6: [Element.push] appends the node without looking at it, so a
    [Linebreak] pushed on a [Strikethrough], [Highlight], [Spoiler], [Link]
    or [Heading] stays among its nodes, although the constructor of the same
    container drops it. *)
Theorem push_keeps_linebreak (l : list node) (r : Reference) (rn level : string) :
  push (Strikethrough l) (Obj LINEBREAK) = Ok (Strikethrough (l ++ [LINEBREAK]))
  /\ push (Highlight l) (Obj LINEBREAK) = Ok (Highlight (l ++ [LINEBREAK]))
  /\ push (Spoiler l) (Obj LINEBREAK) = Ok (Spoiler (l ++ [LINEBREAK]))
  /\ push (Link l r rn) (Obj LINEBREAK) = Ok (Link (l ++ [LINEBREAK]) r rn)
  /\ push (Heading l level) (Obj LINEBREAK) = Ok (Heading (l ++ [LINEBREAK]) level)
  /\ (s <- new_Strikethrough (Array [Obj LINEBREAK]) ;; push s (Obj LINEBREAK))
     = Ok (Strikethrough [LINEBREAK])
  /\ is_linebreak_text LINEBREAK = true.
Proof. repeat split; reflexivity. Qed.

(** ** Lists hold list entries *)

Lemma new_ListEntry_ok (a : list item) (sublists : option (list node)) (checked : option bool) :
  new_ListEntry (Array a) sublists checked
  = Ok (ListEntry (purge_linebreaks (map to_node a))
                  (match sublists with Some s => s | None => [] end) checked).
Proof. reflexivity. Qed.

Lemma new_List_ok (entries : list item) (ordered : bool) (ordered_start : number) :
  new_List entries ordered ordered_start
  = Ok (List (map spec.wrap_entry entries) ordered ordered_start).
Proof.
  unfold new_List.
  assert (H : mapM (fun entry => match entry with
                                 | Obj (ListEntry _ _ _) => Ok entry
                                 | _ => fmap Obj (new_ListEntry (Array [entry]) None None)
                                 end) entries
              = Ok (map (fun e => Obj (spec.wrap_entry e)) entries)).
  { induction entries as [|e r IH]; [reflexivity|].
    simpl. simpl in IH. rewrite IH.
    destruct e as [s|[]]; reflexivity. }
  rewrite H. simpl. unfold Element_constructor. simpl.
  rewrite map_map. reflexivity.
Qed.

Lemma wrap_entry_is_entry (e : item) : instanceof_ListEntry (spec.wrap_entry e) = true.
Proof. destruct e as [s|[]]; reflexivity. Qed.

Lemma List_push_ok (l : list node) (ordered : bool) (start : number) (n : item) :
  push (List l ordered start) n = Ok (List (l ++ [spec.pushed_entry n]) ordered start).
Proof. destruct n as [s|[]]; reflexivity. Qed.

Lemma pushed_entry_is_entry (n : item) : instanceof_ListEntry (spec.pushed_entry n) = true.
Proof. destruct n as [s|[]]; reflexivity. Qed.

Lemma last_map_Some {A} (l : list A) (x : A) :
  last (map Some (l ++ [x])%list) None = Some x.
Proof.
  induction l as [|y l IH]; [reflexivity|].
  simpl. destruct (map Some (l ++ [x])%list) eqn:E.
  - destruct l; discriminate.
  - exact IH.
Qed.

Lemma push_all_List (pushed : list item) :
  forall l ordered start,
    push_all (List l ordered start) pushed
    = Ok (List (l ++ map spec.pushed_entry pushed) ordered start).
Proof.
  induction pushed as [|n pushed IH]; intros l ordered start.
  - rewrite app_nil_r. reflexivity.
  - cbn [push_all]. rewrite List_push_ok. cbn [bind].
    rewrite IH, <- app_assoc. reflexivity.
Qed.

Lemma wrap_entry_eq (entry : item) :
  spec.wrap_entry entry
  = match entry with
    | Obj (ListEntry _ _ _ as e) => e
    | other =>
        ListEntry (if is_linebreak_text (to_node other) then [] else [to_node other]) [] None
    end.
Proof.
  destruct entry as [s|other]; [|destruct other];
    unfold spec.wrap_entry, purge_linebreaks; cbn [filter to_node]; try reflexivity;
    match goal with |- context [is_linebreak_text ?n] => destruct (is_linebreak_text n) end;
    reflexivity.
Qed.

Lemma pushed_entry_eq (n : item) :
  spec.pushed_entry n
  = match n with
    | Obj (ListEntry _ _ _ as e) => e
    | Obj (List _ _ _ as sub) => ListEntry [Text ""] [sub] None
    | other =>
        ListEntry (if is_linebreak_text (to_node other) then [] else [to_node other]) [] None
    end.
Proof.
  destruct n as [s|other]; [|destruct other];
    unfold spec.pushed_entry, purge_linebreaks; cbn [filter to_node]; try reflexivity;
    match goal with |- context [is_linebreak_text ?n] => destruct (is_linebreak_text n) end;
    reflexivity.
Qed.

(** C8, counterexample: a pushed [Linebreak] is wrapped in an entry, but it
    does not become the content of that entry, which is empty. *)
Lemma List_push_linebreak_not_content :
  push (List [] false (Int 1)) (Obj LINEBREAK) = Ok (List [ListEntry [] [] None] false (Int 1))
  /\ push (List [] false (Int 1)) (Obj LINEBREAK)
     <> Ok (List [ListEntry [LINEBREAK] [] None] false (Int 1)).
Proof. split; [reflexivity | discriminate]. Qed.

(** C8, amended: [new List(entries, ordered, ordered_start)] succeeds and
    holds one node for every entry given, in their order: the entry itself
    when it is a [ListEntry], and else a fresh [ListEntry] without sublists
    and checkbox whose content is the entry, or nothing when the entry is a
    [Linebreak].  Every [push] on the list succeeds and appends one node:
    the pushed node itself when it is a [ListEntry], a fresh entry with an
    empty text and the pushed list as its sublist when it is a [List], and
    else a fresh entry whose content is the pushed node, or nothing when
    that is a [Linebreak].  So the nodes of the list are list entries after
    the constructor and any sequence of pushes, and [get_last] returns the
    last of them, a [ListEntry], unless the list is empty. *)
Theorem List_holds_entries (entries pushed : list item) (ordered : bool)
    (ordered_start : number) :
  let fresh (n : item) :=
    ListEntry (if is_linebreak_text (to_node n) then [] else [to_node n]) [] None in
  let constructed (entry : item) :=
    match entry with
    | Obj (ListEntry _ _ _ as e) => e
    | other => fresh other
    end in
  let appended (n : item) :=
    match n with
    | Obj (ListEntry _ _ _ as e) => e
    | Obj (List _ _ _ as sub) => ListEntry [Text ""] [sub] None
    | other => fresh other
    end in
  let nodes := (map constructed entries ++ map appended pushed)%list in
  new_List entries ordered ordered_start
  = Ok (List (map constructed entries) ordered ordered_start)
  /\ (l <- new_List entries ordered ordered_start ;; push_all l pushed)
     = Ok (List nodes ordered ordered_start)
  /\ Forall (fun n => instanceof_ListEntry n = true) nodes
  /\ get_last (List nodes ordered ordered_start) = last (map Some nodes) None
  /\ (nodes <> [] ->
      exists e, get_last (List nodes ordered ordered_start) = Some e
                /\ instanceof_ListEntry e = true)
  /\ (forall before n, pushed = (before ++ [n])%list ->
                       get_last (List nodes ordered ordered_start) = Some (appended n)).
Proof.
  intros fresh constructed appended nodes.
  assert (Hc : map constructed entries = map spec.wrap_entry entries).
  { apply map_ext. intros e. symmetry. apply wrap_entry_eq. }
  assert (Ha : map appended pushed = map spec.pushed_entry pushed).
  { apply map_ext. intros n. symmetry. apply pushed_entry_eq. }
  assert (Hall : Forall (fun n => instanceof_ListEntry n = true) nodes).
  { subst nodes. rewrite Hc, Ha. apply Forall_app. split; apply Forall_forall; intros x Hx;
      apply in_map_iff in Hx; destruct Hx as [e [<- _]];
      [apply wrap_entry_is_entry | apply pushed_entry_is_entry]. }
  split; [rewrite Hc; apply new_List_ok|].
  split; [rewrite new_List_ok; cbn [bind]; rewrite push_all_List; subst nodes;
          rewrite Hc, Ha; reflexivity|].
  split; [exact Hall|].
  split; [reflexivity|].
  split.
  - intros Hne. unfold get_last. cbn [get_nodes].
    destruct nodes as [|x r] using rev_ind; [congruence|].
    exists x. split; [apply last_map_Some|].
    apply Forall_app in Hall. destruct Hall as [_ Hx]. inversion Hx; assumption.
  - intros before n ->. unfold get_last. cbn [get_nodes]. subst nodes.
    rewrite (map_app appended), app_assoc. cbn [map]. apply last_map_Some.
Qed.

(** A list made from one string, with a linebreak and a list pushed. *)
Lemma List_holds_entries_witness :
  (l <- new_List [Str "a"] true (Int 1) ;;
   push_all l [Obj LINEBREAK; Obj (List [] false (Int 1))])
  = Ok (List [ListEntry [Text "a"] [] None;
              ListEntry [] [] None;
              ListEntry [Text ""] [List [] false (Int 1)] None] true (Int 1)).
Proof.
  exact (proj1 (proj2 (List_holds_entries [Str "a"]
                         [Obj LINEBREAK; Obj (List [] false (Int 1))] true (Int 1)))).
Defined.

(** ** JSON *)

(** C4: [Comment] is the one class without a [toJSON]; [Table], [TableRow],
    [TableEntry] and [MDDocument] call [toJSON] on their children, so a
    document with a comment in a table cell, or as a block, has no JSON
    encoding at all: [toJSON] throws. *)
Theorem toJSON_throws_on_comment :
  MDDocument_toJSON
    {| blocks := [Table [TableRow [TableEntry [Comment [Text "note"]]] Holder] [NONE]];
       references := [] |}
  = Throw (TypeError "node.toJSON is not a function")
  /\ MDDocument_toJSON {| blocks := [Comment [Text "note"]]; references := [] |}
     = Throw (TypeError "node.toJSON is not a function")
  /\ new_Comment (OneString "note") = Ok (Comment [Text "note"]).
Proof. repeat split; reflexivity. Qed.

(** ** Heading identifiers *)

Lemma toLowerCase_app (a b : string) :
  toLowerCase (a ++ b) = toLowerCase a ++ toLowerCase b.
Proof. induction a as [|c a IH]; simpl; [reflexivity | rewrite IH; reflexivity]. Qed.

Ltac each_ascii c :=
  destruct c as [[|] [|] [|] [|] [|] [|] [|] [|]].

(** No replacement of [%20] straddles the encodings of two characters. *)
Lemma replace_encoded_char (c : ascii) (rest : string) :
  replace_all "%20" "-" (encodeURI_char c ++ rest)
  = replace_all "%20" "-" (encodeURI_char c) ++ replace_all "%20" "-" rest.
Proof. each_ascii c; reflexivity. Qed.

Lemma id_of_text_cons (c : ascii) (text : string) :
  id_of_text (String c text) = spec.id_of_char c ++ id_of_text text.
Proof.
  unfold id_of_text, spec.id_of_char, toLocaleLowerCase. simpl encodeURI.
  rewrite replace_encoded_char, toLowerCase_app. reflexivity.
Qed.

Lemma id_of_char_shape (c : ascii) (rest : string) :
  spec.escaped_shape spec.lower_digit_mark (spec.id_of_char c ++ rest)
  = spec.escaped_shape spec.lower_digit_mark rest.
Proof. each_ascii c; reflexivity. Qed.

Lemma id_of_text_shape (text : string) :
  spec.escaped_shape spec.lower_digit_mark (id_of_text text) = true.
Proof.
  induction text as [|c text IH]; [reflexivity|].
  rewrite id_of_text_cons, id_of_char_shape. exact IH.
Qed.

(** C5, counterexample: [encodeURI] keeps the comma and the exclamation
    mark, which are neither lowercase letters, digits, hyphens nor escapes. *)
Lemma get_id_keeps_punctuation :
  get_id (Heading [Text "Hello, World!"] "h1") = Ok "hello,-world!"
  /\ spec.escaped_shape spec.lower_digit_hyphen "hello,-world!" = false.
Proof. split; reflexivity. Qed.

(** C5, amended: the identifier of a heading is [encodeURI] of its plain
    text with every [%20] replaced by a hyphen and the result lowercased; it
    is made of lowercase letters, digits, hyphens, the punctuation
    [encodeURI] leaves unescaped ([; / ? : @ & = + $ , # _ . ! ~ * ' ( )])
    and escapes [%xy] with lowercase hexadecimal digits; calling [get_id]
    twice gives the same result. *)
Theorem get_id_shape (nodes : list node) (level : string) :
  get_id (Heading nodes level)
  = (text <- as_plain_text (Heading nodes level) ;;
     Ok (toLocaleLowerCase (replace_all "%20" "-" (encodeURI text))))
  /\ (forall id, get_id (Heading nodes level) = Ok id ->
                 spec.escaped_shape spec.lower_digit_mark id = true)
  /\ (forall first second,
         get_id (Heading nodes level) = first ->
         get_id (Heading nodes level) = second -> first = second).
Proof.
  split; [reflexivity|]. split.
  - intros id H. unfold get_id in H.
    destruct (as_plain_text (Heading nodes level)) as [text| |]; try discriminate.
    injection H as <-. apply id_of_text_shape.
  - intros first second <- <-. reflexivity.
Qed.

(** The identifier of the heading [# Hello, World!]. *)
Lemma get_id_shape_witness :
  spec.escaped_shape spec.lower_digit_mark "hello,-world!" = true.
Proof.
  apply (proj1 (proj2 (get_id_shape [Text "Hello, World!"] "h1"))). reflexivity.
Defined.

(** ** Serialization to Markdown *)

Lemma valid_level_prefix (level : string) :
  spec.valid_level level = true -> exists prefix, heading_prefix level = Ok prefix.
Proof.
  unfold spec.valid_level, heading_prefix. simpl. intros H.
  repeat match goal with
         | |- context [String.eqb level ?x] =>
             destruct (String.eqb level x); [eexists; reflexivity|]
         end.
  discriminate.
Qed.

Ltac finish_toString :=
  repeat match goal with
         | |- context [if ?c then _ else _] => destruct c
         | |- context [match ?c with Some _ => _ | None => _ end] => destruct c
         end;
  eexists; reflexivity.

Lemma children_total (l : list node) :
  Forall (fun n => spec.serializable n = true ->
            (exists s, toString n = Ok s)
            /\ (forall l, get_nodes n = Some l -> exists strs, mapM toString l = Ok strs)) l ->
  forallb spec.serializable l = true ->
  exists strs, mapM toString l = Ok strs.
Proof.
  intros IH H.
  apply (mapM_ok toString (fun n => spec.serializable n = true)).
  - eapply Forall_impl; [|exact IH]. intros a Ha Hs. exact (proj1 (Ha Hs)).
  - apply forallb_Forall. exact H.
Qed.

Lemma toString_total (n : node) :
  spec.serializable n = true ->
  (exists s, toString n = Ok s)
  /\ (forall l, get_nodes n = Some l -> exists strs, mapM toString l = Ok strs).
Proof.
  nested_induction n; simpl; intros Hs;
    repeat match goal with
           | H : _ && _ = true |- _ => apply andb_prop in H; destruct H
           end;
    repeat match goal with
           | IH : Forall _ ?l, H : forallb spec.serializable ?l = true |- _ =>
               lazymatch goal with
               | _ : mapM toString l = Ok _ |- _ => fail
               | _ => let strs := fresh "strs" in
                      let E := fresh "E" in
                      destruct (children_total l IH H) as [strs E]
               end
           end;
    (split; [|try discriminate; try (intros ? [= <-]; eauto; exists []; reflexivity)]);
    unfold fmap;
    repeat (match goal with E : mapM _ _ = Ok _ |- _ => rewrite E; clear E end; simpl);
    try solve [finish_toString].
  - (* Heading *)
    destruct (valid_level_prefix level) as [prefix Ep]; [assumption|].
    rewrite Ep. simpl. eauto.
  - (* Table *)
    destruct nodes as [|head body]; [discriminate|].
    inversion H as [|? ? IHhead IHbody]; subst.
    simpl in H1. apply andb_prop in H1. destruct H1 as [Hhead Hbody].
    destruct (children_total body IHbody Hbody) as [rows Er].
    destruct (proj2 (IHhead Hhead)) with (l := match get_nodes head with Some l => l | None => [] end)
      as [cols Ec].
    { destruct head; try discriminate; reflexivity. }
    assert (Ehead : match head with
            | Text _ | Emoji _ _ | InlineCode _ | InlineLink _ | HORIZONTAL_RULE =>
                Throw (TypeError "Cannot read properties of undefined (reading 'map')")
            | BlockCode _ _ => Ok []
            | Comment c | Italic c | Bold c | Underline c | Strikethrough c | Highlight c
            | Spoiler c | Link c _ _ | Image c _ _ | Heading c _ | Paragraph c | BlockQuote c
            | List c _ _ | ListEntry c _ _ | InlineHTML c | InlineLatex c _ _ | Table c _
            | TableRow c _ | TableEntry c | TableOfContents c => mapM toString c
            end = Ok cols).
    { destruct head; try discriminate; exact Ec. }
    rewrite Ehead. simpl. rewrite Er. simpl. eauto.
Qed.

Lemma with_url_ok (l : list (option (string * Reference))) :
  Forall (fun x => x <> None) l -> exists kept, with_url l = Ok kept.
Proof.
  induction 1 as [|x l Hx _ [kept IH]]; [exists []; reflexivity|].
  destruct x as [[nm rf]|]; [|congruence].
  simpl. rewrite IH. simpl. eauto.
Qed.

Lemma concat_references_defined (acc : list (option (string * Reference))) (x : found_references) :
  x <> NoReference -> Forall (fun r => r <> None) acc ->
  Forall (fun r => r <> None) (concat_references acc x).
Proof.
  intros Hx Hacc. destruct x as [|nm rf|refs]; [congruence| |]; simpl;
    apply Forall_app; split; try assumption.
  - constructor; [discriminate | constructor].
  - apply Forall_forall. intros r Hr. apply in_map_iff in Hr.
    destruct Hr as [? [<- _]]. discriminate.
Qed.

Lemma fold_references_defined (bs : list node) (acc : list (option (string * Reference))) :
  Forall (fun block => get_references block <> NoReference) bs ->
  Forall (fun r => r <> None) acc ->
  Forall (fun r => r <> None) (fold_left concat_references (map get_references bs) acc).
Proof.
  intros Hr. revert acc.
  induction Hr as [|b bs Hb _ IH]; intros acc Hacc; [exact Hacc|].
  simpl. apply IH. apply concat_references_defined; assumption.
Qed.

(** C1, counterexample: a heading whose stored level is not one of [h1] to
    [h6] makes the serializer throw. *)
Lemma toString_throws_on_level :
  MDDocument_toString {| blocks := [Heading [Text "title"] "h7"]; references := [] |}
  = Throw (Error ("lib.md ;; Heading#toString(): invalid heading " ++ DQUOTE ++ "h7" ++ DQUOTE ++ ".")).
Proof. reflexivity. Qed.

(** A horizontal rule as a block: [get_references] returns [undefined] for
    it, which [MDDocument.toString] then reads a property of. *)
Example toString_throws_on_rule :
  MDDocument_toString {| blocks := [HORIZONTAL_RULE]; references := [] |}
  = Throw (TypeError "Cannot read properties of undefined (reading 'ref')").
Proof. reflexivity. Qed.

(** C1, amended: serializing a document returns a string whenever every
    heading in it has a level from [h1] to [h6], every table has a head row
    that is an element, and every block is one for which [get_references]
    returns a value (an element other than a link without reference name). *)
Theorem MDDocument_toString_total (d : MDDocument) :
  forallb spec.serializable (blocks d) = true ->
  Forall (fun block => get_references block <> NoReference) (blocks d) ->
  exists s, MDDocument_toString d = Ok s.
Proof.
  intros Hs Hr. unfold MDDocument_toString.
  destruct (mapM_ok (fun block => fmap (fun s => s ++ LF) (toString block))
                    (fun n => spec.serializable n = true) (blocks d)) as [strs E].
  { apply Forall_forall. intros b _ Hb.
    destruct (proj1 (toString_total b Hb)) as [s Eb]. rewrite Eb. simpl. eauto. }
  { apply forallb_Forall. exact Hs. }
  rewrite E. simpl.
  assert (Hrefs : Forall (fun r => r <> None)
            (fold_left concat_references (map get_references (blocks d))
                       (map Some (references d)))).
  { assert (Hstart : Forall (fun r : option (string * Reference) => r <> None)
                            (map Some (references d))).
    { apply Forall_forall. intros r Hin. apply in_map_iff in Hin.
      destruct Hin as [? [<- _]]. discriminate. }
    apply fold_references_defined; assumption. }
  destruct (fold_left concat_references (map get_references (blocks d))
                      (map Some (references d))) as [|r refs]; [eauto|].
  destruct (with_url_ok _ Hrefs) as [kept Ek]. rewrite Ek. simpl. eauto.
Qed.

Lemma MDDocument_toString_total_witness :
  exists s,
    MDDocument_toString
      {| blocks := [Heading [Text "Title"] "h1";
                    Paragraph [Text "see "; Link [Text "site"] {| url := None; tooltip := None |} "home"]];
         references := [("home", {| url := Some "https://ex.com"; tooltip := Some "Home" |})] |}
    = Ok s.
Proof.
  apply MDDocument_toString_total.
  - reflexivity.
  - repeat constructor; discriminate.
Defined.

(** ** Rendering *)

Import renderer.

Lemma append_children_Element (tag : string) (attrs : list (string * html.attr_value))
    (children : list html.node) (props : list (string * string)) (l : list html.item) :
  html.append_children (html.Element tag attrs children props) l
  = html.Element tag attrs (children ++ map html.to_node l) props.
Proof.
  unfold html.append_children. revert children.
  induction l as [|x l IH]; intros children; simpl.
  - rewrite app_nil_r. reflexivity.
  - rewrite IH, <- app_assoc. reflexivity.
Qed.



(** The first element on which the callback throws ends the traversal. *)
Lemma mapM_throw {A B} (f : A -> outcome B) (pre post : list A) (x : A) (ys : list B) (e : exn) :
  mapM f pre = Ok ys -> f x = Throw e -> mapM f (pre ++ x :: post) = Throw e.
Proof.
  revert ys. induction pre as [|a pre IH]; intros ys Hpre Hx.
  - simpl app. rewrite mapM_cons, Hx. reflexivity.
  - rewrite <- app_comm_cons, mapM_cons. rewrite mapM_cons in Hpre.
    destruct (f a) as [b| |]; try discriminate. cbn [bind] in *.
    destruct (mapM f pre) as [ys'| |]; try discriminate.
    rewrite (IH ys' eq_refl Hx). reflexivity.
Qed.

Lemma forEachS_cons {A B} (f : A -> bool -> outcome (B * bool)) (x : A) (l : list A)
    (st : bool) :
  forEachS f (x :: l) st
  = (y <- f x st ;; ys <- forEachS f l (snd y) ;; Ok (fst y :: fst ys, snd ys)).
Proof. reflexivity. Qed.

Lemma forEachS_throw {A B} (f : A -> bool -> outcome (B * bool)) (pre post : list A) (x : A)
    (st : bool) (r : list B * bool) (e : exn) :
  forEachS f pre st = Ok r -> f x (snd r) = Throw e ->
  forEachS f (pre ++ x :: post) st = Throw e.
Proof.
  revert st r. induction pre as [|a pre IH]; intros st r Hpre Hx.
  - injection Hpre as <-. simpl app. rewrite forEachS_cons. simpl in Hx. rewrite Hx.
    reflexivity.
  - rewrite <- app_comm_cons, forEachS_cons. rewrite forEachS_cons in Hpre.
    destruct (f a st) as [y| |]; try discriminate. cbn [bind] in *.
    destruct (forEachS f pre (snd y)) as [ys| |] eqn:E; try discriminate.
    injection Hpre as <-. simpl in Hx.
    rewrite (IH (snd y) ys E Hx). reflexivity.
Qed.

(** ** The table of contents *)

Import toc.

(** *** The store *)

(** Reading the store after an assignment. *)
Lemma nth_error_update_eq (s : store) (a : address) (o : object) :
  a < length s -> nth_error (update s a o) a = Some o.
Proof.
  revert a. induction s as [|x s IH]; intros [|a] H; simpl in *; try lia; [reflexivity|].
  apply IH. lia.
Qed.

Lemma nth_error_update_ne (s : store) (a b : address) (o : object) :
  a <> b -> nth_error (update s a o) b = nth_error s b.
Proof.
  revert a b. induction s as [|x s IH]; intros [|a] [|b] H; simpl; try reflexivity; try congruence.
  apply IH. congruence.
Qed.

Lemma length_update (s : store) (a : address) (o : object) :
  length (update s a o) = length s.
Proof. revert a. induction s as [|x s IH]; intros [|a]; simpl; congruence. Qed.

(** A list or an entry takes at least its own address. *)
Lemma rep_lt (s : store) (t : node) (a hi : address) : rep s t a hi -> a < hi.
Proof. destruct t; simpl; try contradiction; intros H; tauto. Qed.

Lemma reps_le (R : node -> address -> address -> Prop) (ts : list node) :
  (forall t b mid, R t b mid -> b <= mid) ->
  forall lo addrs hi, reps R lo ts addrs hi -> lo <= hi.
Proof.
  intros HR. induction ts as [|t ts IH]; intros lo [|b bs] hi H; simpl in H; try contradiction.
  - exact H.
  - destruct H as (Hlo & mid & Ht & Hrest). apply HR in Ht. apply IH in Hrest. lia.
Qed.

Lemma reps_weaken (R : node -> address -> address -> Prop) (ts : list node) :
  forall lo addrs hi hi', reps R lo ts addrs hi -> hi <= hi' -> reps R lo ts addrs hi'.
Proof.
  induction ts as [|t ts IH]; intros lo [|b bs] hi hi' H Hle; simpl in *; try contradiction.
  - lia.
  - destruct H as (Hlo & mid & Ht & Hrest). split; [exact Hlo|].
    exists mid. split; [exact Ht|]. eapply IH; eassumption.
Qed.

Lemma reps_snoc (R : node -> address -> address -> Prop) (ts : list node) (t : node) (b : address) :
  forall lo addrs mid hi,
    reps R lo ts addrs mid -> mid <= b -> R t b hi ->
    reps R lo (ts ++ [t]) (addrs ++ [b]) hi.
Proof.
  induction ts as [|t' ts IH]; intros lo [|b' bs] mid hi H Hle Ht; simpl in *; try contradiction.
  - split; [lia|]. exists hi. split; [exact Ht | lia].
  - destruct H as (Hlo & mid' & Ht' & Hrest). split; [exact Hlo|].
    exists mid'. split; [exact Ht'|]. eapply IH; eassumption.
Qed.

(** The range of a picture can be widened upwards. *)
Lemma rep_weaken (s : store) (t : node) (a hi hi' : address) :
  rep s t a hi -> hi <= hi' -> rep s t a hi'.
Proof.
  destruct t; simpl; try contradiction; intros H Hle.
  - destruct H as (Ho & Hs & Hlt & addrs & Hn & Hr). repeat split; try assumption; try lia.
    exists addrs. split; [exact Hn|]. eapply reps_weaken; eassumption.
  - destruct H as (Hc & Hlt & Hlen & addrs & Hn & Hr). repeat split; try assumption; try lia.
    exists addrs. split; [exact Hn|]. eapply reps_weaken; eassumption.
Qed.


Lemma agree_sub (s s' : store) (lo hi lo' hi' : address) :
  agree s s' lo hi -> lo <= lo' -> hi' <= hi -> agree s s' lo' hi'.
Proof. intros H Hlo Hhi x Hx Hx'. apply H; lia. Qed.

(** Frame: a picture only depends on the objects in its range. *)
Lemma reps_frame (s s' : store) (f : node -> bool) (ts : list node) :
  Forall (fun t => forall a hi, rep s t a hi -> agree s s' a hi -> rep s' t a hi) ts ->
  forall lo addrs hi,
    reps (fun t b mid => f t = true /\ rep s t b mid) lo ts addrs hi ->
    agree s s' lo hi ->
    reps (fun t b mid => f t = true /\ rep s' t b mid) lo ts addrs hi.
Proof.
  induction 1 as [|t ts Ht _ IH]; intros lo [|b bs] hi H Hag; simpl in *; try contradiction.
  - exact H.
  - destruct H as (Hlo & mid & (Hf & Hrep) & Hrest).
    assert (Hmid : mid <= hi).
    { eapply reps_le; [|exact Hrest]. intros ? ? ? [_ Hr]. apply rep_lt in Hr. lia. }
    pose proof (rep_lt _ _ _ _ Hrep) as Hb.
    split; [exact Hlo|]. exists mid. split.
    + split; [exact Hf|]. apply Ht; [exact Hrep|]. eapply agree_sub; [exact Hag| |]; lia.
    + apply IH; [exact Hrest|]. eapply agree_sub; [exact Hag| |]; lia.
Qed.

Lemma rep_frame (s s' : store) (t : node) :
  forall a hi, rep s t a hi -> agree s s' a hi -> rep s' t a hi.
Proof.
  nested_induction t; simpl; try contradiction; intros a hi Hrep Hag.
  - destruct Hrep as (Ho & Hs & Hlt & addrs & Hn & Hr). repeat split; try assumption.
    exists addrs. split; [rewrite Hag; [exact Hn | lia | lia]|].
    eapply reps_frame; [eassumption | exact Hr |]. eapply agree_sub; [exact Hag| |]; lia.
  - destruct Hrep as (Hc & Hlt & Hlen & addrs & Hn & Hr). repeat split; try assumption.
    exists addrs. split; [rewrite Hag; [exact Hn | lia | lia]|].
    eapply reps_frame; [eassumption | exact Hr |]. eapply agree_sub; [exact Hag| |]; lia.
Qed.

(** Reading back the object at the root of a picture gives the list or
    entry it is a picture of, with fuel for the range. *)
Lemma reps_reify (s : store) (g : node -> bool) (f : nat) (ts : list node) :
  Forall (fun t => forall a hi f, rep s t a hi -> hi - a <= f -> reify f s a = Some t) ts ->
  forall lo addrs hi,
    reps (fun t b mid => g t = true /\ rep s t b mid) lo ts addrs hi ->
    hi - lo <= f ->
    all_some (reify f s) addrs = Some ts.
Proof.
  induction 1 as [|t ts Ht _ IH]; intros lo [|b bs] hi H Hf; simpl in *; try contradiction.
  - reflexivity.
  - destruct H as (Hlo & mid & (_ & Hrep) & Hrest).
    assert (Hmid : mid <= hi).
    { eapply reps_le; [|exact Hrest]. intros ? ? ? [_ Hr]. apply rep_lt in Hr. lia. }
    pose proof (rep_lt _ _ _ _ Hrep) as Hb.
    rewrite (Ht b mid f Hrep) by lia.
    rewrite (IH mid bs hi Hrest) by lia. reflexivity.
Qed.

Lemma rep_reify (s : store) (t : node) :
  forall a hi f, rep s t a hi -> hi - a <= f -> reify f s a = Some t.
Proof.
  nested_induction t; simpl; try contradiction; intros a hi f Hrep Hf.
  - destruct Hrep as (-> & -> & Hlt & addrs & Hn & Hr).
    destruct f as [|f]; [lia|]. simpl. rewrite Hn.
    erewrite reps_reify; [reflexivity | eassumption | exact Hr | lia].
  - destruct Hrep as (-> & Hlt & Hlen & addrs & Hn & Hr).
    destruct f as [|f]; [lia|]. simpl. rewrite Hn.
    erewrite reps_reify; [reflexivity | eassumption | exact Hr | lia].
Qed.


Lemma map_to_node_Obj (l : list node) : map to_node (map Obj l) = l.
Proof. induction l as [|x l IH]; simpl; [reflexivity | rewrite IH; reflexivity]. Qed.

(** [push_heading] is one allocation and one assignment. *)
Lemma push_heading_eq (s : store) (a : address) (addrs : list address)
    (nodes : list node) (level id : string) :
  get_id (Heading nodes level) = Ok id ->
  nth_error s a = Some (ListObject addrs) ->
  push_heading s a (Heading nodes level) = Ok (push_entry s a addrs (entry_content id nodes)).
Proof.
  intros Hid Hn. unfold push_heading. rewrite Hid. simpl bind.
  unfold new_Link, Link_constructor, Element_constructor. simpl.
  rewrite map_to_node_Obj, Hn. reflexivity.
Qed.

Lemma length_push_entry (s : store) (a : address) (addrs : list address) (c : list node) :
  length (push_entry s a addrs c) = S (length s).
Proof. unfold push_entry. rewrite length_update, length_app. simpl. lia. Qed.

Lemma nth_error_push_entry_other (s : store) (a x : address) (addrs : list address) (c : list node) :
  x <> a -> x < length s -> nth_error (push_entry s a addrs c) x = nth_error s x.
Proof.
  intros Hne Hlt. unfold push_entry. rewrite nth_error_update_ne by congruence.
  apply nth_error_app1. exact Hlt.
Qed.

(** Pushing an entry onto a list gives a spine that ends at the new
    entry. *)
Lemma push_spine (s : store) (es : list node) (a hi : address) (addrs : list address)
    (c : list node) :
  rep s (List es true (Int 1)) a hi -> hi <= length s ->
  nth_error s a = Some (ListObject addrs) ->
  spine (push_entry s a addrs c) (S (length s)) [length s] a (es ++ [ListEntry c [] None])%list.
Proof.
  intros Hrep Hhi Hn. pose proof (rep_lt _ _ _ _ Hrep) as Hlt.
  simpl in Hrep. destruct Hrep as (_ & _ & _ & addrs' & Hn' & Hr).
  rewrite Hn in Hn'. injection Hn' as <-.
  simpl. split; [lia|]. split; [lia|].
  exists addrs, es, c, []. split; [|split; [reflexivity|split]].
  - unfold push_entry. apply nth_error_update_eq. rewrite length_app. simpl. lia.
  - eapply reps_frame.
    + apply Forall_forall. intros t _. apply rep_frame.
    + eapply reps_weaken; [exact Hr | lia].
    + intros x Hx Hx'. apply nth_error_push_entry_other; lia.
  - repeat split; try lia. simpl. lia.
    exists []. split; [|simpl; lia].
    unfold push_entry. rewrite nth_error_update_ne by lia.
    rewrite nth_error_app2 by lia. rewrite Nat.sub_diag. reflexivity.
Qed.

(** [insert_entry] along the last entries. *)
Lemma on_last_snoc {A} (f : A -> A) (l : list A) (x : A) :
  on_last f (l ++ [x]) = (l ++ [f x])%list.
Proof.
  induction l as [|y l IH]; [reflexivity|].
  simpl. rewrite IH. destruct (l ++ [x])%list eqn:E; [destruct l; discriminate | reflexivity].
Qed.

Lemma insert_entry_snoc (d : nat) (content : list node) (front : list node)
    (c : list node) (es : list node) :
  insert_entry (S d) content (front ++ [ListEntry c [List es true (Int 1)] None])
  = (front ++ [ListEntry c [List (insert_entry d content es) true (Int 1)] None])%list.
Proof. simpl. rewrite on_last_snoc. reflexivity. Qed.

Lemma insert_entry_snoc_nil (d : nat) (content : list node) (front : list node) (c : list node) :
  insert_entry (S d) content (front ++ [ListEntry c [] None])
  = (front ++ [ListEntry c [List (insert_entry d content []) true (Int 1)] None])%list.
Proof. simpl. rewrite on_last_snoc. reflexivity. Qed.

(** The spine, one level at a time. *)
Lemma spine_cons (s : store) (hi e : address) (cur : list address) (a : address)
    (entries : list node) :
  spine s hi (e :: cur) a entries
  = (a < e /\ e < hi
     /\ exists addrs front content sublists,
         nth_error s a = Some (ListObject (addrs ++ [e]))
         /\ entries = (front ++ [ListEntry content sublists None])%list
         /\ reps (fun t b mid => instanceof_ListEntry t = true /\ rep s t b mid)
                 (S a) front addrs e
         /\ match cur with
            | [] => rep s (ListEntry content sublists None) e hi
            | _ :: _ =>
                exists l es,
                  nth_error s e = Some (EntryObject content [l]) /\ e < l
                  /\ sublists = [List es true (Int 1)] /\ spine s hi cur l es
            end).
Proof. reflexivity. Qed.

Lemma rep_entry_one (s : store) (hi e l : address) (c es : list node) :
  nth_error s e = Some (EntryObject c [l]) -> e < l -> e < hi ->
  rep s (List es true (Int 1)) l hi ->
  rep s (ListEntry c [List es true (Int 1)] None) e hi.
Proof.
  intros Hne Hl He Hrep. simpl. repeat split; try lia.
  exists [l]. split; [exact Hne|]. simpl. split; [lia|].
  exists hi. split; [|lia]. split; [reflexivity | exact Hrep].
Qed.

(** What [spine] says of the last entry of a level makes it an entry. *)
Lemma spine_rep (s : store) (hi : address) (cur : list address) :
  forall a es, spine s hi cur a es -> rep s (List es true (Int 1)) a hi.
Proof.
  induction cur as [|e cur IH]; intros a es H; [exact H|].
  rewrite spine_cons in H.
  destruct H as (Ha & He & addrs & front & c & subs & Hn & -> & Hfront & Hfocus).
  simpl. repeat split; try lia. exists (addrs ++ [e])%list. split; [exact Hn|].
  eapply reps_snoc; [exact Hfront | lia |]. split; [reflexivity|].
  destruct cur as [|e' cur']; [exact Hfocus|].
  destruct Hfocus as (l & es' & Hne & Hl & -> & Hsp).
  apply IH in Hsp. apply rep_entry_one with (l := l); assumption.
Qed.

(** [current.splice(level)]: the first levels of a spine are a spine. *)
Lemma spine_prefix (s : store) (hi : address) (cur1 cur2 : list address) :
  forall a es, spine s hi (cur1 ++ cur2) a es -> spine s hi cur1 a es.
Proof.
  induction cur1 as [|e cur1 IH]; intros a es H; [apply (spine_rep _ _ _ _ _ H)|].
  rewrite <- app_comm_cons, spine_cons in H.
  destruct H as (Ha & He & addrs & front & c & subs & Hn & -> & Hfront & Hfocus).
  rewrite spine_cons. split; [exact Ha|]. split; [exact He|].
  exists addrs, front, c, subs. split; [exact Hn|]. split; [reflexivity|].
  split; [exact Hfront|].
  destruct cur1 as [|e' cur1'].
  - destruct cur2 as [|e2 cur2']; [exact Hfocus|].
    destruct Hfocus as (l & es' & Hne & Hl & -> & Hsp).
    apply spine_rep in Hsp. apply rep_entry_one with (l := l); assumption.
  - rewrite <- app_comm_cons in Hfocus.
    destruct Hfocus as (l & es' & Hne & Hl & -> & Hsp).
    exists l, es'. split; [exact Hne|]. split; [exact Hl|]. split; [reflexivity|].
    apply IH. exact Hsp.
Qed.

Lemma spine_hi (s : store) (hi : address) (cur : list address) (a : address) (es : list node) :
  spine s hi cur a es -> a < hi.
Proof. intros H. apply spine_rep in H. apply rep_lt in H. exact H. Qed.

(** An entry pushed onto the sublist of the last entry [p] of a spine, the
    sublist being made first when there is none: the store is a picture of
    the list with the entry inserted at that depth, and the spine goes on
    to the new entry. *)
Lemma insert_spine (content : list node) (pre : list address) :
  forall p a es s,
    spine s (length s) (pre ++ [p]) a es ->
    exists c subs,
      nth_error s p = Some (EntryObject c subs)
      /\ exists pl addrs,
          last (map Some (snd (ensure_sublist s p c subs))) None = Some pl
          /\ nth_error (fst (ensure_sublist s p c subs)) pl = Some (ListObject addrs)
          /\ let s1 := fst (ensure_sublist s p c subs) in
             let s' := push_entry s1 pl addrs content in
             spine s' (length s') (pre ++ [p; length s1]) a
                   (insert_entry (S (length pre)) content es)
             /\ agree s s' 0 (S a) /\ length s <= length s'.
Proof.
  induction pre as [|e pre IH]; intros p a es s H.
  - change ([] ++ [p])%list with [p] in H. rewrite spine_cons in H.
    destruct H as (Ha & Hp & addrs_a & front & c & subs & Hn_a & -> & Hfront & Hfocus).
    simpl in Hfocus. destruct Hfocus as (_ & _ & Hlen & saddrs & Hn_p & Hsubs).
    exists c, saddrs. split; [exact Hn_p|].
    destruct subs as [|sub [|sub' subs]]; [| |simpl in Hlen; lia].
    + (* no sublist yet *)
      destruct saddrs as [|? ?]; [|contradiction]. simpl ensure_sublist.
      set (s1 := update (s ++ [ListObject []])%list p (EntryObject c [length s])).
      assert (Hlen1 : length s1 = S (length s)).
      { unfold s1. rewrite length_update, length_app. simpl. lia. }
      assert (Hpl : nth_error s1 (length s) = Some (ListObject [])).
      { unfold s1. rewrite nth_error_update_ne by lia.
        rewrite nth_error_app2 by lia. rewrite Nat.sub_diag. reflexivity. }
      assert (Hs1 : forall x, x <> p -> x < length s -> nth_error s1 x = nth_error s x).
      { intros x Hx Hx'. unfold s1. rewrite nth_error_update_ne by congruence.
        apply nth_error_app1. exact Hx'. }
      exists (length s), []. split; [reflexivity|]. split; [exact Hpl|].
      cbv zeta. simpl fst.
      assert (Hsp : spine (push_entry s1 (length s) [] content) (S (length s1)) [length s1]
                          (length s) ([] ++ [ListEntry content [] None])%list).
      { apply push_spine with (hi := length s1); [|lia|exact Hpl].
        simpl. repeat split; try lia. exists []. split; [exact Hpl|]. simpl. lia. }
      rewrite length_push_entry.
      change (update (s ++ [ListObject []])%list p (EntryObject c [length s])) with s1.
      split; [|split; [|lia]].
      * change ([] ++ [p; length s1])%list with [p; length s1]. rewrite spine_cons.
        split; [exact Ha|]. split; [lia|].
        exists addrs_a, front, c, [List [ListEntry content [] None] true (Int 1)].
        split; [|split; [|split]].
        -- rewrite nth_error_push_entry_other by lia. rewrite Hs1 by lia. exact Hn_a.
        -- apply insert_entry_snoc_nil.
        -- eapply reps_frame; [apply Forall_forall; intros t _; apply rep_frame | exact Hfront |].
           intros x Hx Hx'. rewrite nth_error_push_entry_other by lia. apply Hs1; lia.
        -- exists (length s), [ListEntry content [] None]. split; [|split; [lia|split; [reflexivity|]]].
           ++ rewrite nth_error_push_entry_other by lia.
              unfold s1. apply nth_error_update_eq. rewrite length_app. simpl. lia.
           ++ exact Hsp.
      * intros x _ Hx. rewrite nth_error_push_entry_other by lia. apply Hs1; lia.
    + (* the sublist of the entry *)
      destruct saddrs as [|l [|? ?]]; try contradiction.
      2:{ simpl in Hsubs. destruct Hsubs as (_ & ? & _ & []). }
      simpl in Hsubs. destruct Hsubs as (Hl & mid & (Hlist & Hrep) & Hmid).
      destruct sub; try discriminate. pose proof Hrep as Hrep'.
      simpl in Hrep'. destruct Hrep' as (-> & -> & Hlm & addrs_l & Hn_l & _).
      simpl ensure_sublist. exists l, addrs_l. split; [reflexivity|]. split; [exact Hn_l|].
      cbv zeta. simpl fst.
      pose proof (push_spine s nodes l mid addrs_l content Hrep ltac:(lia) Hn_l) as Hsp.
      rewrite length_push_entry. split; [|split; [|lia]].
      * change ([] ++ [p; length s])%list with [p; length s]. rewrite spine_cons.
        split; [exact Ha|]. split; [lia|].
        exists addrs_a, front, c, [List (nodes ++ [ListEntry content [] None])%list true (Int 1)].
        split; [|split; [|split]].
        -- rewrite nth_error_push_entry_other by lia. exact Hn_a.
        -- apply (insert_entry_snoc 0).
        -- eapply reps_frame; [apply Forall_forall; intros t _; apply rep_frame | exact Hfront |].
           intros x Hx Hx'. apply nth_error_push_entry_other; lia.
        -- exists l, (nodes ++ [ListEntry content [] None])%list.
           split; [|split; [lia|split; [reflexivity|exact Hsp]]].
           rewrite nth_error_push_entry_other by lia. exact Hn_p.
      * intros x _ Hx. apply nth_error_push_entry_other; lia.
  - rewrite <- app_comm_cons, spine_cons in H.
    destruct H as (Ha & He & addrs_a & front & c0 & subs0 & Hn_a & -> & Hfront & Hfocus).
    destruct (pre ++ [p])%list as [|x cur'] eqn:E; [destruct pre; discriminate|].
    destruct Hfocus as (l & es_l & Hn_e & Hel & -> & Hsp). rewrite <- E in Hsp.
    destruct (IH p l es_l s Hsp) as (c & subs & Hn_p & pl & addrs & Hlast & Hn_pl & Hres).
    exists c, subs. split; [exact Hn_p|]. exists pl, addrs. split; [exact Hlast|].
    split; [exact Hn_pl|]. cbv zeta in *. destruct Hres as (Hsp' & Hag & Hlen).
    split; [|split; [|exact Hlen]].
    + rewrite <- app_comm_cons, spine_cons. split; [exact Ha|]. split; [lia|].
      exists addrs_a, front, c0, [List (insert_entry (S (length pre)) content es_l) true (Int 1)].
      split; [|split; [|split]].
      * rewrite Hag by lia. exact Hn_a.
      * apply insert_entry_snoc.
      * eapply reps_frame; [apply Forall_forall; intros t _; apply rep_frame | exact Hfront |].
        intros x' Hx Hx'. apply Hag; lia.
      * assert (E' : exists y rest,
                   (pre ++ [p; length (fst (ensure_sublist s p c subs))])%list = y :: rest).
        { destruct pre; simpl; eauto. }
        destruct E' as (y & rest & E'). rewrite E' in Hsp' |- *.
        exists l, (insert_entry (S (length pre)) content es_l).
        split; [|split; [exact Hel|split; [reflexivity|exact Hsp']]].
        rewrite Hag by lia. exact Hn_e.
    + eapply agree_sub; [exact Hag | lia | lia].
Qed.

(** [while (!current[level - 1]) level--;] stops at the level itself or
    at the length of [current], whichever is less. *)
Lemma settle_spec (current : list address) (level : Z) :
  (1 <= level)%Z -> current <> [] ->
  settle current (Z.to_nat level) level = Ok (Z.min level (Z.of_nat (length current))).
Proof.
  intros Hl Hc.
  assert (H : forall fuel lvl, (1 <= lvl)%Z -> fuel = Z.to_nat lvl ->
                settle current fuel lvl = Ok (Z.min lvl (Z.of_nat (length current)))).
  { induction fuel as [|fuel IH]; intros lvl Hlvl Hf; [lia|].
    simpl. unfold index. destruct (lvl - 1 <? 0)%Z eqn:E; [lia|].
    destruct (nth_error current (Z.to_nat (lvl - 1))) eqn:En.
    - f_equal. assert (Z.to_nat (lvl - 1) < length current) by (apply nth_error_Some; congruence). lia.
    - apply nth_error_None in En.
      assert (length current <> 0) by (destruct current; simpl; congruence).
      rewrite IH by lia. f_equal. lia. }
  apply H; [exact Hl | reflexivity].
Qed.

Lemma firstn_snoc {A} (l : list A) (n : nat) (x : A) :
  nth_error l n = Some x -> firstn (S n) l = (firstn n l ++ [x])%list.
Proof.
  revert n. induction l as [|y l IH]; intros [|n] H; simpl in *; try discriminate.
  - injection H as ->. reflexivity.
  - rewrite (IH n H). reflexivity.
Qed.

Lemma last_entry_push (s : store) (a : address) (addrs : list address) (c : list node) :
  a < length s ->
  last_entry (push_entry s a addrs c) a = Ok (length s).
Proof.
  intros Ha. unfold last_entry, push_entry.
  rewrite nth_error_update_eq by (rewrite length_app; simpl; lia).
  rewrite last_map_Some. reflexivity.
Qed.

(** One heading: the callback of [headings.forEach] inserts the entry of
    the heading at the depth of its level and leaves in [current] the
    addresses down to the new entry. *)
Lemma as_list_step_spec (allow_h1 : bool) (nodes : list node) (lv id : string) (z : Z)
    (s : store) (cur : list address) (es : list node) :
  spine s (length s) cur 0 es ->
  parse_level lv = Some z ->
  get_id (Heading nodes lv) = Ok id ->
  (1 <= (if allow_h1 then z else z - 1))%Z ->
  let d := depth_after (length cur) (Z.to_nat (if allow_h1 then z else z - 1)) in
  exists s' new,
    as_list_step allow_h1 0 (s, 0 :: cur) (Heading nodes lv)
    = Ok (s', 0 :: firstn d cur ++ [new])
    /\ spine s' (length s') (firstn d cur ++ [new]) 0 (insert_entry d (entry_content id nodes) es).
Proof.
  intros Hsp Hlv Hid Hz d.
  set (level := if allow_h1 then z else (z - 1)%Z) in *.
  assert (Hd : d <= length cur) by (unfold d, depth_after; lia).
  assert (HL : Z.min level (Z.of_nat (length (0 :: cur))) = Z.of_nat (S d)).
  { unfold d, depth_after. change (length (0 :: cur)) with (S (length cur)). lia. }
  unfold as_list_step. rewrite Hlv. fold level.
  assert (Hsettle : (if negb (level =? 1)%Z then settle (0 :: cur) (Z.to_nat level) level
                     else Ok level) = Ok (Z.of_nat (S d))).
  { destruct (level =? 1)%Z eqn:E; cbv [negb].
    - f_equal. apply Z.eqb_eq in E. rewrite <- HL.
      change (length (0 :: cur)) with (S (length cur)). lia.
    - rewrite <- HL. apply settle_spec; [lia | discriminate]. }
  rewrite Hsettle. cbn [bind].
  destruct d as [|d'] eqn:Ed.
  - (* the heading goes to the root list *)
    change (Z.of_nat 1 =? 1)%Z with true. cbv iota.
    pose proof (spine_rep _ _ _ _ _ Hsp) as Hrep.
    pose proof Hrep as Hrep'. simpl in Hrep'.
    destruct Hrep' as (_ & _ & Hlt & addrs & Hn & _).
    rewrite (push_heading_eq s 0 addrs nodes lv id Hid Hn). cbn [bind].
    rewrite last_entry_push by lia. cbn [bind].
    exists (push_entry s 0 addrs (entry_content id nodes)), (length s).
    split; [reflexivity|]. rewrite length_push_entry.
    apply push_spine with (hi := length s); [exact Hrep | lia | exact Hn].
  - (* the heading goes below an entry of [current] *)
    assert (E1 : (Z.of_nat (S (S d')) =? 1)%Z = false) by (apply Z.eqb_neq; lia).
    rewrite E1. cbv iota.
    destruct (nth_error cur d') as [p|] eqn:Ep;
      [|apply nth_error_None in Ep; lia].
    cbv zeta.
    match goal with |- context [index ?c _] => remember c as current eqn:Ecur end.
    assert (Hfirst : firstn (S (S d')) current = 0 :: firstn (S d') cur).
    { rewrite Ecur. destruct (_ >? _)%Z.
      - rewrite Nat2Z.id, firstn_firstn, Nat.min_id. reflexivity.
      - reflexivity. }
    assert (Hskip : skipn (S (S (S d'))) current = []).
    { rewrite Ecur.
      match goal with |- context [(?x >? ?y)%Z] => destruct (Z.gtb_spec x y) as [E|E] end.
      - apply skipn_all2. rewrite Nat2Z.id, length_firstn. lia.
      - apply skipn_all2. change (length (0 :: cur)) with (S (length cur)) in *. lia. }
    assert (Hparent : index current (Z.of_nat (S (S d')) - 1) = Some p).
    { unfold index.
      match goal with |- context [(?x <? ?y)%Z] => destruct (Z.ltb_spec x y) as [E|E] end; [lia|].
      replace (Z.to_nat (Z.of_nat (S (S d')) - 1)) with (S d') by lia.
      rewrite Ecur. destruct (_ >? _)%Z.
      - rewrite Nat2Z.id. rewrite nth_error_firstn.
        destruct (S d' <? S (S d'))%nat eqn:E'; [exact Ep | apply Nat.ltb_ge in E'; lia].
      - exact Ep. }
    rewrite Hparent.
    assert (Hcur : firstn (S d') cur = (firstn d' cur ++ [p])%list)
      by (apply firstn_snoc; exact Ep).
    assert (Hsp' : spine s (length s) (firstn d' cur ++ [p]) 0 es).
    { rewrite <- Hcur. apply spine_prefix with (cur2 := skipn (S d') cur).
      rewrite firstn_skipn. exact Hsp. }
    destruct (insert_spine (entry_content id nodes) _ _ _ _ _ Hsp')
      as (c & subs & Hn_p & pl & addrs & Hlast & Hn_pl & Hres).
    rewrite Hn_p. destruct (ensure_sublist s p c subs) as [s1 subs1] eqn:Ee.
    simpl fst in *. simpl snd in *. rewrite Hlast.
    rewrite (push_heading_eq s1 pl addrs nodes lv id Hid Hn_pl). cbn [bind].
    assert (Hpl : pl < length s1) by (apply nth_error_Some; congruence).
    rewrite last_entry_push by exact Hpl. cbn [bind].
    cbv zeta in Hres. destruct Hres as (Hspine & _ & _).
    exists (push_entry s1 pl addrs (entry_content id nodes)), (length s1).
    split.
    + f_equal. f_equal. unfold assign. rewrite Nat2Z.id, Hfirst, Hskip, Hcur.
      simpl. rewrite <- app_assoc. reflexivity.
    + rewrite Hcur, <- app_assoc. simpl.
      rewrite length_firstn, Nat.min_l in Hspine by lia. exact Hspine.
Qed.


(** [parseInt(level[1])] on the levels [h1] to [h6]. *)
Lemma valid_level_parse (level : string) :
  existsb (String.eqb level) ["h1"; "h2"; "h3"; "h4"; "h5"; "h6"] = true ->
  exists z, parse_level level = Some z /\ (1 <= z <= 6)%Z
            /\ (z = 1%Z <-> String.eqb level "h1" = true).
Proof.
  intros H. apply existsb_exists in H. destruct H as (x & Hin & Hx).
  apply String.eqb_eq in Hx. subst x.
  simpl in Hin.
  repeat (destruct Hin as [<-|Hin];
          [eexists; split; [reflexivity|]; vm_compute; intuition discriminate|]).
  contradiction.
Qed.

(** All the headings. *)
Lemma as_list_loop_spec (allow_h1 : bool) (headings : list node) :
  Forall (toc_ok allow_h1) headings ->
  forall s cur es,
    spine s (length s) cur 0 es ->
    exists s' cur',
      as_list_loop allow_h1 0 (s, 0 :: cur) headings = Ok (s', 0 :: cur')
      /\ spine s' (length s') cur' 0
               (build es (length cur) (map (item allow_h1) headings)).
Proof.
  induction 1 as [|h hs [Hready Hlevel] _ IH]; intros s cur es Hsp.
  - exists s, cur. split; [reflexivity | exact Hsp].
  - destruct h; try discriminate. unfold ready in Hready.
    apply andb_prop in Hready. destruct Hready as [Hvalid Hid].
    destruct (valid_level_parse _ Hvalid) as (z & Hz & Hrange & _).
    destruct (get_id (Heading nodes level)) as [id| |] eqn:Eid; try discriminate.
    unfold heading_level in Hlevel. rewrite Hz in Hlevel.
    assert (Hz' : (1 <= (if allow_h1 then z else z - 1))%Z) by lia.
    destruct (as_list_step_spec allow_h1 nodes level id z s cur es Hsp Hz Eid Hz')
      as (s' & new & Hstep & Hsp').
    cbv zeta in Hstep, Hsp'.
    set (d := depth_after (length cur) (Z.to_nat (if allow_h1 then z else (z - 1)%Z))) in *.
    destruct (IH s' (firstn d cur ++ [new])%list _ Hsp') as (s'' & cur'' & Hloop & Hsp'').
    exists s'', cur''. split.
    + cbn [as_list_loop]. rewrite Hstep. cbn [bind]. exact Hloop.
    + cbn [map build]. unfold item at 1, heading_level, heading_id.
      rewrite Hz, Eid. cbn [get_nodes]. fold d.

      replace (length (firstn d cur ++ [new])) with (S d) in Hsp''.
      * exact Hsp''.
      * rewrite length_app, length_firstn. simpl. unfold d, depth_after. lia.
Qed.

(** [as_list] returns the table of contents of the document. *)
Lemma as_list_table (doc : MDDocument) :
  Forall (toc_ok (toc_allow_h1 doc)) (toc_headings doc) ->
  as_list doc = Ok (table doc).
Proof.
  intros H.
  destruct (as_list_loop_spec _ _ H [ListObject []] [] [])
    as (s' & cur' & Hloop & Hsp).
  { simpl. repeat split; try lia. exists []. split; [reflexivity|]. simpl. lia. }
  match type of Hloop with
  | ?l = _ =>
      change (bind l (fun st => match reify (S (length (fst st))) (fst st) 0 with
                                | Some n => Ok n
                                | None => Diverge
                                end) = Ok (table doc))
  end.
  rewrite Hloop. cbn [bind fst].
  rewrite (rep_reify s' _ 0 (length s') (S (length s')) (spine_rep _ _ _ _ _ Hsp)) by lia.
  reflexivity.
Qed.


Lemma concat_map_snoc {A B} (f : A -> list B) (l : list A) (x : A) :
  concat (map f (l ++ [x])) = (concat (map f l) ++ f x)%list.
Proof. rewrite map_app, concat_app. simpl. rewrite app_nil_r. reflexivity. Qed.

(** *** The outline of the table *)

Lemma deep_mono (d : nat) : forall es, deep (S d) es -> deep d es.
Proof.
  induction d as [|d IH]; intros es H; [exact I|].
  destruct H as (front & c & subs & ck & -> & Hsubs).
  exists front, c, subs, ck. split; [reflexivity|].
  destruct subs as [|x subs]; [discriminate|].
  destruct Hsubs as (sfront & es' & o & st & E & Hdeep).
  exists sfront, es', o, st. split; [exact E | apply IH; exact Hdeep].
Qed.

Lemma deep_le (d d' : nat) (es : list node) : deep d es -> d' <= d -> deep d' es.
Proof.
  intros H Hle. induction Hle as [|d Hle IH]; [exact H|].
  apply IH. apply deep_mono. exact H.
Qed.


(** After an insertion at depth [d] the last entries go [d + 1] levels
    down. *)
Lemma insert_deep (content : list node) (d : nat) :
  forall es, deep d es -> deep (S d) (insert_entry d content es).
Proof.
  induction d as [|d IH]; intros es H.
  - exists es, content, [], None. split; reflexivity.
  - destruct H as (front & c & subs & ck & -> & Hsubs).
    cbn [insert_entry]. rewrite on_last_snoc.
    eexists front, c, _, ck. split; [reflexivity|].
    destruct subs as [|x subs].
    + subst d. exists [], [ListEntry content [] None], true, (Int 1). split; [reflexivity|].
      exists [], content, [], None. split; reflexivity.
    + destruct Hsubs as (sfront & es' & o & st & E & Hdeep). rewrite E.
      rewrite on_last_snoc.
      assert (Hne : exists y rest, (sfront ++ [List (insert_entry d content es') o st])%list = y :: rest)
        by (destruct sfront; simpl; eauto).
      destruct Hne as (y & rest & Hne). rewrite Hne. rewrite <- Hne.
      exists sfront, (insert_entry d content es'), o, st. split; [reflexivity|].
      apply IH. exact Hdeep.
Qed.

(** An insertion adds one entry at the end of the outline, at its depth. *)
Lemma outline_insert (content : list node) (d : nat) :
  forall es b,
    deep d es ->
    concat (map (outline b) (insert_entry d content es))
    = (concat (map (outline b) es) ++ [(b + d, content)])%list.
Proof.
  induction d as [|d IH]; intros es b H.
  - cbn [insert_entry]. rewrite concat_map_snoc. simpl. rewrite Nat.add_0_r. reflexivity.
  - destruct H as (front & c & subs & ck & -> & Hsubs).
    cbn [insert_entry]. rewrite on_last_snoc, !concat_map_snoc.
    rewrite <- app_assoc. f_equal. cbn [outline].
    destruct subs as [|x subs].
    + subst d. simpl. rewrite Nat.add_1_r. reflexivity.
    + destruct Hsubs as (sfront & es' & o & st & E & Hdeep). rewrite E.
      rewrite on_last_snoc, !concat_map_snoc. cbn [outline].
      rewrite (IH es' (S b) Hdeep). simpl.
      rewrite <- app_assoc. rewrite Nat.add_succ_r. reflexivity.
Qed.

Lemma build_outline (items : list (nat * list node)) :
  forall es k,
    deep k es ->
    concat (map (outline 0) (build es k items))
    = (concat (map (outline 0) es) ++ depths k items)%list.
Proof.
  induction items as [|[level content] items IH]; intros es k H.
  - simpl. rewrite app_nil_r. reflexivity.
  - cbn [build depths].
    assert (Hd : deep (depth_after k level) es).
    { eapply deep_le; [exact H|]. unfold depth_after. lia. }
    rewrite IH by (apply insert_deep; exact Hd).
    rewrite outline_insert by exact Hd. rewrite <- app_assoc. reflexivity.
Qed.

(** The entries of the table of contents, in document order, each at the
    depth its level gives it. *)
Lemma table_outline (doc : MDDocument) :
  outline 0 (table doc) = depths 0 (items doc).
Proof. unfold table. cbn [outline]. rewrite build_outline by exact I. reflexivity. Qed.

(** *** The shape of the table and its rendering *)

Lemma forallb_on_last {A} (P : A -> bool) (f : A -> A) (l : list A) :
  forallb P l = true -> (forall x, P x = true -> P (f x) = true) ->
  forallb P (on_last f l) = true.
Proof.
  intros H Hf. induction l as [|x [|y l] IH]; [reflexivity| |].
  - simpl in *. apply andb_prop in H. rewrite (Hf x) by apply H. reflexivity.
  - change (on_last f (x :: y :: l)) with (x :: on_last f (y :: l)).
    change (forallb P (x :: y :: l)) with (P x && forallb P (y :: l)) in H.
    apply andb_prop in H. destruct H as [Hx Hl].
    change (P x && forallb P (on_last f (y :: l)) = true).
    rewrite Hx, IH by exact Hl. reflexivity.
Qed.

(** The table of contents has the shape [shaped]. *)
Lemma insert_shaped (content : list node) (d : nat) :
  forallb is_paragraph content = true ->
  forall es, forallb (shaped true) es = true ->
             forallb (shaped true) (insert_entry d content es) = true.
Proof.
  intros Hc. induction d as [|d IH]; intros es H.
  - cbn [insert_entry]. rewrite forallb_app, H. simpl. rewrite Hc. reflexivity.
  - cbn [insert_entry]. apply forallb_on_last; [exact H|].
    intros [] Hx; try discriminate. simpl in Hx. apply andb_prop in Hx. destruct Hx as [Hn Hs].
    cbn [shaped]. rewrite Hn. simpl.
    destruct sublists as [|x sublists].
    + simpl. rewrite IH by reflexivity. reflexivity.
    + apply forallb_on_last; [exact Hs|].
      intros [] Hy; try discriminate. cbn [shaped] in *. apply IH. exact Hy.
Qed.

Lemma build_shaped (items : list (nat * list node)) :
  Forall (fun i => forallb is_paragraph (snd i) = true) items ->
  forall es k, forallb (shaped true) es = true ->
               forallb (shaped true) (build es k items) = true.
Proof.
  induction 1 as [|[level content] items Hc _ IH]; intros es k H; [exact H|].
  cbn [build]. apply IH. apply insert_shaped; assumption.
Qed.

Lemma table_shaped (doc : MDDocument) : shaped false (table doc) = true.
Proof.
  unfold table. cbn [shaped]. apply build_shaped; [|reflexivity].
  unfold items. apply Forall_map. apply Forall_forall. intros h _. reflexivity.
Qed.

Section Filler.

Variable lib : library.
Variable markdown : MDDocument.
Variable o : options.

(** [forEach] with two callbacks that agree on the elements. *)
Lemma forEachS_ext {A B} (f g : A -> bool -> outcome (B * bool)) (l : list A) :
  Forall (fun x => forall st, f x st = g x st) l ->
  forall st, forEachS f l st = forEachS g l st.
Proof.
  induction 1 as [|x l Hx _ IH]; intros st; [reflexivity|].
  rewrite !forEachS_cons, Hx. destruct (g x st) as [y| |]; cbn [bind]; try reflexivity.
  rewrite IH. reflexivity.
Qed.

(** The equations of [render_list] and of its callback. *)
Lemma render_list_List (f : bool -> outcome (html.node * bool)) (entries : list node)
    (ordered : bool) (start : number) (level : nat) (st : bool) :
  render_list lib markdown o f (List entries ordered start) level st
  = (lis <- forEachS (render_entry lib markdown o f (if (3 <? level)%nat then 3%nat else level))
                     entries st ;;
     Ok (html.append_children (list_element (List entries ordered start)) (fst lis), snd lis)).
Proof. reflexivity. Qed.

Lemma render_entry_ListEntry (f : bool -> outcome (html.node * bool)) (blocks sublists : list node)
    (checked : option bool) (level : nat) (st : bool) :
  render_entry lib markdown o f level (ListEntry blocks sublists checked) st
  = (children <- forEachS (render_block lib markdown o f) blocks true ;;
     subs <- forEachS (fun sublist st => render_list lib markdown o f sublist (S level) st)
                      sublists false ;;
     Ok (html.Obj (html.append_children
                     (html.append_children (entry_element o (ListEntry blocks sublists checked))
                                           (concat (fst children)))
                     (map html.Obj (fst subs))),
         snd subs)).
Proof. reflexivity. Qed.

(** Rendering a list of the shape of a table of contents never renders a
    table of contents. *)
Lemma shaped_render (f g : bool -> outcome (html.node * bool)) (n : node) :
  (shaped false n = true ->
   forall level st, render_list lib markdown o f n level st
                    = render_list lib markdown o g n level st)
  /\ (shaped true n = true ->
      forall level st, render_entry lib markdown o f level n st
                       = render_entry lib markdown o g level n st).
Proof.
  nested_induction n; split; intros Hs; try discriminate; intros level st.
  - cbn [shaped] in Hs. rewrite !render_list_List.
    rewrite (forEachS_ext (render_entry lib markdown o f (if (3 <? level)%nat then 3 else level))
                          (render_entry lib markdown o g (if (3 <? level)%nat then 3 else level))
                          nodes); [reflexivity|].
    rewrite forallb_forall in Hs. rewrite Forall_forall in *.
    intros x Hin st'. apply H; [exact Hin|]. apply Hs. exact Hin.
  - cbn [shaped] in Hs. apply andb_prop in Hs. destruct Hs as [Hc Hsub].
    rewrite !render_entry_ListEntry.
    rewrite (forEachS_ext (render_block lib markdown o f) (render_block lib markdown o g) nodes).
    2:{ rewrite forallb_forall in Hc. rewrite Forall_forall. intros x Hin st'.
        specialize (Hc x Hin). destruct x; try discriminate. reflexivity. }
    rewrite (forEachS_ext (fun sublist st0 => render_list lib markdown o f sublist (S level) st0)
                          (fun sublist st0 => render_list lib markdown o g sublist (S level) st0)
                          sublists); [reflexivity|].
    rewrite forallb_forall in Hsub. rewrite Forall_forall in *.
    intros x Hin st'. apply H0; [exact Hin|]. apply Hsub. exact Hin.
Qed.

End Filler.

(** The headings listed have a level of at least one in the table: an H1
    is listed only when H1 headings take part. *)
Lemma ready_toc_ok (doc : MDDocument) :
  Forall (fun heading => ready heading = true) (filter instanceof_Heading (blocks doc)) ->
  Forall (toc_ok (toc_allow_h1 doc)) (toc_headings doc).
Proof.
  intros H. unfold toc_headings. rewrite Forall_forall in *.
  intros h Hin.
  assert (Hh : ready h = true /\ (toc_allow_h1 doc = false -> is_h1 h = false)).
  { destruct (toc_allow_h1 doc).
    - split; [apply H; exact Hin | discriminate].
    - apply filter_In in Hin. destruct Hin as [Hin Hn]. split; [apply H; exact Hin|].
      intros _. destruct (is_h1 h); [discriminate | reflexivity]. }
  destruct Hh as [Hready Hh1]. split; [exact Hready|].
  destruct h; try discriminate. unfold ready in Hready.
  apply andb_prop in Hready. destruct Hready as [Hvalid _].
  destruct (valid_level_parse _ Hvalid) as (z & Hz & Hrange & Hone).
  unfold heading_level. rewrite Hz.
  destruct (toc_allow_h1 doc); [lia|].
  specialize (Hh1 eq_refl). simpl in Hh1.
  assert (z <> 1%Z) by (intros E; apply Hone in E; congruence). lia.
Qed.


(** C2, the example as the code has it: in the document with the blocks
    [# A], [## B] and the directive there is one H1 heading only, so the
    table of contents leaves it out; [as_list] returns one entry, linking to
    [#b], with no sublist, and the document renders with an [ol] of that one
    entry. *)
Lemma toc_single_h1_omitted :
  as_list sample
  = Ok (List [ListEntry [Paragraph [Link [Text "B"] {| url := Some "#b"; tooltip := None |} ""]]
                        [] None] true (Int 1))
  /\ render_to_html text_only sample no_options
     = Ok (html.Element "div" [] 
             [html.Element "h1" [("id", html.StringValue "a")] [html.Text "A" html.NORMAL] [];
              html.Element "h2" [("id", html.StringValue "b")] [html.Text "B" html.NORMAL] [];
              html.Element "ol" []
                [html.Element "li" []
                   [html.Element "a" [("href", html.StringValue "#b")]
                                 [html.Text "B" html.NORMAL] []] []] []] []).
Proof. split; vm_compute; reflexivity. Qed.

(** C2: for a document whose heading blocks have a level from [h1] to [h6]
    and an identifier, [as_list] returns the list [table doc]; rendering the
    directive is rendering that list, and never the directive again.  The
    entries of the list, read in document order, are the headings taken in
    document order, each a link to the identifier of its heading, at the
    depth its level gives it and at most one below the entry before.  H1
    headings take part when the document has more than one of them and then
    go to the top of the list; otherwise they are left out and the other
    headings are taken one level down, H2 to the top. *)
Theorem table_of_contents (lib : library) (doc : MDDocument) (o : options)
    (nodes : list node) (st : bool) (f : bool -> outcome (html.node * bool)) :
  Forall (fun heading => ready heading = true) (filter instanceof_Heading (blocks doc)) ->
  let headings := filter instanceof_Heading (blocks doc) in
  let allow_h1 := toc_allow_h1 doc in
  as_list doc = Ok (table doc)
  /\ render_block lib doc o (render_toc lib doc o) (TableOfContents nodes) st
     = (html_list <- render_list lib doc o f (table doc) 0 st ;;
        Ok ([html.Obj (fst html_list)], snd html_list))
  /\ outline 0 (table doc) = depths 0 (map (item allow_h1) (toc_headings doc))
  /\ (allow_h1 = true <-> 1 < length (filter is_h1 headings))
  /\ toc_headings doc
     = (if allow_h1 then headings else filter (fun h => negb (is_h1 h)) headings)
  /\ Forall (fun h =>
               match h with
               | Heading _ level =>
                   exists z, parse_level level = Some z
                             /\ Z.of_nat (heading_level allow_h1 h)
                                = (if allow_h1 then z else z - 1)%Z
                             /\ 1 <= heading_level allow_h1 h
               | _ => False
               end) (toc_headings doc)
  /\ (forall k, depth_after k 1 = 0).
Proof.
  intros Hready headings allow_h1.
  pose proof (as_list_table doc (ready_toc_ok doc Hready)) as Hlist.
  split; [exact Hlist|].
  split.
  { change (render_block lib doc o (render_toc lib doc o) (TableOfContents nodes) st)
      with (html_list <- render_toc lib doc o st ;;
            Ok ([html.Obj (fst html_list)], snd html_list)).
    unfold render_toc. rewrite Hlist. cbn [bind].
    rewrite (proj1 (shaped_render lib doc o (fun _ => Diverge) f (table doc))
                   (table_shaped doc)).
    reflexivity. }
  split; [exact (table_outline doc)|].
  split; [apply Nat.ltb_lt|].
  split; [reflexivity|].
  split; [|intros k; unfold depth_after; lia].
  pose proof (ready_toc_ok doc Hready) as Hok.
  rewrite Forall_forall in *. intros h Hin.
  destruct (Hok h Hin) as [Hr Hl].
  destruct h; try discriminate. unfold ready in Hr.
  apply andb_prop in Hr. destruct Hr as [Hvalid _].
  destruct (valid_level_parse _ Hvalid) as (z & Hz & Hrange & _).
  exists z. split; [exact Hz|]. split; [|exact Hl].
  fold allow_h1 in Hl. unfold heading_level in *. rewrite Hz in *.
  destruct allow_h1; lia.
Qed.

Lemma table_of_contents_witness :
  Forall (fun heading => ready heading = true) (filter instanceof_Heading (blocks sample))
  /\ as_list sample = Ok (table sample).
Proof.
  assert (H : Forall (fun heading => ready heading = true)
                     (filter instanceof_Heading (blocks sample)))
    by (simpl; repeat constructor).
  split; [exact H|].
  apply (table_of_contents text_only sample (merge_default_options no_options) [] false
                           (fun _ => Diverge) H).
Defined.

(** ** Rendering succeeds *)

Section Totality.

Variable lib : library.
Variable markdown : MDDocument.
Variable o : options.
Hypothesis Hcallbacks : spec.callbacks_return o.
Hypothesis Hmarkup : inline_html_enable o = false \/ spec.tame_markup lib.

(** [sanitize_raw] returns on tame nodes. *)
Lemma sanitize_raw_tame (n : html.node) :
  spec.tame n = true -> exists r, sanitize_raw n = Ok r.
Proof.
  destruct n as [tag attrs children props|text mode|text]; try (eexists; reflexivity).
  unfold spec.tame, sanitize_raw. intros Htame.
  assert (H : exists kept,
             filterM (fun attribute =>
                        everywhere <- rule_includes (ATTRIBUTES_RULES "*") (fst attribute) ;;
                        if everywhere then Ok true
                        else match ATTRIBUTES_RULES tag with
                             | NoRule => Ok false
                             | found => rule_includes found (fst attribute)
                             end) attrs = Ok kept).
  { induction attrs as [|[name value] attrs IH]; [eexists; reflexivity|].
    assert (Hrest : negb (includes_string Object_prototype tag)
                    || forallb (fun attribute =>
                                  includes_string
                                    ["align"; "aria-hidden"; "class"; "id"; "lang"; "style"; "title"]
                                    (fst attribute)) attrs = true).
    { destruct (includes_string Object_prototype tag); [|reflexivity].
      cbn [negb orb forallb] in Htame |- *. apply andb_prop in Htame. apply Htame. }
    destruct (IH Hrest) as [kept Ekept].
    cbn [filterM]. fold (@filterM (string * html.attr_value)). rewrite Ekept.
    change (rule_includes (ATTRIBUTES_RULES "*") (fst (name, value)))
      with (Ok (includes_string
                  ["align"; "aria-hidden"; "class"; "id"; "lang"; "style"; "title"] name)).
    cbn [bind].
    destruct (includes_string _ name) eqn:Eglobal; [eexists; reflexivity|].
    destruct (includes_string Object_prototype tag) eqn:Etag.
    - cbn [negb orb forallb fst] in Htame. rewrite Eglobal in Htame. discriminate.
    - unfold ATTRIBUTES_RULES. rewrite Etag.
      destruct (String.eqb tag "*"); [eexists; reflexivity|].
      destruct (String.eqb tag "img"); [eexists; reflexivity|].
      destruct (String.eqb tag "a"); eexists; reflexivity. }
  destruct H as [kept E]. rewrite E. eexists; reflexivity.
Qed.

(** The nodes of a serializable element serialize. *)
Lemma toString_children (nodes : list node) :
  forallb spec.serializable nodes = true -> exists strs, mapM toString nodes = Ok strs.
Proof.
  intros Hs. apply children_total; [|exact Hs].
  apply Forall_forall. intros n _. apply toString_total.
Qed.

(** [render_latex] returns: the callback returns or throws, and its
    exception is caught. *)
Lemma render_latex_total (escape : bool) (node : node) :
  spec.serializable node = true ->
  exists r, render_latex lib o escape node = Ok r.
Proof.
  intros Hs. unfold render_latex.
  destruct (latex_render o) as [render|] eqn:Hrender.
  - destruct Hcallbacks as (_ & _ & _ & _ & Hlatex).
    specialize (Hlatex render Hrender node).
    destruct (render node) as [[text|element]| |]; [| | |contradiction].
    + destruct escape; simpl; [|eexists; reflexivity].
      destruct (parse_into_template lib (inl text)) as [|child [|]]; eexists; reflexivity.
    + destruct (html.instanceof_Element element); [eexists; reflexivity|].
      destruct (parse_into_template lib (inr element)) as [|child [|]]; eexists; reflexivity.
    + eexists; reflexivity.
  - destruct (proj1 (toString_total node Hs)) as [text E]. rewrite E.
    eexists; reflexivity.
Qed.

(** An image renders to one element, the one a spoiler hides. *)
Lemma image_singleton (allow escape : bool) (nodes : list node) (ref : Reference)
    (ref_name : string) (r : rendered) :
  render_inline_node lib markdown o allow escape (Image nodes ref ref_name) = Ok r ->
  exists x, r = [x].
Proof.
  simpl. destruct (mapM toString nodes); simpl; intros H; try discriminate.
  injection H as <-. eexists; reflexivity.
Qed.

Lemma inline_children (nodes : list node) :
  Forall (fun n => spec.serializable n = true ->
                   forall allow escape, exists r,
                       render_inline_node lib markdown o allow escape n = Ok r) nodes ->
  forallb spec.serializable nodes = true ->
  forall allow escape, exists ys,
      mapM (render_inline_node lib markdown o allow escape) nodes = Ok ys.
Proof.
  intros IH Hs allow escape.
  apply (mapM_ok _ (fun n => spec.serializable n = true)).
  - eapply Forall_impl; [|exact IH]. intros n Hn Hser. apply Hn. exact Hser.
  - apply forallb_Forall. exact Hs.
Qed.

Ltac inline_step :=
  match goal with
  | |- exists r, Ok _ = Ok r => eexists; reflexivity
  | IH : Forall _ ?nodes, Hs : forallb spec.serializable ?nodes = true
    |- context [mapM (render_inline_node _ _ _ ?a ?e) ?nodes] =>
      let ys := fresh "ys" in
      let E := fresh "E" in
      destruct (inline_children nodes IH Hs a e) as [ys E]; rewrite E; simpl
  | Hs : forallb spec.serializable ?nodes = true |- context [mapM toString ?nodes] =>
      let strs := fresh "strs" in
      let E := fresh "E" in
      destruct (toString_children nodes Hs) as [strs E]; rewrite E; simpl
  | |- context [if ?b then _ else _] => destruct b
  end.

(** Every node renders inline. *)
Lemma render_inline_node_total (n : node) :
  spec.serializable n = true ->
  forall allow escape, exists r, render_inline_node lib markdown o allow escape n = Ok r.
Proof.
  nested_induction n; intros Hs allow escape;
    try (destruct (render_latex_total escape _ Hs) as [element Hlatex]);
    simpl; simpl in Hs; try rewrite Hlatex;
    repeat inline_step.
  - destruct Hmarkup as [Hoff|[_ Hsanitizer]]; [discriminate|].
    destruct (Hsanitizer content (inline_html_disallowed_tags o) sanitize_raw sanitize_raw_tame)
      as [elements E].
    rewrite E. eexists; reflexivity.
  - destruct (emoji o) as [callback|] eqn:Hemoji.
    + apply (proj1 Hcallbacks callback Hemoji).
    + destruct skin_tone; eexists; reflexivity.
  - apply Hcallbacks.
  - destruct nodes as [|[] [|]]; try (eexists; reflexivity).
    simpl in E.
    destruct (mapM toString nodes); try discriminate. simpl in E.
    injection E as <-. eexists; reflexivity.
  - simpl. destruct element as [text|[]]; eexists; reflexivity.
  - simpl. destruct element as [text|[]]; eexists; reflexivity.
  - eexists; reflexivity.
Qed.

Lemma render_inline_total (nodes : list node) :
  forallb spec.serializable nodes = true ->
  forall escape allow, exists r, render_inline lib markdown o nodes escape allow = Ok r.
Proof.
  intros Hs escape allow. unfold render_inline.
  destruct (inline_children nodes) with (allow := allow) (escape := escape) as [ys E];
    [|exact Hs|rewrite E; eexists; reflexivity].
  apply Forall_forall. intros n _. apply render_inline_node_total.
Qed.


(** The nodes of an element, for the rows and cells of a table. *)
Lemma serializable_children (n : node) (l : list node) :
  spec.serializable n = true -> get_nodes n = Some l -> forallb spec.serializable l = true.
Proof.
  destruct n; simpl; intros Hs Hl; try discriminate; injection Hl as <-;
    repeat match goal with
           | H : _ && _ = true |- _ => apply andb_prop in H; destruct H
           end;
    try assumption; reflexivity.
Qed.

Lemma element_nodes (n : node) :
  instanceof_Element n = true -> exists l, get_nodes n = Some l.
Proof. destruct n; simpl; intros H; try discriminate; eexists; reflexivity. Qed.

(** [as_plain_text] and [get_id] return on plain nodes. *)
Lemma plain_children (nodes : list node) :
  Forall (fun n => spec.plain n = true -> instanceof_Element n = true ->
                   exists s, as_plain_text n = Ok s) nodes ->
  forallb spec.plain nodes = true ->
  exists strs,
    mapM (fun node => match node with
                      | Text c | Emoji c _ | InlineCode c | InlineLink c => Ok c
                      | _ => as_plain_text node
                      end) nodes = Ok strs.
Proof.
  intros IH Hp.
  apply (mapM_ok _ (fun n => spec.plain n = true)); [|apply forallb_Forall; exact Hp].
  eapply Forall_impl; [|exact IH].
  intros n Hn Hplain.
  destruct n; try (eexists; reflexivity); try discriminate; apply Hn; auto.
Qed.

Lemma as_plain_text_total (n : node) :
  spec.plain n = true -> instanceof_Element n = true -> exists s, as_plain_text n = Ok s.
Proof.
  nested_induction n; intros Hp He; try discriminate; simpl; simpl in Hp;
    try (eexists; reflexivity);
    match goal with
    | IH : Forall _ ?nodes |- context [mapM _ ?nodes] =>
        destruct (plain_children nodes IH Hp) as [strs E]; rewrite E; eexists; reflexivity
    end.
Qed.

Lemma get_id_total (nodes : list node) (level : string) :
  forallb spec.plain nodes = true -> exists id, get_id (Heading nodes level) = Ok id.
Proof.
  intros Hp. unfold get_id.
  destruct (as_plain_text_total (Heading nodes level) Hp eq_refl) as [text E].
  rewrite E. eexists; reflexivity.
Qed.

(** The rows of a table render. *)
Lemma render_table_cells_total (alignments : list TableAlignment) (data_type : string)
    (cells : list node) :
  forallb spec.serializable cells = true ->
  forallb instanceof_Element cells = true ->
  forall index, exists r,
      render_table_cells lib markdown o (Ok alignments) data_type index cells = Ok r.
Proof.
  induction cells as [|cell cells IH]; intros Hs He index; [eexists; reflexivity|].
  simpl in Hs, He. apply andb_prop in Hs. apply andb_prop in He.
  destruct Hs as [Hs Hss]. destruct He as [He Hes].
  destruct (element_nodes cell He) as [nodes Hnodes].
  destruct (render_inline_total nodes (serializable_children _ _ Hs Hnodes) true false)
    as [content Hcontent].
  destruct (IH Hss Hes (S index)) as [rest Hrest].
  simpl. rewrite Hnodes, Hcontent. simpl. rewrite Hrest. eexists; reflexivity.
Qed.

Lemma render_table_row_total (holder : list TableAlignment) (row : node) (head : bool) :
  spec.serializable row = true ->
  spec.table_row row = true ->
  exists r, render_table_row lib markdown o holder row head = Ok r.
Proof.
  intros Hs Hrow. unfold render_table_row.
  destruct row as [| | | | | | | | | | | | | | | | | | | | | | |cells table| |];
    try discriminate.
  assert (Htable : exists alignments,
             row_table holder (TableRow cells table) = Ok alignments /\
             forallb instanceof_Element cells = true).
  { destruct table; try discriminate; eexists; split; try reflexivity; exact Hrow. }
  destruct Htable as (alignments & -> & Hcells).
  cbn [get_nodes].
  destruct (render_table_cells_total alignments (if head then "th" else "td") cells
              (serializable_children _ _ Hs eq_refl) Hcells 0) as [r Hr].
  rewrite Hr. eexists; reflexivity.
Qed.


(** [forEach] returns when the callback returns on every element. *)
Lemma forEachS_ok {A B} (f : A -> bool -> outcome (B * bool)) (P : A -> Prop) (l : list A) :
  Forall (fun x => P x -> forall st, exists y, f x st = Ok y) l ->
  Forall P l ->
  forall st, exists ys, forEachS f l st = Ok ys.
Proof.
  induction 1 as [|x l Hx _ IH]; intros Hl st; [eexists; reflexivity|].
  inversion Hl as [|? ? Px Pl]; subst.
  destruct (Hx Px st) as [y Ey]. destruct (IH Pl (snd y)) as [ys Eys].
  rewrite forEachS_cons, Ey. cbn [bind]. rewrite Eys. eexists; reflexivity.
Qed.

Section Blocks.

Variable toc : bool -> outcome (html.node * bool).
Hypothesis Htoc : forall st, exists r, toc st = Ok r.

(** The equations of [render_block] on the blocks that hold blocks. *)
Lemma render_block_BlockQuote (nodes : list node) (st : bool) :
  render_block lib markdown o toc (BlockQuote nodes) st
  = (children <-
       forEachS (fun child st =>
                   if is_block child then render_block lib markdown o toc child st
                   else r <- render_inline lib markdown o [child] true true ;; Ok (r, st))
                nodes st ;;
     Ok ([html.Obj (html.append_children (html.create_element "blockquote")
                                         (concat (fst children)))],
         snd children)).
Proof. reflexivity. Qed.

Lemma render_block_List (entries : list node) (ordered : bool) (start : number) (st : bool) :
  render_block lib markdown o toc (List entries ordered start) st
  = (lis <- forEachS (render_entry lib markdown o toc 0) entries st ;;
     Ok ([html.Obj (html.append_children (list_element (List entries ordered start))
                                         (fst lis))], snd lis)).
Proof. reflexivity. Qed.

(** Every well-formed block renders, every entry as an entry and every
    list as a list, given that the table of contents does. *)
Lemma render_block_total (n : node) :
  spec.serializable n = true -> spec.renderable n = true ->
  (forall st, exists r, render_block lib markdown o toc n st = Ok r)
  /\ (instanceof_ListEntry n = true ->
      forall level st, exists r, render_entry lib markdown o toc level n st = Ok r)
  /\ (instanceof_List n = true ->
      forall level st, exists r, render_list lib markdown o toc n level st = Ok r).
Proof.
  nested_induction n; intros Hs Hr;
    (split; [intros st|split; intros Hi; try discriminate Hi; intros level st]).
  all: try (simpl; eexists; reflexivity).
  - (* Comment *)
    simpl. simpl in Hs. destruct (toString_children nodes Hs) as [strs E]. rewrite E.
    eexists; reflexivity.
  - (* Heading *)
    simpl in Hs, Hr. apply andb_prop in Hs. destruct Hs as [_ Hs].
    destruct (get_id_total nodes level Hr) as [id Hid].
    destruct (render_inline_total nodes Hs true false) as [content Hcontent].
    change (exists r, (id <- get_id (Heading nodes level) ;;
                       content <- render_inline lib markdown o nodes true false ;;
                       Ok ([html.Obj (html.append_children
                                        (html.attr (html.create_element level) "id"
                                                   (html.StringValue id)) content)], st))
                      = Ok r).
    rewrite Hid. cbn [bind]. rewrite Hcontent. eexists; reflexivity.
  - (* Paragraph *)
    simpl in Hs. destruct (render_inline_total nodes Hs true true) as [content Hcontent].
    simpl. rewrite Hcontent. destruct st; eexists; reflexivity.
  - (* BlockCode *)
    simpl.
    destruct (match language with Some l => negb (l =? "") | None => false end);
      [|destruct (negb (block_code_class_name o =? "")); eexists; reflexivity].
    destruct (block_code_highlighter o) as [highlighter|] eqn:Hh;
      [|destruct (negb (block_code_class_name o =? "")); eexists; reflexivity].
    destruct Hcallbacks as (_ & _ & Hhighlighter & _).
    destruct (Hhighlighter highlighter Hh code (default "" language)) as [children E].
    rewrite E. simpl. destruct (negb (block_code_class_name o =? "")); eexists; reflexivity.
  - (* BlockQuote *)
    rewrite render_block_BlockQuote. simpl in Hs, Hr.
    destruct (forEachS_ok
                (fun child st =>
                   if is_block child then render_block lib markdown o toc child st
                   else r <- render_inline lib markdown o [child] true true ;; Ok (r, st))
                (fun child => spec.serializable child = true /\ spec.renderable child = true)
                nodes) with (st := st) as [children E].
    + eapply Forall_impl; [|exact H]. intros child IH [Hcs Hcr] st'.
      destruct (is_block child); [apply IH; assumption|].
      destruct (render_inline_total [child]) with (escape := true) (allow := true) as [r Er].
      { simpl. rewrite Hcs. reflexivity. }
      rewrite Er. eexists; reflexivity.
    + apply Forall_forall. intros child Hin.
      rewrite forallb_forall in Hs, Hr. split; [apply Hs | apply Hr]; exact Hin.
    + rewrite E. eexists; reflexivity.
  - (* List, as a block *)
    rewrite render_block_List. simpl in Hs, Hr.
    destruct (forEachS_ok (render_entry lib markdown o toc 0)
                (fun entry => spec.serializable entry = true
                              /\ instanceof_ListEntry entry && spec.renderable entry = true)
                nodes) with (st := st) as [lis E].
    + eapply Forall_impl; [|exact H]. intros entry IH [Hes Her] st'.
      apply andb_prop in Her. destruct Her as [Hentry Her].
      apply IH; assumption.
    + apply Forall_forall. intros entry Hin.
      rewrite forallb_forall in Hs, Hr. split; [apply Hs | apply Hr]; exact Hin.
    + rewrite E. eexists; reflexivity.
  - (* List *)
    rewrite render_list_List. simpl in Hs, Hr.
    destruct (forEachS_ok
                (render_entry lib markdown o toc (if (3 <? level)%nat then 3%nat else level))
                (fun entry => spec.serializable entry = true
                              /\ instanceof_ListEntry entry && spec.renderable entry = true)
                nodes) with (st := st) as [lis E].
    + eapply Forall_impl; [|exact H]. intros entry IH [Hes Her] st'.
      apply andb_prop in Her. destruct Her as [Hentry Her].
      apply IH; assumption.
    + apply Forall_forall. intros entry Hin.
      rewrite forallb_forall in Hs, Hr. split; [apply Hs | apply Hr]; exact Hin.
    + rewrite E. eexists; reflexivity.
  - (* ListEntry *)
    rewrite render_entry_ListEntry. simpl in Hs, Hr.
    apply andb_prop in Hs. destruct Hs as [Hs Hss].
    apply andb_prop in Hr. destruct Hr as [Hr Hrs].
    destruct (forEachS_ok (render_block lib markdown o toc)
                (fun block => spec.serializable block = true /\ spec.renderable block = true)
                nodes) with (st := true) as [children E].
    + eapply Forall_impl; [|exact H]. intros block IH [Hbs Hbr] st'. apply IH; assumption.
    + apply Forall_forall. intros block Hin.
      rewrite forallb_forall in Hs, Hr. split; [apply Hs | apply Hr]; exact Hin.
    + rewrite E. cbn [bind].
      destruct (forEachS_ok
                  (fun sublist st => render_list lib markdown o toc sublist (S level) st)
                  (fun sublist => spec.serializable sublist = true
                                  /\ instanceof_List sublist && spec.renderable sublist = true)
                  sublists) with (st := false) as [subs E'].
      * eapply Forall_impl; [|exact H0]. intros sublist IH [Hes Her] st'.
        apply andb_prop in Her. destruct Her as [Hlist Her].
        apply IH; assumption.
      * apply Forall_forall. intros sublist Hin.
        rewrite forallb_forall in Hss, Hrs. split; [apply Hss | apply Hrs]; exact Hin.
      * rewrite E'. eexists; reflexivity.
  - (* InlineHTML *)
    simpl in Hs.
    destruct (render_inline_total nodes Hs false true) as [content Hcontent].
    destruct (toString_children nodes Hs) as [strs E].
    assert (Htext : forall t, exists c, render_inline lib markdown o [Text t] true true = Ok c)
      by (intros t; apply (render_inline_total [Text t] eq_refl)).
    assert (Hparsed : inline_html_enable o = true ->
                      forall markup, exists elements,
                          mapM sanitize_raw (parse_nodes lib markup) = Ok elements).
    { intros Hon markup. destruct Hmarkup as [Hoff|[Htame _]]; [congruence|].
      apply (mapM_ok sanitize_raw (fun n => spec.tame n = true)); [|apply Htame].
      apply Forall_forall. intros n _. apply sanitize_raw_tame. }
    simpl.
    destruct (Bool.bool_dec (inline_html_enable o) true) as [Hon|Hoff].
    + rewrite Hon, Hcontent. cbn [bind].
      match goal with
      | |- context [mapM sanitize_raw (parse_nodes lib ?m)] =>
          destruct (Hparsed Hon m) as [elements Eelements]; rewrite Eelements
      end.
      eexists; reflexivity.
    + apply not_true_is_false in Hoff. rewrite Hoff, E. simpl.
      match goal with
      | |- context [render_inline lib markdown o [Text ?t] true true] =>
          destruct (Htext t) as [content' Hcontent']; rewrite Hcontent'
      end.
      eexists; reflexivity.
  - (* InlineLatex *)
    destruct (render_latex_total true _ Hs) as [element Hlatex].
    simpl. rewrite Hlatex. simpl.
    destruct element as [text|[]]; destruct st; eexists; reflexivity.
  - (* Table *)
    simpl in Hs, Hr. apply andb_prop in Hs. destruct Hs as [Hhead Hs].
    destruct nodes as [|head body]; [discriminate|].
    simpl in Hs, Hr. apply andb_prop in Hs. destruct Hs as [Hs Hss].
    apply andb_prop in Hr. destruct Hr as [Hr Hrs].
    destruct (render_table_row_total alignments head true Hs Hr) as [tr Htr].
    destruct (mapM_ok (fun row => render_table_row lib markdown o alignments row false)
                (fun row => spec.serializable row = true /\ spec.table_row row = true) body)
      as [trs Htrs].
    + apply Forall_forall. intros row _ [Hrow Hcells].
      apply render_table_row_total; assumption.
    + apply Forall_forall. intros row Hin.
      rewrite forallb_forall in Hss, Hrs. split; [apply Hss | apply Hrs]; exact Hin.
    + simpl. rewrite Htr. simpl. rewrite Htrs. simpl.
      destruct Hcallbacks as (_ & _ & _ & Htable & _).
      match goal with
      | |- context [table_process o ?t] => destruct (Htable t) as [table Et]; rewrite Et
      end.
      eexists; reflexivity.
  - (* TableOfContents *)
    destruct (Htoc st) as [r Er]. simpl. rewrite Er. eexists; reflexivity.
Qed.

End Blocks.

(** The table of contents is well formed when the headings are. *)
Lemma insert_serializable (content : list node) (d : nat) :
  forallb spec.serializable content = true ->
  forall es, forallb spec.serializable es = true ->
             forallb spec.serializable (insert_entry d content es) = true.
Proof.
  intros Hc. induction d as [|d IH]; intros es H.
  - cbn [insert_entry]. rewrite forallb_app, H. simpl. rewrite Hc. reflexivity.
  - cbn [insert_entry]. apply forallb_on_last; [exact H|].
    intros [] Hx; try exact Hx. simpl in Hx. apply andb_prop in Hx. destruct Hx as [Hn Hsub].
    cbn [spec.serializable]. rewrite Hn. simpl.
    destruct sublists as [|x sublists].
    + simpl. rewrite IH by reflexivity. reflexivity.
    + apply forallb_on_last; [exact Hsub|].
      intros [] Hy; try exact Hy. cbn [spec.serializable] in *. apply IH. exact Hy.
Qed.

Lemma insert_renderable (content : list node) (d : nat) :
  forallb spec.renderable content = true ->
  forall es,
    forallb (fun entry => instanceof_ListEntry entry && spec.renderable entry) es = true ->
    forallb (fun entry => instanceof_ListEntry entry && spec.renderable entry)
            (insert_entry d content es) = true.
Proof.
  intros Hc. induction d as [|d IH]; intros es H.
  - cbn [insert_entry]. rewrite forallb_app, H. simpl. rewrite Hc. reflexivity.
  - cbn [insert_entry]. apply forallb_on_last; [exact H|].
    intros [] Hx; try discriminate. simpl in Hx. apply andb_prop in Hx. destruct Hx as [Hn Hsub].
    cbn [instanceof_ListEntry spec.renderable andb]. rewrite Hn. simpl.
    destruct sublists as [|x sublists].
    + simpl. rewrite IH by reflexivity. reflexivity.
    + apply forallb_on_last; [exact Hsub|].
      intros [] Hy; try discriminate. cbn [instanceof_List spec.renderable andb] in *.
      apply IH. exact Hy.
Qed.

Lemma build_serializable (items : list (nat * list node)) :
  Forall (fun i => forallb spec.serializable (snd i) = true) items ->
  forall es k, forallb spec.serializable es = true ->
               forallb spec.serializable (build es k items) = true.
Proof.
  induction 1 as [|[level content] items Hc _ IH]; intros es k H; [exact H|].
  cbn [build]. apply IH. apply insert_serializable; assumption.
Qed.

Lemma build_renderable (items : list (nat * list node)) :
  Forall (fun i => forallb spec.renderable (snd i) = true) items ->
  forall es k,
    forallb (fun entry => instanceof_ListEntry entry && spec.renderable entry) es = true ->
    forallb (fun entry => instanceof_ListEntry entry && spec.renderable entry)
            (build es k items) = true.
Proof.
  induction 1 as [|[level content] items Hc _ IH]; intros es k H; [exact H|].
  cbn [build]. apply IH. apply insert_renderable; assumption.
Qed.

Lemma forallb_filter {A} (p q : A -> bool) (l : list A) :
  forallb p l = true -> forallb p (filter q l) = true.
Proof.
  intros H. apply forallb_forall. intros x Hin. apply filter_In in Hin.
  rewrite forallb_forall in H. apply H. apply Hin.
Qed.

Lemma toc_headings_blocks (doc : MDDocument) (h : node) :
  In h (toc_headings doc) -> In h (blocks doc) /\ instanceof_Heading h = true.
Proof.
  unfold toc_headings. intros Hin.
  destruct (toc_allow_h1 doc); [|apply filter_In in Hin; destruct Hin as [Hin _]];
    apply filter_In in Hin; exact Hin.
Qed.

Section Document.

Hypothesis Hblocks :
  Forall (fun block => spec.serializable block && spec.renderable block = true) (blocks markdown).

Lemma table_renderable :
  spec.serializable (table markdown) = true /\ spec.renderable (table markdown) = true.
Proof.
  unfold table. cbn [spec.serializable spec.renderable]. split.
  - apply build_serializable; [|reflexivity].
    unfold items. apply Forall_map. apply Forall_forall. intros h Hin.
    apply toc_headings_blocks in Hin. destruct Hin as [Hin Hh].
    rewrite Forall_forall in Hblocks. specialize (Hblocks h Hin).
    apply andb_prop in Hblocks. destruct Hblocks as [Hs _].
    destruct h; try discriminate. simpl in Hs. apply andb_prop in Hs. destruct Hs as [_ Hs].
    unfold item, entry_content, purge_linebreaks.
    cbn [snd get_nodes forallb spec.serializable].
    rewrite (forallb_filter _ _ _ Hs). reflexivity.
  - apply build_renderable; [|reflexivity].
    unfold items. apply Forall_map. apply Forall_forall. intros h _. reflexivity.
Qed.

(** The headings of a well-formed document are those [as_list] can
    process. *)
Lemma headings_ready :
  Forall (fun heading => ready heading = true) (filter instanceof_Heading (blocks markdown)).
Proof.
  apply Forall_forall. intros h Hin. apply filter_In in Hin. destruct Hin as [Hin Hh].
  rewrite Forall_forall in Hblocks. specialize (Hblocks h Hin).
  apply andb_prop in Hblocks. destruct Hblocks as [Hs Hr].
  destruct h; try discriminate. simpl in Hs, Hr. apply andb_prop in Hs. destruct Hs as [Hl _].
  unfold ready. unfold spec.valid_level in Hl. rewrite Hl.
  destruct (get_id_total nodes level Hr) as [id Hid]. rewrite Hid. reflexivity.
Qed.

(** The table of contents renders. *)
Lemma render_toc_total (st : bool) : exists r, render_toc lib markdown o st = Ok r.
Proof.
  unfold render_toc.
  rewrite (as_list_table markdown (ready_toc_ok markdown headings_ready)). cbn [bind].
  rewrite (proj1 (shaped_render lib markdown o (fun _ => Diverge)
                                (fun _ => Ok (html.create_element "ol", false))
                                (table markdown)) (table_shaped markdown)).
  destruct table_renderable as [Hs Hr].
  apply (render_block_total (fun _ => Ok (html.create_element "ol", false))); try assumption.
  - intros st'. eexists; reflexivity.
  - reflexivity.
Qed.

(** All the blocks render. *)
Lemma render_blocks_total (st : bool) :
  exists r, render_blocks lib markdown o (blocks markdown) st = Ok r.
Proof.
  unfold render_blocks.
  destruct (forEachS_ok (render_block lib markdown o (render_toc lib markdown o))
              (fun block => spec.serializable block && spec.renderable block = true)
              (blocks markdown)) with (st := st) as [children E].
  - apply Forall_forall. intros block _ Hb st'.
    apply andb_prop in Hb. destruct Hb as [Hs Hr].
    apply (render_block_total _ render_toc_total); assumption.
  - exact Hblocks.
  - rewrite E. eexists; reflexivity.
Qed.

End Document.

End Totality.




(** ** Exceptions of callbacks *)

Section Propagation.

Variable lib : library.
Variable markdown : MDDocument.
Variable o : options.
Variable error : exn.

(** An exception raised at an inline node is the outcome of rendering it. *)
Lemma inline_raises_throws (allow escape : bool) (n : node) :
  spec.inline_raises lib markdown o error allow escape n ->
  render_inline_node lib markdown o allow escape n = Throw error.
Proof.
  induction 1 as [allow escape content skin_tone callback Hemoji Hthrow
                 |allow escape content Hthrow
                 |allow escape n allow' escape' before child after rendered Hinside Hbefore _ IH].
  - simpl. rewrite Hemoji. exact Hthrow.
  - exact Hthrow.
  - pose proof (mapM_throw _ before after child rendered error Hbefore IH) as Hthrow.
    unfold spec.rendered_inside in Hinside.
    destruct n; try discriminate;
      try (destruct (highlight_enable o) eqn:Ehighlight; try discriminate);
      injection Hinside as H1 H2 H3; subst;
      simpl; rewrite ?Ehighlight; simpl; rewrite Hthrow;
      try (destruct (negb (underline_enable o))); reflexivity.
Qed.

Lemma inline_among_throws (allow escape : bool) (nodes : list node) :
  spec.inline_among lib markdown o error allow escape nodes ->
  render_inline lib markdown o nodes escape allow = Throw error.
Proof.
  intros (before & child & after & rendered & -> & Hbefore & Hchild).
  unfold render_inline.
  rewrite (mapM_throw _ before after child rendered error Hbefore
                      (inline_raises_throws _ _ _ Hchild)).
  reflexivity.
Qed.

Lemma render_table_cells_throw (alignments : list TableAlignment) (data_type : string)
    (before after : list node) (cell : node) (nodes : list node) :
  get_nodes cell = Some nodes ->
  spec.inline_among lib markdown o error false true nodes ->
  forall index rendered,
    render_table_cells lib markdown o (Ok alignments) data_type index before = Ok rendered ->
    render_table_cells lib markdown o (Ok alignments) data_type index (before ++ cell :: after)
    = Throw error.
Proof.
  intros Hnodes Hamong. apply inline_among_throws in Hamong.
  induction before as [|c before IH]; intros index rendered Hbefore.
  - simpl. rewrite Hnodes, Hamong. reflexivity.
  - simpl in Hbefore |- *.
    destruct (get_nodes c) as [content|]; [|discriminate].
    destruct (render_inline lib markdown o content true false) as [r| |]; try discriminate.
    cbn [bind] in Hbefore |- *.
    destruct (render_table_cells lib markdown o (Ok alignments) data_type (S index) before)
      as [cells| |] eqn:E; try discriminate.
    rewrite (IH (S index) cells E). reflexivity.
Qed.

Lemma row_raises_throws (holder : list TableAlignment) (head : bool) (row : node) :
  spec.row_raises lib markdown o error holder head row ->
  render_table_row lib markdown o holder row head = Throw error.
Proof.
  intros (alignments & before & cell & after & rendered & nodes
          & Htable & Hcells & Hbefore & Hnodes & Hamong).
  unfold render_table_row. rewrite Hcells, Htable.
  rewrite (render_table_cells_throw _ _ before after cell nodes Hnodes Hamong 0 rendered Hbefore).
  reflexivity.
Qed.

Lemma render_block_Table (toc : bool -> outcome (html.node * bool)) (head : node)
    (body : list node) (alignments : list TableAlignment) (st : bool) :
  render_block lib markdown o toc (Table (head :: body) alignments) st
  = (tr <- render_table_row lib markdown o alignments head true ;;
     trs <- mapM (fun row => render_table_row lib markdown o alignments row false) body ;;
     table <- table_process o (spec.table_element tr trs) ;;
     Ok ([html.Obj table], st)).
Proof. reflexivity. Qed.

(** An exception raised at a block, an entry or a list is the outcome of
    rendering it. *)
Lemma block_raises_throws :
  (forall st block,
      spec.block_raises lib markdown o error st block ->
      spec.block_renderer lib markdown o block st = Throw error)
  /\ (forall level entry,
         spec.entry_raises lib markdown o error level entry ->
         forall st, spec.entry_renderer lib markdown o level entry st = Throw error)
  /\ (forall level st lst,
         spec.list_raises lib markdown o error level st lst ->
         spec.list_renderer lib markdown o lst level st = Throw error).
Proof.
  apply spec.raises_mut;
    unfold spec.quote_renderer, spec.block_renderer, spec.entry_renderer, spec.list_renderer.
  - (* heading *)
    intros st nodes level id Hid Hamong. apply inline_among_throws in Hamong.
    change (render_block lib markdown o (render_toc lib markdown o) (Heading nodes level) st)
      with (id <- get_id (Heading nodes level) ;;
            content <- render_inline lib markdown o nodes true false ;;
            Ok ([html.Obj (html.append_children
                             (html.attr (html.create_element level) "id"
                                        (html.StringValue id)) content)], st)).
    rewrite Hid. cbn [bind]. rewrite Hamong. reflexivity.
  - (* paragraph *)
    intros st nodes Hamong. apply inline_among_throws in Hamong.
    simpl. rewrite Hamong. reflexivity.
  - (* highlighter *)
    intros st code language highlighter Hh Hlang Hthrow. simpl. rewrite Hh.
    destruct (String.eqb_spec language ""); [contradiction|]. simpl.
    rewrite Hthrow. reflexivity.
  - (* quote, block *)
    intros st before child after rendered Hbefore Hblock _ IH.
    rewrite render_block_BlockQuote.
    rewrite (forEachS_throw _ before after child st rendered error Hbefore);
      [reflexivity|].
    rewrite Hblock. exact IH.
  - (* quote, inline *)
    intros st before child after rendered Hbefore Hblock Hchild.
    rewrite render_block_BlockQuote.
    rewrite (forEachS_throw _ before after child st rendered error Hbefore);
      [reflexivity|].
    rewrite Hblock.
    rewrite (inline_among_throws true true [child]); [reflexivity|].
    exists [], child, [], []. repeat split. exact Hchild.
  - (* inline HTML *)
    intros st nodes Hon Hamong. apply inline_among_throws in Hamong.
    simpl. rewrite Hon, Hamong. reflexivity.
  - (* list *)
    intros st before entry after ordered start rendered Hbefore _ IH.
    rewrite render_block_List.
    rewrite (forEachS_throw _ before after entry st rendered error Hbefore (IH _)).
    reflexivity.
  - (* table, head row *)
    intros st head body alignments Hrow. apply row_raises_throws in Hrow.
    rewrite render_block_Table, Hrow. reflexivity.
  - (* table, body row *)
    intros st head before row after alignments tr trs Hhead Hbefore Hrow.
    apply row_raises_throws in Hrow.
    rewrite render_block_Table, Hhead. cbn [bind].
    rewrite (mapM_throw _ before after row trs error Hbefore Hrow). reflexivity.
  - (* table.process *)
    intros st head body alignments tr trs Hhead Hbody Hthrow.
    rewrite render_block_Table, Hhead. cbn [bind]. rewrite Hbody. cbn [bind].
    rewrite Hthrow. reflexivity.
  - (* table of contents *)
    intros st nodes lst Hlist Hshaped _ IH.
    change (render_block lib markdown o (render_toc lib markdown o) (TableOfContents nodes) st)
      with (html_list <- render_toc lib markdown o st ;;
            Ok ([html.Obj (fst html_list)], snd html_list)).
    unfold render_toc at 1. rewrite Hlist. cbn [bind].
    rewrite (proj1 (shaped_render lib markdown o (fun _ => Diverge)
                                  (render_toc lib markdown o) lst) Hshaped).
    rewrite IH. reflexivity.
  - (* entry, block *)
    intros level before child after sublists checked rendered Hbefore _ IH st.
    rewrite render_entry_ListEntry.
    rewrite (forEachS_throw _ before after child true rendered error Hbefore IH).
    reflexivity.
  - (* entry, sublist *)
    intros level blocks before sublist after checked children rendered Hblocks Hbefore _ IH st.
    rewrite render_entry_ListEntry. rewrite Hblocks. cbn [bind].
    rewrite (forEachS_throw _ before after sublist false rendered error Hbefore IH).
    reflexivity.
  - (* list *)
    intros level st before entry after ordered start rendered Hbefore _ IH.
    rewrite render_list_List.
    rewrite (forEachS_throw _ before after entry st rendered error Hbefore (IH _)).
    reflexivity.
Qed.

End Propagation.

(** C7: only [latex.render] is called inside a [try]: when it throws while
    an [InlineLatex] node is rendered, inline or as a block, the node
    renders to a [div] (display mode) or a [span] with class
    [latex.error_classes] and the message of the error as its only child.
    An exception of [emoji], [code.process], [block_code.highlighter] or
    [table.process] is not caught anywhere: it is the outcome of rendering
    the node the callback was called for, of every inline node, block, list
    entry, list, table row and table around that node, at any depth, of a
    table of contents that lists the heading of the node, and of
    [render_to_html] and [render], given that what is rendered before the
    node returns. *)
Theorem callbacks_propagate (lib : library) (markdown : MDDocument) (u : user_options)
    (error : exn) :
  let o := merge_default_options u in
  (forall render nodes raw display_mode failure allow_linebreak should_escape
          paragraph_as_text toc,
      latex_render o = Some render ->
      render (InlineLatex nodes raw display_mode) = Throw failure ->
      let fallback :=
        html.Element (if display_mode then "div" else "span")
                     [("class", html.TokenList (latex_error_classes o))]
                     [html.Text (message failure) html.NORMAL] [] in
      render_inline_node lib markdown o allow_linebreak should_escape
        (InlineLatex nodes raw display_mode) = Ok [html.Obj fallback]
      /\ render_block lib markdown o toc (InlineLatex nodes raw display_mode) paragraph_as_text
         = Ok ([html.Obj fallback], paragraph_as_text))
  /\ (forall allow_linebreak should_escape node,
         spec.inline_raises lib markdown o error allow_linebreak should_escape node ->
         render_inline_node lib markdown o allow_linebreak should_escape node = Throw error)
  /\ (forall paragraph_as_text block,
         spec.block_raises lib markdown o error paragraph_as_text block ->
         render_block lib markdown o (render_toc lib markdown o) block paragraph_as_text
         = Throw error)
  /\ (spec.document_raises lib markdown o error ->
      render_to_html lib markdown u = Throw error /\ render lib markdown u = Throw error).
Proof.
  intros o. split; [|split; [|split]].
  - intros render nodes raw display_mode failure allow escape st toc Hrender Hthrow fallback.
    split.
    + simpl. unfold render_latex. rewrite Hrender, Hthrow. simpl.
      destruct escape; reflexivity.
    + simpl. unfold render_latex. rewrite Hrender, Hthrow. reflexivity.
  - intros allow escape node. apply inline_raises_throws.
  - intros st block. apply (proj1 (block_raises_throws lib markdown o error)).
  - intros (before & block & after & rendered & Hblocks & Hbefore & Hblock).
    apply (proj1 (block_raises_throws lib markdown o error)) in Hblock.
    unfold spec.block_renderer in Hbefore, Hblock.
    assert (H : render_to_html lib markdown u = Throw error).
    { unfold render_to_html, render_blocks. fold o. rewrite Hblocks.
      rewrite (forEachS_throw _ before after block false rendered error Hbefore Hblock).
      reflexivity. }
    split; [exact H|]. unfold render. rewrite H. reflexivity.
Qed.

(** An [emoji] callback that throws on an emoji in italic, bold text of a
    list entry inside a quote, after a paragraph that renders; and a
    [latex.render] that throws. *)
Lemma callbacks_propagate_witness :
  render_to_html text_only spec.nested
                 (with_emoji no_options (fun _ => Throw (Error "no such emoji")))
  = Throw (Error "no such emoji")
  /\ render_inline_node text_only spec.nested
       (merge_default_options (with_latex_render no_options (fun _ => Throw (Error "ParseError"))))
       true true (InlineLatex [] "\frac" false)
     = Ok [html.Obj (html.Element "span" [("class", html.TokenList ["error"])]
                                  [html.Text "ParseError" html.NORMAL] [])].
Proof.
  split.
  - pose (u := with_emoji no_options (fun _ => Throw (Error "no such emoji"))).
    destruct (callbacks_propagate text_only spec.nested u (Error "no such emoji"))
      as (_ & _ & _ & Hdocument).
    apply Hdocument.
    exists [Paragraph [Text "before"]],
           (BlockQuote
              [List [ListEntry [Paragraph [Bold [Text "so "; Italic [Emoji "smile" None]]]]
                               [] None] false (Int 1)]),
           [],
           ([[html.Obj (html.Element "p" [] [html.Text "before" html.NORMAL] [])]], false).
    split; [reflexivity|]. split; [reflexivity|]. cbn [snd].
    apply (spec.raises_quote_block _ _ _ _ false []
             (List [ListEntry [Paragraph [Bold [Text "so "; Italic [Emoji "smile" None]]]]
                              [] None] false (Int 1))
             [] ([], false)); [reflexivity | reflexivity |]. cbn [snd].
    apply (spec.raises_list _ _ _ _ false []
             (ListEntry [Paragraph [Bold [Text "so "; Italic [Emoji "smile" None]]]] [] None)
             [] false (Int 1) ([], false)); [reflexivity|].
    apply (spec.raises_entry_block _ _ _ _ 0 []
             (Paragraph [Bold [Text "so "; Italic [Emoji "smile" None]]]) [] [] None
             ([], true)); [reflexivity|]. cbn [snd].
    apply spec.raises_paragraph.
    exists [], (Bold [Text "so "; Italic [Emoji "smile" None]]), [], [].
    split; [reflexivity|]. split; [reflexivity|].
    apply (spec.raises_inside _ _ _ _ true true _ true true [Text "so "]
             (Italic [Emoji "smile" None]) []
             [[html.Obj (html.Text "so " html.NORMAL)]]); [reflexivity | reflexivity |].
    apply (spec.raises_inside _ _ _ _ true true _ true true []
             (Emoji "smile" None) [] []); [reflexivity | reflexivity |].
    apply (spec.raises_emoji _ _ _ _ true true "smile" None
                             (fun _ => Throw (Error "no such emoji"))); reflexivity.
  - pose (u := with_latex_render no_options (fun _ => Throw (Error "ParseError"))).
    destruct (callbacks_propagate text_only spec.nested u (Error "ParseError")) as (Hlatex & _).
    exact (proj1 (Hlatex (fun _ => Throw (Error "ParseError")) [] "\frac" false
                         (Error "ParseError") true true false (fun _ => Diverge)
                         eq_refl eq_refl)).
Defined.

(** * Further properties *)

(** ** Strings and traversals *)

Lemma append_nil_r (s : string) : s ++ "" = s.
Proof. induction s as [|c s IH]; simpl; [reflexivity | rewrite IH; reflexivity]. Qed.

Lemma append_assoc (a b c : string) : (a ++ b) ++ c = a ++ b ++ c.
Proof. induction a as [|x a IH]; simpl; [reflexivity | rewrite IH; reflexivity]. Qed.

Lemma join_app (a b : list string) : join "" (a ++ b) = join "" a ++ join "" b.
Proof.
  induction a as [|x [|y a] IH].
  - reflexivity.
  - simpl. destruct b; [rewrite append_nil_r|]; reflexivity.
  - change (join "" ((x :: y :: a) ++ b)) with (x ++ "" ++ join "" ((y :: a) ++ b)).
    rewrite IH. simpl. rewrite append_assoc. reflexivity.
Qed.

Lemma mapM_snoc {A B} (f : A -> outcome B) (l : list A) (x : A) :
  mapM f (l ++ [x]) = (ys <- mapM f l ;; y <- f x ;; Ok (ys ++ [y])%list).
Proof.
  induction l as [|a l IH].
  - simpl. destruct (f x); reflexivity.
  - rewrite <- app_comm_cons, !mapM_cons. destruct (f a) as [b| |]; try reflexivity.
    cbn [bind]. rewrite IH. destruct (mapM f l) as [ys| |]; try reflexivity.
    cbn [bind]. destruct (f x); reflexivity.
Qed.

Lemma length_append (a b : string) :
  String.length (a ++ b) = String.length a + String.length b.
Proof. induction a as [|x a IH]; simpl; [reflexivity | rewrite IH; reflexivity]. Qed.

(** ** The document object *)

Lemma lower_char_idempotent (c : ascii) : lower_char (lower_char c) = lower_char c.
Proof. each_ascii c; reflexivity. Qed.

Lemma toLowerCase_idempotent (s : string) : toLowerCase (toLowerCase s) = toLowerCase s.
Proof.
  induction s as [|c s IH]; [reflexivity|].
  simpl. rewrite lower_char_idempotent, IH. reflexivity.
Qed.

Lemma find_app_none {A} (p : A -> bool) (l l' : list A) :
  find p l = None -> find p (l ++ l') = find p l'.
Proof.
  induction l as [|x l IH]; intros H; [reflexivity|].
  simpl in *. destruct (p x); [discriminate | apply IH; exact H].
Qed.

Lemma find_app_some {A} (p : A -> bool) (l l' : list A) (x : A) :
  find p l = Some x -> find p (l ++ l') = Some x.
Proof.
  induction l as [|y l IH]; intros H; [discriminate|].
  simpl in *. destruct (p y); [exact H | apply IH; exact H].
Qed.

Lemma find_none_not_in (refs : list (string * Reference)) (name : string) :
  find (fun ref => String.eqb (fst ref) name) refs = None -> ~ In name (map fst refs).
Proof.
  induction refs as [|[k v] refs IH]; intros H Hin; [contradiction|].
  simpl in *. destruct (String.eqb_spec k name) as [->|Hne]; [discriminate|].
  destruct Hin as [Heq|Hin]; [contradiction | exact (IH H Hin)].
Qed.

Lemma NoDup_snoc {A} (l : list A) (x : A) : NoDup l -> ~ In x l -> NoDup (l ++ [x]).
Proof.
  intros Hl Hx. apply (NoDup_Add (a := x) (l := l)).
  - rewrite <- (app_nil_r l) at 1. apply Add_app.
  - split; assumption.
Qed.

(** X1: references are registered under their lowercased name, once: [ref]
    keeps the names of the references distinct and lowercase, makes the
    name known in any letter case, and never replaces a reference already
    registered; the blocks are left alone. *)
Theorem ref_registers_once (d : MDDocument) (name : string) (reference : Reference) :
  NoDup (map fst (references d)) ->
  Forall (fun r => toLowerCase (fst r) = fst r) (references d) ->
  let d' := document.ref d name reference in
  NoDup (map fst (references d'))
  /\ Forall (fun r => toLowerCase (fst r) = fst r) (references d')
  /\ (forall other, toLowerCase other = toLowerCase name ->
                    exists found, document.has_ref d' other = Some (toLowerCase name, found))
  /\ (forall other found, document.has_ref d other = Some found ->
                          document.has_ref d' other = Some found)
  /\ (document.has_ref d name = None ->
      document.has_ref d' name = Some (toLowerCase name, reference))
  /\ blocks d' = blocks d.
Proof.
  intros Hnodup Hlower d'. subst d'. unfold document.ref.
  destruct (document.has_ref d name) as [[k v]|] eqn:Hfind.
  - repeat split; try assumption; try discriminate.
    + intros other Hother. unfold document.has_ref in *. rewrite Hother.
      pose proof (find_some _ _ Hfind) as [_ Hk]. simpl in Hk.
      apply String.eqb_eq in Hk. subst k. exists v. exact Hfind.
    + intros other found H. exact H.
  - unfold document.has_ref in *. cbn [references blocks].
    repeat split.
    + rewrite map_app. apply NoDup_snoc; [exact Hnodup|].
      apply find_none_not_in. exact Hfind.
    + apply Forall_app. split; [exact Hlower|]. constructor; [|constructor].
      simpl. apply toLowerCase_idempotent.
    + intros other Hother. exists reference. rewrite Hother.
      rewrite find_app_none by exact Hfind. simpl. rewrite String.eqb_refl. reflexivity.
    + intros other found H. apply find_app_some. exact H.
    + intros _. rewrite find_app_none by exact Hfind. simpl. rewrite String.eqb_refl. reflexivity.
Qed.

Lemma ref_registers_once_witness :
  exists found,
    document.has_ref
      (document.ref (document.new_MDDocument None) "Home"
                    {| url := Some "https://example.com"; tooltip := None |}) "HOME"
    = Some ("home", found).
Proof.
  destruct (ref_registers_once (document.new_MDDocument None) "Home"
              {| url := Some "https://example.com"; tooltip := None |})
    as (_ & _ & Hknown & _).
  - constructor.
  - constructor.
  - exact (Hknown "HOME" eq_refl).
Defined.

(** X2: [MDDocument.push] adds one block at the end and leaves the blocks
    before it and the references alone; a string, a text, an emoji, inline
    code or an inline link arrives as the only node of a new paragraph, so
    a document filled by [push] has no bare text among its blocks. *)
Theorem push_wraps_text (d : MDDocument) (block : md.item) :
  exists pushed,
    blocks (document.push d block) = (blocks d ++ [pushed])%list
    /\ references (document.push d block) = references d
    /\ instanceof_Text pushed = false
    /\ pushed = (if instanceof_Text (to_node block) then Paragraph [to_node block]
                 else to_node block)
    /\ (Forall (fun b => instanceof_Text b = false) (blocks d) ->
        Forall (fun b => instanceof_Text b = false) (blocks (document.push d block))).
Proof.
  unfold document.push. simpl.
  exists (if instanceof_Text (to_node block) then Paragraph [to_node block] else to_node block).
  assert (H : instanceof_Text (if instanceof_Text (to_node block)
                               then Paragraph [to_node block] else to_node block) = false).
  { destruct (instanceof_Text (to_node block)) eqn:E; [reflexivity | exact E]. }
  repeat split; try assumption.
  intros Hd. apply Forall_app. split; [exact Hd|]. constructor; [exact H | constructor].
Qed.

(** ** Links and references *)

Lemma get_attr_append_children (element : html.node) (l : list html.item) (key : string) :
  html.get_attr (html.append_children element l) key = html.get_attr element key.
Proof.
  unfold html.append_children. revert element.
  induction l as [|x l IH]; intros element; [reflexivity|].
  simpl. rewrite IH. destruct element; reflexivity.
Qed.

(** X3: a link made from a URL and a title is rendered as one [a] element
    around the rendered title, with no error of its own: rendering it
    returns whenever rendering its title does.  Made without a reference
    name, the link points to its own URL.  Made with one, it points to the
    URL of the reference the document has under that name, in any letter
    case, and it has no [href] at all when the document has none: its own
    URL is not used then. *)
Theorem link_target (lib : library) (d : MDDocument) (o : options) (url0 : string)
    (title : list md.item) (tooltip reference : option string)
    (allow escape : bool) (content : rendered) :
  render_inline lib d o (purge_linebreaks (map to_node title)) escape false = Ok content ->
  exists link attrs,
    new_Link url0 (Array title) tooltip reference = Ok link
    /\ render_inline_node lib d o allow escape link
       = Ok [html.Obj (html.Element "a" attrs (map html.to_node content) [])]
    /\ html.get_attr (html.Element "a" attrs (map html.to_node content) []) "href"
       = match reference with
         | Some name =>
             if String.eqb (toLowerCase name) "" then Some (html.StringValue url0)
             else match document.has_ref d name with
                  | Some found => Some (html.optional_string (url (snd found)))
                  | None => None
                  end
         | None => Some (html.StringValue url0)
         end.
Proof.
  intros Hcontent.
  set (ref_name := toLowerCase (match reference with Some r => r | None => "" end)).
  set (own := {| url := Some url0; tooltip := tooltip |}).
  assert (Hnew : new_Link url0 (Array title) tooltip reference
                 = Ok (Link (purge_linebreaks (map to_node title)) own ref_name))
    by reflexivity.
  assert (Hrender : forall nodes,
             render_inline_node lib d o allow escape (Link nodes own ref_name)
             = (children <- render_inline lib d o nodes escape false ;;
                Ok [html.Obj (html.append_children
                                (with_reference (html.create_element "a") "href"
                                                (resolve d own ref_name)) children)]))
    by reflexivity.
  assert (Helement : exists attrs,
             with_reference (html.create_element "a") "href" (resolve d own ref_name)
             = html.Element "a" attrs [] []
             /\ html.get_assoc "href" attrs
                = match reference with
                  | Some name =>
                      if String.eqb (toLowerCase name) "" then Some (html.StringValue url0)
                      else match document.has_ref d name with
                           | Some found => Some (html.optional_string (url (snd found)))
                           | None => None
                           end
                  | None => Some (html.StringValue url0)
                  end).
  { unfold resolve, find_reference, document.has_ref, with_reference. subst ref_name own.
    destruct reference as [name|]; simpl.
    - destruct (String.eqb (toLowerCase name) ""); simpl.
      + destruct (has_tooltip _); eexists; split; reflexivity.
      + destruct (find _ (references d)) as [[k found]|]; simpl;
          [|eexists; split; reflexivity].
        destruct (has_tooltip found); eexists; split; reflexivity.
    - destruct (has_tooltip _); eexists; split; reflexivity. }
  destruct Helement as (attrs & Helement & Hhref).
  exists (Link (purge_linebreaks (map to_node title)) own ref_name), attrs.
  split; [exact Hnew|]. split; [|exact Hhref].
  rewrite Hrender, Hcontent, Helement. cbn [bind].
  rewrite append_children_Element. reflexivity.
Qed.

(** A link to a reference the document does not have, and one to a
    reference it has under another letter case. *)
Lemma link_target_witness :
  (exists attrs,
      render_inline_node text_only (document.new_MDDocument None)
        (merge_default_options no_options) true true
        (Link [Text "site"] {| url := Some "https://own.example"; tooltip := None |} "nowhere")
      = Ok [html.Obj (html.Element "a" attrs [html.Text "site" html.NORMAL] [])]
      /\ html.get_assoc "href" attrs = None)
  /\ exists attrs,
       render_inline_node text_only
         (document.ref (document.new_MDDocument None) "Home"
                       {| url := Some "https://example.com"; tooltip := None |})
         (merge_default_options no_options) true true
         (Link [Text "site"] {| url := Some "ignored"; tooltip := None |} "home")
       = Ok [html.Obj (html.Element "a" attrs [html.Text "site" html.NORMAL] [])]
       /\ html.get_assoc "href" attrs = Some (html.StringValue "https://example.com").
Proof.
  split.
  - destruct (link_target text_only (document.new_MDDocument None)
                (merge_default_options no_options) "https://own.example" [md.Str "site"]
                None (Some "Nowhere") true true [html.Obj (html.Text "site" html.NORMAL)]
                eq_refl) as (link & attrs & Hlink & Hrender & Hhref).
    injection Hlink as <-. exists attrs. split; [exact Hrender | exact Hhref].
  - destruct (link_target text_only
                (document.ref (document.new_MDDocument None) "Home"
                              {| url := Some "https://example.com"; tooltip := None |})
                (merge_default_options no_options) "ignored" [md.Str "site"] None (Some "HOME")
                true true [html.Obj (html.Text "site" html.NORMAL)] eq_refl)
      as (link & attrs & Hlink & Hrender & Hhref).
    injection Hlink as <-. exists attrs. split; [exact Hrender | exact Hhref].
Defined.

Lemma unique_from_spec (l : list string) :
  forall seen,
    NoDup (unique_from seen l)
    /\ (forall x, In x (unique_from seen l) <-> In x l /\ ~ In x seen).
Proof.
  induction l as [|x l IH]; intros seen; simpl.
  - split; [constructor | intros y; tauto].
  - destruct (existsb (String.eqb x) seen) eqn:E.
    + destruct (IH seen) as [Hnd Hin]. split; [exact Hnd|].
      intros y. rewrite Hin. apply existsb_exists in E. destruct E as (z & Hz & Hxz).
      apply String.eqb_eq in Hxz. subst z.
      split; [tauto|]. intros [[->|Hy] Hs]; [contradiction | tauto].
    + destruct (IH (x :: seen)) as [Hnd Hin]. split.
      * constructor; [|exact Hnd]. rewrite Hin. simpl. tauto.
      * intros y. simpl. rewrite Hin. simpl.
        assert (Hx : ~ In x seen).
        { intros Hx. assert (existsb (String.eqb x) seen = true); [|congruence].
          apply existsb_exists. exists x. split; [exact Hx | apply String.eqb_refl]. }
        destruct (String.eqb_spec x y) as [->|Hne]; [tauto|]. tauto.
Qed.

Lemma with_url_keeps (l : list (option (string * Reference))) (kept : list (string * Reference)) :
  with_url l = Ok kept ->
  forall name r, In (Some (name, r)) l -> url r <> None -> In (name, r) kept.
Proof.
  revert kept. induction l as [|x l IH]; intros kept H name r Hin Hurl; [contradiction|].
  destruct x as [[nm rf]|]; [|discriminate].
  simpl in H. destruct (with_url l) as [rest| |]; try discriminate.
  simpl in H. injection H as <-.
  destruct Hin as [Heq|Hin].
  - injection Heq as -> ->. destruct (url r); [left; reflexivity | congruence].
  - specialize (IH rest eq_refl name r Hin Hurl).
    destruct (url rf); [right|]; exact IH.
Qed.

Lemma fold_references_keeps (found : list found_references) :
  forall acc x, In x acc -> In x (fold_left concat_references found acc).
Proof.
  induction found as [|f found IH]; intros acc x Hin; [exact Hin|].
  simpl. apply IH. destruct f; simpl; apply in_or_app; left; exact Hin.
Qed.

Lemma fold_references_flat (bs : list node) :
  Forall (fun block => get_references block <> NoReference) bs ->
  forall acc,
    fold_left concat_references (map get_references bs) acc
    = (acc ++ map Some (flat_references (map get_references bs)))%list.
Proof.
  induction 1 as [|b bs Hb _ IH]; intros acc; [simpl; rewrite app_nil_r; reflexivity|].
  cbn [map fold_left]. rewrite IH.
  destruct (get_references b) as [|nm rf|refs]; [congruence| |];
    cbn [concat_references flat_references]; rewrite <- app_assoc;
    [reflexivity | rewrite map_app; reflexivity].
Qed.

Lemma with_url_filter (l : list (string * Reference)) :
  with_url (map Some l)
  = Ok (filter (fun r => match url (snd r) with Some _ => true | None => false end) l).
Proof.
  induction l as [|[nm rf] l IH]; [reflexivity|].
  cbn [map with_url]. rewrite IH. cbn [bind snd filter].
  destruct (url rf); reflexivity.
Qed.

Lemma mapM_fmap {A B C} (f : A -> outcome B) (g : B -> C) (l : list A) :
  mapM (fun x => fmap g (f x)) l = fmap (map g) (mapM f l).
Proof.
  induction l as [|x l IH]; [reflexivity|].
  rewrite !mapM_cons, IH. unfold fmap.
  destruct (f x) as [y| |]; try reflexivity. cbn [bind].
  destruct (mapM f l) as [ys| |]; reflexivity.
Qed.

(** X4: the references of a document are written at the end of its
    serialization, after the texts of the blocks, one line [[name]: url]
    each, in the order in which they were registered and then found in the
    blocks.  The lines are those of the references that have a URL, and no
    line is written twice. *)
Theorem reference_definitions (d : MDDocument) :
  forallb spec.serializable (blocks d) = true ->
  Forall (fun block => get_references block <> NoReference) (blocks d) ->
  references d <> [] ->
  let found := (references d ++ flat_references (map get_references (blocks d)))%list in
  let line (r : string * Reference) := "[" ++ fst r ++ "]: " ++ Reference_toString (snd r) in
  let lines :=
    unique_from []
      (map line (filter (fun r => match url (snd r) with Some _ => true | None => false end)
                        found)) in
  exists texts,
    mapM toString (blocks d) = Ok texts
    /\ MDDocument_toString d
       = Ok (join LF (map (fun text => text ++ LF) texts) ++ LF ++ join LF lines ++ LF)
    /\ NoDup lines
    /\ (forall l, In l lines <-> exists r, In r found /\ url (snd r) <> None /\ l = line r).
Proof.
  intros Hs Hr Hne found line lines.
  destruct (mapM_ok toString (fun n => spec.serializable n = true) (blocks d)) as [texts E].
  { apply Forall_forall. intros b _ Hb. apply (proj1 (toString_total b Hb)). }
  { apply forallb_Forall. exact Hs. }
  exists texts. split; [exact E|].
  destruct (unique_from_spec
              (map line (filter (fun r => match url (snd r) with
                                          | Some _ => true
                                          | None => false
                                          end) found)) []) as [Hnd Hin].
  split; [|split; [exact Hnd|]].
  - assert (Hnonempty : found <> []).
    { subst found. destruct (references d); [congruence | discriminate]. }
    unfold MDDocument_toString.
    rewrite (mapM_fmap toString (fun s => s ++ LF)), E. unfold fmap. cbn [bind].
    rewrite (fold_references_flat _ Hr), <- map_app. fold found.
    rewrite with_url_filter. cbn [bind].
    destruct (map Some found) eqn:Em; [|reflexivity].
    apply map_eq_nil in Em. congruence.
  - intros l. fold lines in Hin. rewrite Hin. split.
    + intros [Hl _]. apply in_map_iff in Hl. destruct Hl as (r & <- & Hr').
      apply filter_In in Hr'. destruct Hr' as [Hfound Hurl].
      exists r. split; [exact Hfound|]. split; [|reflexivity].
      destruct (url (snd r)); [discriminate | discriminate].
    + intros (r & Hfound & Hurl & ->). split; [|intros []].
      apply in_map_iff. exists r. split; [reflexivity|].
      apply filter_In. split; [exact Hfound|].
      destruct (url (snd r)); [reflexivity | congruence].
Qed.

(** A document with two references, the second under a name already
    taken. *)
Lemma reference_definitions_witness :
  MDDocument_toString
    (document.ref
       (document.ref (document.push (document.new_MDDocument None) (Str "text")) "Home"
                     {| url := Some "https://example.com"; tooltip := None |})
       "Site" {| url := Some "https://example.org"; tooltip := Some "Org" |})
  = Ok ("text" ++ LF ++ LF ++ "[home]: https://example.com" ++ LF
        ++ "[site]: https://example.org " ++ DQUOTE ++ "Org" ++ DQUOTE ++ LF).
Proof.
  destruct (reference_definitions
              (document.ref
                 (document.ref (document.push (document.new_MDDocument None) (Str "text")) "Home"
                               {| url := Some "https://example.com"; tooltip := None |})
                 "Site" {| url := Some "https://example.org"; tooltip := Some "Org" |}))
    as (texts & Htexts & H & _).
  - reflexivity.
  - repeat constructor; discriminate.
  - discriminate.
  - injection Htexts as <-. exact H.
Defined.

(** ** Constructors and push *)

Lemma is_linebreak_text_iff (n : node) : is_linebreak_text n = true <-> n = LINEBREAK.
Proof.
  unfold LINEBREAK. destruct n; simpl; split; intros H; try discriminate.
  - apply String.eqb_eq in H. subst. reflexivity.
  - injection H as ->. reflexivity.
Qed.

(** X5: the constructors of the containers that allow no linebreak
    ([Strikethrough], [Highlight], [Spoiler], [Heading], [ListEntry],
    [Link]) keep the nodes they are given, strings made texts, in their
    order, except the linebreaks, and those only: an emoji or inline code
    with the content of a linebreak stays.  The other containers keep every
    node. *)
Theorem constructors_drop_linebreaks (content : list md.item) (level url0 : string)
    (tooltip reference : option string) (sublists : option (list node))
    (checked : option bool) :
  let kept := purge_linebreaks (map to_node content) in
  new_Strikethrough (Array content) = Ok (Strikethrough kept)
  /\ new_Highlight (Array content) = Ok (Highlight kept)
  /\ new_Spoiler (Array content) = Ok (Spoiler kept)
  /\ new_Heading (Array content) level = Ok (Heading kept level)
  /\ (exists subs, new_ListEntry (Array content) sublists checked
                   = Ok (ListEntry kept subs checked))
  /\ (exists r rn, new_Link url0 (Array content) tooltip reference = Ok (Link kept r rn))
  /\ new_Bold (Array content) = Ok (Bold (map to_node content))
  /\ new_Paragraph (Array content) = Ok (Paragraph (map to_node content))
  /\ (forall n, In n kept <-> In n (map to_node content) /\ n <> LINEBREAK)
  /\ (~ In LINEBREAK (map to_node content) -> kept = map to_node content).
Proof.
  intros kept. repeat split; try reflexivity; try (eexists; reflexivity);
    try (eexists _, _; reflexivity).
  - subst kept. unfold purge_linebreaks in H. apply filter_In in H. apply H.
  - subst kept. unfold purge_linebreaks in H. apply filter_In in H. destruct H as [_ H].
    intros ->. discriminate.
  - intros [Hin Hne]. subst kept. unfold purge_linebreaks. apply filter_In.
    split; [exact Hin|]. destruct (is_linebreak_text n) eqn:E; [|reflexivity].
    apply is_linebreak_text_iff in E. contradiction.
  - intros Hnone. subst kept. unfold purge_linebreaks.
    induction (map to_node content) as [|n l IH]; [reflexivity|].
    simpl. destruct (is_linebreak_text n) eqn:E.
    + apply is_linebreak_text_iff in E. subst n. exfalso. apply Hnone. left. reflexivity.
    + simpl. f_equal. apply IH. intros Hin. apply Hnone. right. exact Hin.
Qed.

(** X6: a node pushed onto a paragraph, a comment, an inline HTML block or a
    table cell is added after the others, and the serialization of the
    element grows by the serialization of the node: an element that did not
    serialize still does not, with the same error. *)
Theorem push_appends_text (l : list node) (n : md.item) :
  let grown := toString (Paragraph (l ++ [to_node n])) in
  push (Paragraph l) n = Ok (Paragraph (l ++ [to_node n]))
  /\ push (Comment l) n = Ok (Comment (l ++ [to_node n]))
  /\ push (InlineHTML l) n = Ok (InlineHTML (l ++ [to_node n]))
  /\ push (TableEntry l) n = Ok (TableEntry (l ++ [to_node n]))
  /\ grown = (before <- toString (Paragraph l) ;;
              added <- toString (to_node n) ;;
              Ok (before ++ added))
  /\ toString (Comment (l ++ [to_node n])) = grown
  /\ toString (InlineHTML (l ++ [to_node n])) = grown
  /\ toString (TableEntry (l ++ [to_node n])) = grown.
Proof.
  intros grown. subst grown. repeat split; try reflexivity.
  change (toString (Paragraph (l ++ [to_node n])))
    with (fmap (join "") (mapM toString (l ++ [to_node n]))).
  change (toString (Paragraph l)) with (fmap (join "") (mapM toString l)).
  rewrite mapM_snoc. unfold fmap.
  destruct (mapM toString l) as [strs| |]; try reflexivity. cbn [bind].
  destruct (toString (to_node n)) as [added| |]; try reflexivity. cbn [bind].
  rewrite join_app. reflexivity.
Qed.

(** ** Tables *)

Lemma push_column_Table (first : node) (body : list node) (alignments : list TableAlignment)
    (head : arg) (data : list arg) (alignment : TableAlignment) :
  tables.push_column (Table (first :: body) alignments) head data alignment
  = (first <- (if tables.truthy head then tables.push_column first head [] NONE
               else Ok first) ;;
     body <- tables.fill body data ;;
     Ok (Table (first :: body) (alignments ++ [alignment]))).
Proof. reflexivity. Qed.

Lemma entry_of_ok (column : arg) :
  tables.cell_ok column = true ->
  exists nodes, tables.entry_of column = Ok (TableEntry nodes).
Proof.
  destruct column as [|s|n|l]; simpl; intros H; try (eexists; reflexivity).
  destruct n; try discriminate; try (eexists; reflexivity).
Qed.

Lemma row_push_column (columns : nat) (row : node) (column : arg) (data : list arg)
    (alignment : TableAlignment) :
  tables.row_of columns row -> tables.cell_ok column = true ->
  exists row', tables.push_column row column data alignment = Ok row'
               /\ tables.row_of (S columns) row' /\ tables.extended row row'.
Proof.
  intros Hrow Hcell. destruct row; try contradiction.
  destruct Hrow as [Hlen Hcells].
  destruct (entry_of_ok column Hcell) as [entry Hentry].
  simpl. rewrite Hentry. eexists. split; [reflexivity|]. split.
  - split; [rewrite length_app; simpl; lia|].
    apply Forall_app. split; [exact Hcells | repeat constructor].
  - eexists _, _, _. split; reflexivity.
Qed.

Lemma new_rows_ok (data : list arg) :
  forallb tables.cell_ok data = true ->
  exists rows, tables.new_rows data = Ok rows
               /\ Forall (tables.row_of 1) rows /\ length rows = length data.
Proof.
  unfold tables.new_rows. induction data as [|column data IH]; intros H.
  - exists []. repeat split; constructor.
  - simpl in H. apply andb_prop in H. destruct H as [Hc Hd].
    destruct (entry_of_ok column Hc) as [entry Hentry].
    destruct (IH Hd) as (rows & Hrows & Hshape & Hlen).
    rewrite mapM_cons, Hentry. cbn [bind]. rewrite Hrows.
    eexists. split; [reflexivity|]. split.
    + constructor; [|exact Hshape]. split; [reflexivity | repeat constructor].
    + simpl. rewrite Hlen. reflexivity.
Qed.

Lemma fill_ok (columns : nat) (body : list node) :
  Forall (tables.row_of columns) body ->
  forall data,
    forallb tables.cell_ok data = true ->
    length data = length body \/ (columns = 0 /\ length body <= length data) ->
    exists body',
      tables.fill body data = Ok body'
      /\ Forall (tables.row_of (S columns)) body'
      /\ length body' = length data
      /\ Forall2 tables.extended body (firstn (length body) body').
Proof.
  induction 1 as [|row body Hrow _ IH]; intros data Hcells Hlen.
  - destruct data as [|column data].
    + exists []. repeat split; constructor.
    + destruct Hlen as [Hlen|[-> _]]; [discriminate|].
      destruct (new_rows_ok _ Hcells) as (rows & Hrows & Hshape & Hl).
      exists rows. cbn [tables.fill]. rewrite Hrows. repeat split; try assumption. constructor.
  - destruct data as [|column data]; [simpl in Hlen; lia|].
    simpl in Hcells. apply andb_prop in Hcells. destruct Hcells as [Hc Hd].
    destruct (row_push_column columns row column [] NONE Hrow Hc) as (row' & Hpush & Hrow' & Hext).
    destruct (IH data Hd) as (body' & Hfill & Hshape & Hl & Hkept).
    { simpl in Hlen. destruct Hlen as [Hlen|[Hc0 Hlen]]; [left; lia | right; split; [exact Hc0 | lia]]. }
    exists (row' :: body'). cbn [tables.fill]. rewrite Hpush. cbn [bind]. rewrite Hfill.
    split; [reflexivity|]. split; [constructor; assumption|]. split; [simpl; lia|].
    simpl. constructor; assumption.
Qed.

(** X7: a column pushed onto a table whose rows all have the same number of
    cells, with a head and one cell for every body row (or onto a table
    without columns yet, whose missing rows are made), gives a table whose
    rows all have one cell more: every row keeps its cells and gets the new
    one at its end, and the alignment is that of the new column. *)
Theorem push_column_rectangular (columns : nat) (table : node) (head : arg) (data : list arg)
    (alignment : TableAlignment) :
  tables.rectangular columns table ->
  tables.truthy head = true ->
  tables.cell_ok head = true ->
  forallb tables.cell_ok data = true ->
  length data = length (tables.get_body table)
  \/ (columns = 0 /\ length (tables.get_body table) <= length data) ->
  exists rows alignments,
    tables.push_column table head data alignment = Ok (Table rows alignments)
    /\ tables.rectangular (S columns) (Table rows alignments)
    /\ length rows = S (length data)
    /\ nth_error alignments columns = Some alignment
    /\ (forall old, get_nodes table = Some old ->
                    Forall2 tables.extended old (firstn (length old) rows)).
Proof.
  intros Hrect Hhead Hcell Hdata Hlen.
  destruct table; try contradiction.
  destruct Hrect as (Hne & Hrows & Hal).
  destruct nodes as [|first body]; [contradiction|].
  inversion Hrows as [|? ? Hfirst Hbody]; subst.
  destruct (row_push_column _ first head [] NONE Hfirst Hcell) as (first' & Hpush & Hfirst' & Hext).
  destruct (fill_ok _ body Hbody data Hdata Hlen) as (body' & Hfill & Hshape & Hl & Hkept).
  exists (first' :: body'), (alignments ++ [alignment])%list.
  rewrite push_column_Table, Hhead, Hpush. cbn [bind]. rewrite Hfill.
  split; [reflexivity|]. split; [|split; [|split]].
  - split; [discriminate|]. split; [constructor; assumption|].
    rewrite length_app. simpl. lia.
  - simpl. rewrite Hl. reflexivity.
  - rewrite nth_error_app2 by lia. rewrite Nat.sub_diag. reflexivity.
  - intros old Hold. injection Hold as <-. simpl. constructor; assumption.
Qed.

Lemma push_column_rectangular_witness :
  exists rows alignments,
    tables.push_column (Table [TableRow [] Holder] []) (OneString "Name")
                       [OneString "Ada"; OneString "Alan"] LEFT
    = Ok (Table rows alignments)
    /\ length rows = 3.
Proof.
  destruct (push_column_rectangular 0 (Table [TableRow [] Holder] []) (OneString "Name")
              [OneString "Ada"; OneString "Alan"] LEFT)
    as (rows & alignments & Hpush & _ & Hlen & _).
  - split; [discriminate|]. split; [repeat constructor | reflexivity].
  - reflexivity.
  - reflexivity.
  - reflexivity.
  - right. split; [reflexivity | simpl; lia].
  - exists rows, alignments. split; assumption.
Defined.

Lemma length_repeat_string (n : nat) : String.length (repeat_string "-" n) = n.
Proof. induction n as [|n IH]; simpl; [reflexivity | rewrite IH; reflexivity]. Qed.

Lemma length_to_pretty_string (a : TableAlignment) (n : nat) :
  String.length (to_pretty_string a n) = Nat.max 5 n.
Proof.
  unfold to_pretty_string. rewrite !length_append, length_repeat_string.
  assert (Hl : String.length (left a) = 1) by (destruct a; reflexivity).
  assert (Hr : String.length (right a) = 1) by (destruct a; reflexivity).
  rewrite Hl, Hr. destruct (Nat.ltb_spec n 5); lia.
Qed.

(** X8: in the serialization of a table, the cell of the alignment row of a
    column is two characters wider than the text of its head cell, and at
    least five characters wide, also when the head row has no such cell; it
    begins and ends with the marks of the alignment. *)
Theorem alignment_row_widths (alignments : list TableAlignment) (head_columns : list string)
    (i : nat) (a : TableAlignment) :
  nth_error alignments i = Some a ->
  exists cell dashes,
    nth_error (alignment_row alignments head_columns) i = Some cell
    /\ cell = left a ++ repeat_string "-" dashes ++ right a
    /\ String.length cell = Nat.max 5 (String.length (nth i head_columns "") + 2).
Proof.
  revert head_columns i.
  induction alignments as [|b alignments IH]; intros head_columns [|i] H; try discriminate.
  - injection H as ->. cbn [alignment_row nth_error].
    eexists _, _. split; [reflexivity|]. split; [reflexivity|].
    rewrite length_to_pretty_string.
    destruct head_columns as [|h r]; cbn [nth]; [reflexivity|].
    destruct (String.eqb_spec h ""); [subst|]; reflexivity.
  - cbn [nth_error] in H.
    destruct (IH (tl head_columns) i H) as (cell & dashes & Hcell & Hshape & Hlen).
    exists cell, dashes. cbn [alignment_row nth_error].
    split; [exact Hcell|]. split; [exact Hshape|].
    rewrite Hlen. destruct head_columns as [|h r]; [destruct i|]; reflexivity.
Qed.

Lemma alignment_row_widths_witness :
  exists cell dashes,
    nth_error (alignment_row [LEFT; CENTER] ["Name"; "Id"]) 1 = Some cell
    /\ cell = left CENTER ++ repeat_string "-" dashes ++ right CENTER
    /\ String.length cell = 5.
Proof.
  exact (alignment_row_widths [LEFT; CENTER] ["Name"; "Id"] 1 CENTER eq_refl).
Defined.

(** ** The JSON encoding *)

Lemma mapM_injective {A B} (f : A -> outcome B) (P : A -> Prop) (l1 : list A) :
  Forall (fun x => forall y b, P x -> P y -> f x = Ok b -> f y = Ok b -> x = y) l1 ->
  forall l2 bs,
    Forall P l1 -> Forall P l2 -> mapM f l1 = Ok bs -> mapM f l2 = Ok bs -> l1 = l2.
Proof.
  induction 1 as [|x l1 Hx _ IH]; intros l2 bs P1 P2 H1 H2.
  - injection H1 as <-. destruct l2 as [|y l2]; [reflexivity|].
    rewrite mapM_cons in H2. apply bind_Ok in H2. destruct H2 as (b & Hb & H2).
    apply bind_Ok in H2. destruct H2 as (bs' & Hbs & H2). discriminate.
  - rewrite mapM_cons in H1. apply bind_Ok in H1. destruct H1 as (b & Hb & H1).
    apply bind_Ok in H1. destruct H1 as (bs' & Hbs & H1). injection H1 as <-.
    destruct l2 as [|y l2]; [discriminate|].
    rewrite mapM_cons in H2. apply bind_Ok in H2. destruct H2 as (b2 & Hb2 & H2).
    apply bind_Ok in H2. destruct H2 as (bs2 & Hbs2 & H2). injection H2 as -> ->.
    inversion P1; inversion P2; subst.
    f_equal; [apply (Hx y b); assumption | apply (IH l2 bs'); assumption].
Qed.

Lemma children_injective (f : node -> outcome json) (nodes nodes0 : list node)
    (js : list json) :
  (forall n b, f n = Ok b -> stringify n = Ok b) ->
  Forall (fun n => forall m j, encoding.canonical n = true -> encoding.canonical m = true ->
                               stringify n = Ok j -> stringify m = Ok j -> n = m) nodes ->
  forallb encoding.canonical nodes = true -> forallb encoding.canonical nodes0 = true ->
  mapM f nodes = Ok js -> mapM f nodes0 = Ok js -> nodes = nodes0.
Proof.
  intros Hf IH Hc Hc0 E E0.
  apply (mapM_injective f (fun n => encoding.canonical n = true) nodes) with (bs := js);
    try assumption; try (apply forallb_Forall; assumption).
  eapply Forall_impl; [|exact IH]. intros n Hn m b Pn Pm En Em.
  apply (Hn m b); auto.
Qed.

Lemma alignment_names_injective (a b : list TableAlignment) :
  map (fun x => JString (name x)) a = map (fun x => JString (name x)) b -> a = b.
Proof.
  revert b. induction a as [|x a IH]; intros [|y b] H; try discriminate; [reflexivity|].
  simpl in H. injection H as Hxy Hab. f_equal; [|apply IH; exact Hab].
  destruct x, y; try discriminate; reflexivity.
Qed.

Ltac invert_json :=
  repeat match goal with
         | H : bind _ _ = Ok _ |- _ =>
             let a := fresh "js" in
             let E := fresh "E" in
             apply bind_Ok in H; destruct H as (a & E & H)
         | H : (if ?c then _ else _) = Ok _ |- _ => destruct c eqn:?
         | H : Throw _ = Ok _ |- _ => discriminate H
         | H : Ok _ = Ok _ |- _ => injection H as H
         end.

Lemma stringify_injective (n : node) :
  forall m j, 
    encoding.canonical n = true -> encoding.canonical m = true ->
    stringify n = Ok j -> stringify m = Ok j -> n = m.
Proof.
  nested_induction n; intros m j Hn Hm H1 H2.
  all: destruct m; simpl in H1, H2; invert_json; try (subst j; discriminate).
  all: try (destruct ref as [[u|] [t|]]; subst j; discriminate).
  all: try (destruct ref as [[u|] [t|]]; destruct ref0 as [[u0|] [t0|]]; subst j;
            try discriminate).
  all: try (subst j).
  all: simpl in Hn, Hm;
    repeat match goal with
           | H : _ && _ = true |- _ => apply andb_prop in H; destruct H
           end.
  all: repeat match goal with
              | H : encoding.finite ?x = true |- _ => destruct x; try discriminate H; clear H
              | H : encoding.held ?x = true |- _ => destruct x; try discriminate H; clear H
              end.
  all: repeat match goal with
              | H : JObject _ = JObject _ |- _ => simpl in H; injection H as H
              | H : JString _ = JString _ |- _ => injection H as H
              | H : JNumber _ = JNumber _ |- _ => injection H as H
              end.
  all: subst.
  all: repeat match goal with
              | IH : Forall _ ?l, E : mapM ?f ?l = Ok ?js, E0 : mapM ?f ?l0 = Ok ?js |- _ =>
                  assert (l = l0)
                    by (apply (children_injective f l l0 js); try assumption;
                        intros [] b Hb; try discriminate; exact Hb);
                  clear E; subst
              end.
  all: try reflexivity.
  - apply String.eqb_eq in Heqb0, Heqb. congruence.
  - destruct skin_tone as [[]|], skin_tone0 as [[]|]; simpl in *; try discriminate; congruence.
  - destruct language, language0; simpl in *; congruence.
  - destruct checked, checked0; congruence.
  - destruct nodes, nodes0; try discriminate. reflexivity.
  - f_equal. apply alignment_names_injective. congruence.
  - destruct nodes, nodes0; try discriminate. reflexivity.
Qed.

Lemma references_json_injective (a b : list (string * Reference)) :
  map (fun r => JObject [("name", JString (fst r)); ("ref", Reference_json (snd r))]) a
  = map (fun r => JObject [("name", JString (fst r)); ("ref", Reference_json (snd r))]) b ->
  a = b.
Proof.
  revert b. induction a as [|[n [u t]] a IH]; intros [|[n' [u' t']] b] H;
    try discriminate; [reflexivity|].
  simpl in H. injection H as Hn Hr Hab. subst n'. f_equal; [|apply IH; exact Hab].
  unfold Reference_json in Hr. simpl in Hr.
  destruct u, t, u', t'; simpl in Hr; try discriminate; congruence.
Qed.

(** X9: the JSON of a document determines the document, when all the fields
    of its nodes are in the JSON: two documents with the same JSON are the
    same document, provided that in both every table row was made for the
    table that holds it ([TableRow.table] is not written), every skin tone
    and list start is a number other than [NaN], the infinities and
    negative zero (which are written [null], [null] and [0]), and the
    [InlineLatex] and [TableOfContents] nodes have no child nodes (which
    are not written), as their constructors leave them. *)
Theorem toJSON_injective (d1 d2 : MDDocument) (j : json) :
  forallb encoding.canonical (blocks d1) = true ->
  forallb encoding.canonical (blocks d2) = true ->
  MDDocument_toJSON d1 = Ok j -> MDDocument_toJSON d2 = Ok j -> d1 = d2.
Proof.
  intros H1 H2 E1 E2. unfold MDDocument_toJSON in *.
  apply bind_Ok in E1. destruct E1 as (bs1 & Eb1 & E1).
  apply bind_Ok in E2. destruct E2 as (bs2 & Eb2 & E2).
  rewrite <- E1 in E2. injection E2 as Hbs Hrefs. subst bs2.
  destruct d1 as [blocks1 refs1], d2 as [blocks2 refs2]. simpl in *.
  f_equal.
  - apply (children_injective toJSON blocks1 blocks2 bs1); try assumption.
    + intros [] b Hb; try discriminate; exact Hb.
    + apply Forall_forall. intros n _ m b. apply stringify_injective.
  - symmetry. apply references_json_injective. exact Hrefs.
Qed.

Lemma toJSON_injective_witness :
  {| blocks := [Paragraph [Text "x"]]; references := [] |}
  = document.push (document.new_MDDocument None) (Str "x").
Proof.
  apply (toJSON_injective _ _
           (JObject [("blocks", JArray [JObject [("type", JString "paragraph");
                                                 ("nodes", JArray [JString "x"])]]);
                     ("references", JArray [])])); reflexivity.
Defined.

Lemma mapM_ok_iff {A B} (f : A -> outcome B) (l : list A) :
  (exists ys, mapM f l = Ok ys) <-> Forall (fun x => exists y, f x = Ok y) l.
Proof.
  induction l as [|x l IH].
  - split; [constructor | exists []; reflexivity].
  - rewrite mapM_cons. split.
    + intros [ys H]. apply bind_Ok in H. destruct H as (y & Hy & H).
      apply bind_Ok in H. destruct H as (ys' & Hys & _).
      constructor; [eauto | apply IH; eauto].
    + intros H. inversion H as [|? ? [y Hy] Hl]; subst.
      apply IH in Hl. destruct Hl as [ys Hys]. rewrite Hy. cbn [bind]. rewrite Hys.
      eexists; reflexivity.
Qed.

Lemma bind_defined {A B} (m : outcome A) (g : A -> B) :
  (exists b, bind m (fun a => Ok (g a)) = Ok b) <-> (exists a, m = Ok a).
Proof.
  split.
  - intros [b H]. apply bind_Ok in H. destruct H as (a & Ha & _). eauto.
  - intros [a ->]. eexists; reflexivity.
Qed.

Lemma children_defined (nodes : list node) :
  Forall (fun n => (exists j, stringify n = Ok j) <-> encoding.encodable n = true) nodes ->
  (exists js, mapM stringify nodes = Ok js) <-> forallb encoding.encodable nodes = true.
Proof.
  intros IH. rewrite mapM_ok_iff, forallb_forall, Forall_forall.
  rewrite Forall_forall in IH.
  split; intros H n Hin; apply (IH n Hin), H; exact Hin.
Qed.

Lemma called_defined (nodes : list node) :
  Forall (fun n => (exists j, stringify n = Ok j) <-> encoding.encodable n = true) nodes ->
  (exists js, mapM toJSON nodes = Ok js)
  <-> forallb (fun child => negb (encoding.is_comment child) && encoding.encodable child) nodes = true.
Proof.
  intros IH. rewrite mapM_ok_iff, forallb_forall, Forall_forall.
  rewrite Forall_forall in IH.
  split; intros H n Hin; specialize (H n Hin); specialize (IH n Hin).
  - destruct H as [j Hj]. destruct n; try discriminate; simpl; apply IH; eauto.
  - apply andb_prop in H. destruct H as [Hc He].
    destruct n; try discriminate; apply IH; exact He.
Qed.

Lemma stringify_defined (n : node) :
  (exists j, stringify n = Ok j) <-> encoding.encodable n = true.
Proof.
  nested_induction n; simpl;
    try (split; [reflexivity | intros _; eexists; reflexivity]);
    try (rewrite bind_defined; apply children_defined; assumption).
  - split; [reflexivity|]. intros _.
    destruct (content =? _); eexists; reflexivity.
  - rewrite andb_true_iff, <- (children_defined nodes H), <- (children_defined sublists H0).
    split.
    + intros [j Hj]. apply bind_Ok in Hj. destruct Hj as (js & Hjs & Hj).
      apply bind_Ok in Hj. destruct Hj as (subs & Hsubs & _). eauto.
    + intros [[js Hjs] [subs Hsubs]]. rewrite Hjs. cbn [bind]. rewrite Hsubs.
      eexists; reflexivity.
  - rewrite bind_defined. apply (called_defined nodes H).
  - rewrite bind_defined. apply (called_defined nodes H).
  - rewrite bind_defined. apply (called_defined nodes H).
Qed.

(** X10: [toJSON] returns the JSON of a document unless a [Comment], the one
    class without a [toJSON] method, is a block of the document or stands
    directly in a table, a row or a cell: then, and only then, it throws. *)
Theorem toJSON_defined (d : MDDocument) :
  (exists j, MDDocument_toJSON d = Ok j)
  <-> forallb (fun block => negb (encoding.is_comment block) && encoding.encodable block) (blocks d) = true.
Proof.
  unfold MDDocument_toJSON. rewrite bind_defined.
  apply called_defined. apply Forall_forall. intros n _. apply stringify_defined.
Qed.

Lemma toJSON_defined_witness : exists j, MDDocument_toJSON sample = Ok j.
Proof. apply toJSON_defined. reflexivity. Defined.

(** ** Renderers that agree *)

Lemma mapM_ext {A B} (f g : A -> outcome B) (l : list A) :
  Forall (fun x => f x = g x) l -> mapM f l = mapM g l.
Proof.
  induction 1 as [|x l Hx _ IH]; [reflexivity|].
  rewrite !mapM_cons, Hx, IH. reflexivity.
Qed.

Section Congruence.

Variables lib lib' : library.
Variable markdown : MDDocument.
Variables o o' : options.
Hypothesis Hoptions : rendering.same_options o o'.
Hypothesis Htemplates : rendering.same_templates lib lib'.
Hypothesis Hparser : inline_html_enable o = true -> rendering.same_parser lib lib'.

Ltac same_fields :=
  destruct Hoptions as (? & ? & ? & ? & ? & ? & ? & ? & ? & ? & ? & ? & ? & ? & ? & ? & ? & ? & ? & ?);
  destruct Htemplates as (? & ? & ?);
  repeat match goal with
         | H : ?f o = ?f o' |- _ => rewrite ?H in *; clear H
         | H : ?f lib = ?f lib' |- _ => rewrite ?H in *; clear H
         end.

Lemma checkbox_same (checked : bool) : checkbox o checked = checkbox o' checked.
Proof. unfold checkbox. same_fields. reflexivity. Qed.

Lemma render_latex_same (escape : bool) (n : node) :
  render_latex lib o escape n = render_latex lib' o' escape n.
Proof. unfold render_latex. same_fields. reflexivity. Qed.

Ltac same_children :=
  repeat match goal with
         | IH : Forall _ ?nodes
           |- context [mapM (render_inline_node lib markdown o ?a ?e) ?nodes] =>
             rewrite (mapM_ext (render_inline_node lib markdown o a e)
                               (render_inline_node lib' markdown o' a e) nodes)
               by (eapply Forall_impl; [|exact IH]; intros x Hx; apply Hx)
         end.

Lemma render_inline_node_same (n : node) :
  forall allow escape,
    render_inline_node lib markdown o allow escape n
    = render_inline_node lib' markdown o' allow escape n.
Proof.
  nested_induction n; intros allow escape; simpl; rewrite ?render_latex_same;
    same_children; same_fields; try reflexivity.
  destruct (content =? _); [reflexivity|].
  destruct (negb escape); [reflexivity|].
  destruct (inline_html_enable o') eqn:E; [|reflexivity].
  destruct (Hparser eq_refl) as [Hparse Hsanitize]. rewrite Hparse, Hsanitize. reflexivity.
Qed.

Lemma render_inline_same (nodes : list node) (escape allow : bool) :
  render_inline lib markdown o nodes escape allow
  = render_inline lib' markdown o' nodes escape allow.
Proof.
  unfold render_inline. f_equal. apply mapM_ext.
  apply Forall_forall. intros n _. apply render_inline_node_same.
Qed.

Lemma render_table_cells_same (table : outcome (list TableAlignment)) (data_type : string)
    (cells : list node) :
  forall index,
    render_table_cells lib markdown o table data_type index cells
    = render_table_cells lib' markdown o' table data_type index cells.
Proof.
  induction cells as [|cell cells IH]; intros index; [reflexivity|].
  simpl. destruct table as [alignments| |]; try reflexivity. cbn [bind].
  destruct (get_nodes cell); [|reflexivity].
  rewrite render_inline_same, IH. reflexivity.
Qed.

Lemma render_table_row_same (alignments : list TableAlignment) (row : node) (head : bool) :
  render_table_row lib markdown o alignments row head
  = render_table_row lib' markdown o' alignments row head.
Proof.
  unfold render_table_row. destruct (get_nodes row); [|reflexivity].
  rewrite render_table_cells_same. reflexivity.
Qed.

Section Blocks.

Variables toc toc' : bool -> outcome (html.node * bool).
Hypothesis Htoc : forall st, toc st = toc' st.

Ltac from_IH IH := eapply Forall_impl; [|exact IH]; intros ? Hx; intros; apply Hx.

Ltac same_blocks :=
  repeat match goal with
         | IH : Forall _ ?nodes
           |- context [forEachS (render_block lib markdown o toc) ?nodes ?st] =>
             rewrite (forEachS_ext (render_block lib markdown o toc)
                                   (render_block lib' markdown o' toc') nodes)
               by from_IH IH
         | IH : Forall _ ?nodes
           |- context [forEachS (render_entry lib markdown o toc ?lv) ?nodes ?st] =>
             rewrite (forEachS_ext (render_entry lib markdown o toc lv)
                                   (render_entry lib' markdown o' toc' lv) nodes)
               by from_IH IH
         | IH : Forall _ ?nodes
           |- context [forEachS (fun sublist st0 =>
                                   render_list lib markdown o toc sublist ?lv st0) ?nodes ?st] =>
             rewrite (forEachS_ext
                        (fun sublist st0 => render_list lib markdown o toc sublist lv st0)
                        (fun sublist st0 => render_list lib' markdown o' toc' sublist lv st0)
                        nodes)
               by from_IH IH
         end.

Lemma render_block_same (n : node) :
  (forall st, render_block lib markdown o toc n st = render_block lib' markdown o' toc' n st)
  /\ (forall level st, render_entry lib markdown o toc level n st
                       = render_entry lib' markdown o' toc' level n st)
  /\ (forall level st, render_list lib markdown o toc n level st
                       = render_list lib' markdown o' toc' n level st).
Proof.
  nested_induction n; (split; [intros st|split; intros lvl st]); simpl;
    try reflexivity;
    rewrite ?render_inline_same, ?render_latex_same, ?render_table_row_same, ?Htoc;
    same_blocks; try reflexivity; try solve [same_fields; reflexivity].
  - (* BlockQuote *)
    rewrite (forEachS_ext
               (fun child st0 =>
                  if is_block child then render_block lib markdown o toc child st0
                  else r <- render_inline lib markdown o [child] true true ;; Ok (r, st0))
               (fun child st0 =>
                  if is_block child then render_block lib' markdown o' toc' child st0
                  else r <- render_inline lib' markdown o' [child] true true ;; Ok (r, st0))
               nodes); [reflexivity|].
    eapply Forall_impl; [|exact H]. intros child [Hchild _] st0.
    rewrite Hchild, render_inline_same. reflexivity.
  - (* ListEntry *)
    destruct checked as [checked|]; rewrite ?checkbox_same; same_fields; reflexivity.
  - (* InlineHTML *)
    destruct (Bool.bool_dec (inline_html_enable o) true) as [E|E].
    + destruct (Hparser E) as [Hparse _]. rewrite Hparse. same_fields. rewrite E. reflexivity.
    + apply not_true_is_false in E.
      assert (E' : inline_html_enable o' = false) by (same_fields; exact E).
      rewrite E, E'.
      destruct (fmap (join "") (mapM toString nodes)) as [text| |]; try reflexivity.
      cbn [bind]. rewrite render_inline_same. reflexivity.
  - (* Table *)
    destruct nodes as [|head body]; [reflexivity|].
    rewrite render_table_row_same.
    rewrite (mapM_ext (fun row => render_table_row lib markdown o alignments row false)
                      (fun row => render_table_row lib' markdown o' alignments row false) body)
      by (apply Forall_forall; intros row _; apply render_table_row_same).
    same_fields. reflexivity.
Qed.

End Blocks.

Lemma render_toc_same (st : bool) :
  render_toc lib markdown o st = render_toc lib' markdown o' st.
Proof.
  unfold render_toc. destruct (as_list markdown) as [lst| |]; try reflexivity.
  cbn [bind]. apply render_block_same. reflexivity.
Qed.

(** Two renderers that differ in nothing they read render the same. *)
Lemma render_blocks_same (blocks : list node) (st : bool) :
  render_blocks lib markdown o blocks st = render_blocks lib' markdown o' blocks st.
Proof.
  unfold render_blocks.
  rewrite (forEachS_ext (render_block lib markdown o (render_toc lib markdown o))
                        (render_block lib' markdown o' (render_toc lib' markdown o')) blocks);
    [reflexivity|].
  apply Forall_forall. intros block _. apply render_block_same. apply render_toc_same.
Qed.

End Congruence.


(** X12: with [inline_html] switched off, the renderer calls neither
    [html.parse_nodes] nor [html.sanitize_elements] (and so never
    [sanitize_raw]): two libraries that agree on the other functions
    ([html.parse], which [render_latex] calls on the output of
    [latex.render] whatever [inline_html] is, [node.html()] and the text
    properties) render every list of blocks alike, however they parse and
    sanitize inline HTML. *)
Theorem disabled_inline_html_skips_parse_nodes (lib lib' : library) (d : MDDocument)
    (u : user_options) (blocks : list node) (st : bool) :
  rendering.same_templates lib lib' ->
  inline_html_enable (merge_default_options u) = false ->
  render_blocks lib d (merge_default_options u) blocks st
  = render_blocks lib' d (merge_default_options u) blocks st.
Proof.
  intros Htemplates Hoff. apply render_blocks_same.
  - repeat split.
  - exact Htemplates.
  - rewrite Hoff. discriminate.
Qed.

Lemma disabled_inline_html_skips_parse_nodes_witness :
  render_blocks text_only spec.article
                (merge_default_options (rendering.with_inline_html no_options false))
                [Paragraph [Text "<b>bold</b>"]] false
  = render_blocks rendering.blind spec.article
                  (merge_default_options (rendering.with_inline_html no_options false))
                  [Paragraph [Text "<b>bold</b>"]] false.
Proof.
  apply disabled_inline_html_skips_parse_nodes.
  - repeat split.
  - reflexivity.
Defined.

(** ** The table of contents and the headings *)

Lemma depths_contents (items : list (nat * list node)) :
  forall k, map snd (depths k items) = map snd items.
Proof.
  induction items as [|[level content] items IH]; intros k; [reflexivity|].
  simpl. rewrite IH. reflexivity.
Qed.

Lemma depths_headings (doc : MDDocument) (allow_h1 : bool) (headings : list node) :
  Forall (fun heading => ready heading = true /\ In heading (blocks doc)) headings ->
  forall k,
    Forall2 (fun entry heading =>
               exists nodes level id,
                 heading = Heading nodes level
                 /\ In heading (blocks doc)
                 /\ get_id heading = Ok id
                 /\ snd entry
                    = [Paragraph [Link (purge_linebreaks nodes)
                                       {| url := Some ("#" ++ id); tooltip := None |} ""]])
            (depths k (map (item allow_h1) headings)) headings.
Proof.
  induction 1 as [|h hs [Hr Hin] _ IH]; intros k; [constructor|].
  cbn [map]. unfold item at 1. cbn [depths]. constructor; [|apply IH].
  destruct h; try discriminate.
  unfold ready in Hr. apply andb_prop in Hr. destruct Hr as [_ Hid].
  destruct (get_id (Heading nodes level)) as [id| |] eqn:Eid; try discriminate.
  exists nodes, level, id. repeat split; try assumption.
  cbn [snd]. unfold heading_id, entry_content. rewrite Eid. reflexivity.
Qed.

(** X13: the list [as_list] returns has one entry for every heading that is
    listed, in document order, and every entry links to its heading: its
    content is one paragraph holding one link to [#id], titled with the
    nodes of the heading, where [id] is the identifier of that heading
    block, the one the heading is rendered with. *)
Theorem toc_links_to_headings (doc : MDDocument) :
  Forall (fun heading => ready heading = true) (filter instanceof_Heading (blocks doc)) ->
  exists lst,
    as_list doc = Ok lst
    /\ Forall2 (fun entry heading =>
                  exists nodes level id,
                    heading = Heading nodes level
                    /\ In heading (blocks doc)
                    /\ get_id heading = Ok id
                    /\ snd entry
                       = [Paragraph [Link (purge_linebreaks nodes)
                                          {| url := Some ("#" ++ id); tooltip := None |} ""]]
                    /\ (forall lib o toc st r,
                           render_block lib doc o toc heading st = Ok r ->
                           exists element,
                             fst r = [html.Obj element]
                             /\ html.get_attr element "id" = Some (html.StringValue id)))
               (outline 0 lst) (toc_headings doc).
Proof.
  intros Hready. pose proof (ready_toc_ok doc Hready) as Hok.
  exists (table doc). split; [apply as_list_table; exact Hok|].
  rewrite table_outline. unfold items.
  eapply Forall2_impl; [|apply (depths_headings doc)].
  - intros entry heading (nodes & level & id & -> & Hin & Eid & Hcontent).
    exists nodes, level, id. repeat split; try assumption.
    intros lib o toc st r Hrender.
    change (render_block lib doc o toc (Heading nodes level) st)
      with (id <- get_id (Heading nodes level) ;;
            content <- render_inline lib doc o nodes true false ;;
            Ok ([html.Obj (html.append_children
                             (html.attr (html.create_element level) "id"
                                        (html.StringValue id)) content)], st))
      in Hrender.
    rewrite Eid in Hrender. cbn [bind] in Hrender.
    destruct (render_inline lib doc o nodes true false) as [rendered| |]; try discriminate.
    cbn [bind] in Hrender. injection Hrender as <-.
    eexists. split; [reflexivity|].
    rewrite get_attr_append_children. reflexivity.
  - apply Forall_forall. intros h Hh.
    rewrite Forall_forall in Hok. destruct (Hok h Hh) as [Hr _].
    split; [exact Hr|]. apply toc_headings_blocks in Hh. apply Hh.
Qed.

Lemma toc_links_to_headings_witness :
  exists lst,
    as_list sample = Ok lst
    /\ map snd (outline 0 lst)
       = [[Paragraph [Link [Text "B"] {| url := Some "#b"; tooltip := None |} ""]]].
Proof.
  destruct (toc_links_to_headings sample) as (lst & Hlist & Hentries).
  - simpl. repeat constructor.
  - exists lst. split; [exact Hlist|].
    vm_compute in Hlist. injection Hlist as <-. reflexivity.
Defined.

Lemma depths_gentle (items : list (nat * list node)) :
  forall k, notions.gentle k (map fst (depths k items)).
Proof.
  induction items as [|[level content] items IH]; intros k; [exact I|].
  simpl. split; [unfold depth_after; lia | apply IH].
Qed.

Lemma depths_below_level (allow_h1 : bool) (headings : list node) :
  Forall (toc_ok allow_h1) headings ->
  forall k,
    Forall2 (fun entry heading => fst entry < heading_level allow_h1 heading)
            (depths k (map (item allow_h1) headings)) headings.
Proof.
  induction 1 as [|h hs [_ Hlevel] _ IH]; intros k; [constructor|].
  simpl. constructor; [|apply IH].
  simpl. unfold depth_after. lia.
Qed.

(** X14: the nesting of the table of contents has no gaps: its first entry
    is at the top of the list whatever the level of its heading, no entry
    is more than one level below the entry before it, and no entry is
    deeper than the level of its heading allows. *)
Theorem toc_nesting_has_no_gaps (doc : MDDocument) :
  Forall (fun heading => ready heading = true) (filter instanceof_Heading (blocks doc)) ->
  exists lst,
    as_list doc = Ok lst
    /\ notions.gentle 0 (map fst (outline 0 lst))
    /\ Forall2 (fun entry heading => fst entry < heading_level (toc_allow_h1 doc) heading)
               (outline 0 lst) (toc_headings doc).
Proof.
  intros Hready. pose proof (ready_toc_ok doc Hready) as Hok.
  exists (table doc). split; [apply as_list_table; exact Hok|].
  rewrite table_outline. split; [apply depths_gentle|].
  apply depths_below_level. exact Hok.
Qed.

Lemma toc_nesting_has_no_gaps_witness :
  exists lst,
    as_list {| blocks := [Heading [Text "deep"] "h4"; Heading [Text "top"] "h2";
                          Heading [Text "below"] "h6"];
               references := [] |} = Ok lst
    /\ notions.gentle 0 (map fst (outline 0 lst)).
Proof.
  destruct (toc_nesting_has_no_gaps
              {| blocks := [Heading [Text "deep"] "h4"; Heading [Text "top"] "h2";
                            Heading [Text "below"] "h6"];
                 references := [] |}) as (lst & Hlist & Hgentle & _).
  - simpl. repeat constructor.
  - exists lst. split; assumption.
Defined.

Lemma join_flat (l : list (list string)) :
  join "" (map (join "") l) = join "" (concat l).
Proof.
  induction l as [|x l IH]; [reflexivity|].
  simpl concat. rewrite join_app, <- IH.
  destruct l as [|y l]; [simpl; rewrite append_nil_r; reflexivity | reflexivity].
Qed.

Lemma plain_text_children (nodes : list node) :
  Forall (fun n => spec.plain n = true -> instanceof_Element n = true ->
                   as_plain_text n = Ok (join "" (notions.text_leaves n))) nodes ->
  forallb spec.plain nodes = true ->
  mapM (fun node => match node with
                    | Text c | Emoji c _ | InlineCode c | InlineLink c => Ok c
                    | _ => as_plain_text node
                    end) nodes
  = Ok (map (fun n => join "" (notions.text_leaves n)) nodes).
Proof.
  induction 1 as [|n nodes Hn _ IH]; intros Hp; [reflexivity|].
  simpl in Hp. apply andb_prop in Hp. destruct Hp as [Hpn Hps].
  rewrite mapM_cons, (IH Hps).
  assert (E : match n with
              | Text c | Emoji c _ | InlineCode c | InlineLink c => Ok c
              | _ => as_plain_text n
              end = Ok (join "" (notions.text_leaves n))).
  { destruct n; try reflexivity; try discriminate; apply Hn; auto. }
  rewrite E. reflexivity.
Qed.

Lemma as_plain_text_leaves (n : node) :
  spec.plain n = true -> instanceof_Element n = true ->
  as_plain_text n = Ok (join "" (notions.text_leaves n)).
Proof.
  nested_induction n; intros Hp He; try discriminate; try reflexivity;
    simpl; simpl in Hp;
    match goal with
    | IH : Forall _ ?nodes |- context [mapM _ ?nodes] =>
        rewrite (plain_text_children nodes IH Hp)
    end;
    unfold fmap, bind; f_equal;
    cbn [notions.text_leaves]; rewrite flat_map_concat_map, <- join_flat, map_map; reflexivity.
Qed.

(** X15: the plain text of an element is the concatenation, in document
    order, of the texts below it, whatever the formatting around them; so
    the identifier of a heading depends on these texts alone: two headings
    with the same texts have the same identifier. *)
Theorem heading_id_ignores_formatting (nodes nodes' : list node) (level level' : string) :
  forallb spec.plain nodes = true ->
  forallb spec.plain nodes' = true ->
  join "" (flat_map notions.text_leaves nodes) = join "" (flat_map notions.text_leaves nodes') ->
  as_plain_text (Heading nodes level) = Ok (join "" (flat_map notions.text_leaves nodes))
  /\ get_id (Heading nodes level)
     = Ok (id_of_text (join "" (flat_map notions.text_leaves nodes)))
  /\ get_id (Heading nodes level) = get_id (Heading nodes' level').
Proof.
  intros Hp Hp' Hsame.
  pose proof (as_plain_text_leaves (Heading nodes level) Hp eq_refl) as H.
  pose proof (as_plain_text_leaves (Heading nodes' level') Hp' eq_refl) as H'.
  change (notions.text_leaves (Heading nodes level))
    with (flat_map notions.text_leaves nodes) in H.
  change (notions.text_leaves (Heading nodes' level'))
    with (flat_map notions.text_leaves nodes') in H'.
  split; [exact H|]. unfold get_id. rewrite H, H', Hsame. split; reflexivity.
Qed.

Lemma heading_id_ignores_formatting_witness :
  get_id (Heading [Bold [Text "Get"]; Text " started"] "h1")
  = get_id (Heading [Text "Get "; Italic [Text "start"; Text "ed"]] "h3").
Proof.
  apply (heading_id_ignores_formatting
           [Bold [Text "Get"]; Text " started"]
           [Text "Get "; Italic [Text "start"; Text "ed"]] "h1" "h3"); reflexivity.
Defined.

(** ** Paragraphs *)

Lemma forEachS_flag {A B} (f : A -> bool -> outcome (B * bool)) (l : list A) :
  Forall (fun x => forall st y, f x st = Ok y -> snd y = st \/ snd y = false) l ->
  forall st r, forEachS f l st = Ok r -> snd r = st \/ snd r = false.
Proof.
  induction 1 as [|x l Hx _ IH]; intros st r H.
  - injection H as <-. left. reflexivity.
  - rewrite forEachS_cons in H. apply bind_Ok in H. destruct H as (y & Hy & H).
    apply bind_Ok in H. destruct H as (ys & Hys & H). injection H as <-. simpl.
    destruct (IH _ _ Hys) as [E|E]; [|right; exact E].
    rewrite E. apply (Hx _ _ Hy).
Qed.

Lemma forEachS_false {A B} (f : A -> bool -> outcome (B * bool)) (l : list A) :
  Forall (fun x => forall st y, f x st = Ok y -> snd y = false) l ->
  forall st r, forEachS f l st = Ok r -> snd r = st \/ snd r = false.
Proof.
  intros H. apply forEachS_flag. eapply Forall_impl; [|exact H].
  intros x Hx st y Hy. right. exact (Hx st y Hy).
Qed.

Section Flag.

Variable lib : library.
Variable markdown : MDDocument.
Variable o : options.
Variable toc : bool -> outcome (html.node * bool).
Hypothesis Htoc : forall st r, toc st = Ok r -> snd r = st \/ snd r = false.

Ltac flag_step :=
  match goal with
  | H : Throw _ = Ok _ |- _ => discriminate H
  | H : Diverge = Ok _ |- _ => discriminate H
  | H : Ok _ = Ok _ |- _ => injection H as <-
  | H : bind _ _ = Ok _ |- _ =>
      let x := fresh "x" in
      let E := fresh "E" in
      apply bind_Ok in H; destruct H as (x & E & H)
  | H : (if ?c then _ else _) = Ok _ |- _ => destruct c
  | H : match ?x with _ => _ end = Ok _ |- _ => destruct x
  end.

Lemma render_block_flag (n : node) :
  (forall st r, render_block lib markdown o toc n st = Ok r -> snd r = st \/ snd r = false)
  /\ (forall level st r, render_entry lib markdown o toc level n st = Ok r -> snd r = false)
  /\ (forall level st r, render_list lib markdown o toc n level st = Ok r ->
                         snd r = st \/ snd r = false).
Proof.
  nested_induction n; (split; [intros st r Hr|split; intros lvl st r Hr]); simpl in Hr;
    try discriminate; repeat flag_step; simpl; auto.
  all: try (eapply forEachS_false; [|eassumption];
            eapply Forall_impl; [|exact H]; intros ? (_ & Hentry & _); intros;
            eapply Hentry; eassumption).
  - (* BlockQuote *)
    eapply forEachS_flag; [|eassumption].
    eapply Forall_impl; [|exact H]. intros child (Hblock & _) st0 y Hy.
    destruct (is_block child); [exact (Hblock _ _ Hy)|].
    apply bind_Ok in Hy. destruct Hy as (content & _ & Hy). injection Hy as <-.
    left. reflexivity.
  - (* ListEntry *)
    assert (E' : snd x0 = false \/ snd x0 = false); [|destruct E'; assumption].
    eapply forEachS_flag; [|exact E0].
    eapply Forall_impl; [|exact H0]. intros sublist (_ & _ & Hlist) st0 y Hy.
    exact (Hlist _ _ _ Hy).
Qed.

End Flag.

Lemma forEachS_app_inv {A B} (f : A -> bool -> outcome (B * bool)) (before after : list A)
    (x : A) :
  forall st r,
    forEachS f (before ++ x :: after) st = Ok r ->
    exists r1 y r2,
      forEachS f before st = Ok r1 /\ f x (snd r1) = Ok y
      /\ forEachS f after (snd y) = Ok r2
      /\ fst r = (fst r1 ++ fst y :: fst r2)%list /\ snd r = snd r2.
Proof.
  induction before as [|a before IH]; intros st r H.
  - simpl app in H. rewrite forEachS_cons in H.
    apply bind_Ok in H. destruct H as (y & Hy & H).
    apply bind_Ok in H. destruct H as (r2 & Hr2 & H). injection H as <-.
    exists ([], st), y, r2. repeat split; assumption.
  - rewrite <- app_comm_cons, forEachS_cons in H.
    apply bind_Ok in H. destruct H as (b & Hb & H).
    apply bind_Ok in H. destruct H as (rest & Hrest & H). injection H as <-.
    destruct (IH _ _ Hrest) as (r1 & y & r2 & H1 & Hy & H2 & Hfst & Hsnd).
    exists (fst b :: fst r1, snd r1), y, r2.
    rewrite forEachS_cons, Hb. cbn [bind]. rewrite H1.
    repeat split; try assumption. simpl. rewrite Hfst. reflexivity.
Qed.

Lemma render_toc_flag (lib : library) (markdown : MDDocument) (o : options) (st : bool)
    (r : html.node * bool) :
  render_toc lib markdown o st = Ok r -> snd r = st \/ snd r = false.
Proof.
  unfold render_toc. intros H. apply bind_Ok in H. destruct H as (lst & _ & H).
  apply (render_block_flag lib markdown o (fun _ => Diverge)) in H; [exact H|].
  intros st0 r0 Hnever. discriminate.
Qed.

(** X16: a paragraph that is a block of the document is always rendered as a
    [p] element of its own: the switch that renders the paragraphs of a
    list entry as bare text is off again after every list, quote and table
    of contents before it. *)
Theorem top_level_paragraph_is_wrapped (lib : library) (d : MDDocument) (o : options)
    (before after nodes : list node) (r : list html.item * bool) :
  render_blocks lib d o (before ++ Paragraph nodes :: after) false = Ok r ->
  snd r = false
  /\ exists content pre post,
      render_inline lib d o nodes true true = Ok content
      /\ fst r = (pre ++ html.Obj (html.append_children (html.create_element "p") content)
                      :: post)%list.
Proof.
  unfold render_blocks. intros H.
  apply bind_Ok in H. destruct H as (children & Hchildren & H). injection H as <-.
  assert (Hflag : forall blocks st x,
             forEachS (render_block lib d o (render_toc lib d o)) blocks st = Ok x ->
             snd x = st \/ snd x = false).
  { intros blocks. apply forEachS_flag. apply Forall_forall. intros block _.
    apply render_block_flag. apply render_toc_flag. }
  split.
  - simpl. destruct (Hflag _ _ _ Hchildren); assumption.
  - apply forEachS_app_inv in Hchildren.
    destruct Hchildren as (r1 & y & r2 & H1 & Hy & H2 & Hfst & Hsnd).
    assert (E1 : snd r1 = false) by (destruct (Hflag _ _ _ H1); assumption).
    rewrite E1 in Hy. simpl in Hy.
    apply bind_Ok in Hy. destruct Hy as (content & Hcontent & Hy). injection Hy as <-.
    exists content, (concat (fst r1)), (concat (fst r2)).
    split; [exact Hcontent|].
    simpl. rewrite Hfst, concat_app. reflexivity.
Qed.

Lemma top_level_paragraph_is_wrapped_witness :
  exists content pre post,
    render_inline text_only spec.article (merge_default_options no_options)
                  [Text "after"] true true = Ok content
    /\ fst ([html.Obj (html.Element "ul" []
                         [html.Element "li" [] [html.Text "entry" html.NORMAL] []] []);
             html.Obj (html.Element "p" [] [html.Text "after" html.NORMAL] [])], false)
       = (pre ++ html.Obj (html.append_children (html.create_element "p") content)
              :: post)%list.
Proof.
  destruct (top_level_paragraph_is_wrapped text_only spec.article
              (merge_default_options no_options)
              [List [ListEntry [Paragraph [Text "entry"]] [] None] false (Int 1)]
              [] [Text "after"]
              ([html.Obj (html.Element "ul" []
                            [html.Element "li" [] [html.Text "entry" html.NORMAL] []] []);
                html.Obj (html.Element "p" [] [html.Text "after" html.NORMAL] [])], false)
              eq_refl) as (_ & H).
  exact H.
Defined.
